(** * Raw image viewer: the bitstream-to-pixel decoding core of [src/main.cpp]

    A shallow embedding of the bit readers, the pixel endianness adjustment,
    the 8-bit scaler and the viewport renderer, and of the parts of the main
    loop that act on the viewer state: keyboard navigation, the numeric
    controls, preset selection, loading and saving.  The properties checked
    against them follow the definitions.

    Conventions of the embedding.
    - Machine integers are values of [Z].  The data model is LP64:
      [int] is 32-bit signed, [uint8_t], [uint32_t], [uint64_t] and [size_t]
      (64-bit) are unsigned.  Unsigned arithmetic wraps ([u8], [u32], [u64]);
      a conversion of a signed value to an unsigned type is the same modular
      reduction.
    - Operations that C++ leaves without a meaning end the computation with
      [Undefined]: signed [int] overflow, a shift by a count that is negative
      or at least the width of the promoted left operand, a division by zero
      and an access outside an array or vector.  A left shift of a signed
      [int] by an in-range count is modular (C++20).  An exception that
      nothing catches ends the computation in the same way, without a
      result.
    - A byte buffer is a [list Z]; a [vector<uint8_t>] written by index is a
      [list Z] updated in place.
    - What the program receives from SDL, Dear ImGui, the file system and the
      PNG writer is a parameter of the function that uses it: the modifier
      masks and the key events, the values the widgets leave in their
      variables, what opening and reading a file gives,
      [filesystem::exists] and [stbi_write_png]. *)

From Stdlib Require Import Ascii String ZArith Bool List Lia DecimalString.
Import ListNotations.
Local Open Scope Z_scope.

(** ** Machine arithmetic *)

Module Machine.

Inductive ub : Type :=
| SignedOverflow
| ShiftOutOfRange
| DivisionByZero
| OutOfBounds
| UncaughtException.

Inductive result (A : Type) : Type :=
| Ok (a : A)
| Undefined (why : ub).

Arguments Ok {A} a.
Arguments Undefined {A} why.

Definition bind {A B : Type} (m : result A) (k : A -> result B) : result B :=
  match m with
  | Ok a => k a
  | Undefined why => Undefined why
  end.

Definition u8 (z : Z) : Z := z mod 2 ^ 8.
Definition u32 (z : Z) : Z := z mod 2 ^ 32.
Definition u64 (z : Z) : Z := z mod 2 ^ 64.

Definition INT_MIN : Z := - 2 ^ 31.
Definition INT_MAX : Z := 2 ^ 31 - 1.

Definition is_int (z : Z) : Prop := INT_MIN <= z <= INT_MAX.

Definition fits_int (z : Z) : bool := (INT_MIN <=? z) && (z <=? INT_MAX).

(** Two's complement reading of the low 32 bits. *)
Definition s32 (z : Z) : Z := (z + 2 ^ 31) mod 2 ^ 32 - 2 ^ 31.

(** The result of a signed [int] operation whose exact value is [z]. *)
Definition int_result (z : Z) : result Z :=
  if fits_int z then Ok z else Undefined SignedOverflow.

Definition int_add (a b : Z) : result Z := int_result (a + b).
Definition int_sub (a b : Z) : result Z := int_result (a - b).
Definition int_mul (a b : Z) : result Z := int_result (a * b).

(** [a << n] on a promoted 32-bit [int]. *)
Definition int_shl (a n : Z) : result Z :=
  if (0 <=? n) && (n <? 32) then Ok (s32 (Z.shiftl a n))
  else Undefined ShiftOutOfRange.

(** [a << n] and [a >> n] on a 64-bit unsigned operand. *)
Definition u64_shl (a n : Z) : result Z :=
  if (0 <=? n) && (n <? 64) then Ok (u64 (Z.shiftl a n))
  else Undefined ShiftOutOfRange.

Definition u64_shr (a n : Z) : result Z :=
  if (0 <=? n) && (n <? 64) then Ok (Z.shiftr a n)
  else Undefined ShiftOutOfRange.

Definition u64_div (a b : Z) : result Z :=
  if b =? 0 then Undefined DivisionByZero else Ok (a / b).

(** [v[i]] on a vector or array: reading and writing one element. *)
Definition load (v : list Z) (i : Z) : result Z :=
  if (0 <=? i) && (i <? Z.of_nat (length v))
  then Ok (nth (Z.to_nat i) v 0)
  else Undefined OutOfBounds.

Fixpoint update (v : list Z) (i : nat) (x : Z) : list Z :=
  match v, i with
  | [], _ => []
  | _ :: t, O => x :: t
  | h :: t, S j => h :: update t j x
  end.

Definition store (v : list Z) (i : Z) (x : Z) : result (list Z) :=
  if (0 <=? i) && (i <? Z.of_nat (length v))
  then Ok (update v (Z.to_nat i) x)
  else Undefined OutOfBounds.

End Machine.
Import Machine.

Notation "x <- m ;; k" := (bind m (fun x => k))
  (at level 61, m at next level, right associativity).

(** ** Bit readers (main.cpp, lines 29-59) *)

(** [read_bits_msb]: the loop body is run for [i = 0 .. nbits - 1]; [n] counts
    the iterations that remain. *)
Fixpoint read_bits_msb_loop (data : list Z) (total_bits bitpos : Z)
    (n : nat) (i val : Z) : result Z :=
  match n with
  | O => Ok val
  | S n' =>
      let p := u64 (bitpos + i) in
      bit <- (if p <? total_bits
              then b <- load data (Z.shiftr p 3) ;;
                   Ok (u8 (Z.land (Z.shiftr b (7 - Z.land p 7)) 1))
              else Ok 0) ;;
      read_bits_msb_loop data total_bits bitpos n' (i + 1)
        (u32 (Z.lor (Z.shiftl val 1) bit))
  end.

Definition read_bits_msb (data : list Z) (total_bits bitpos nbits : Z) : result Z :=
  read_bits_msb_loop data total_bits bitpos (Z.to_nat nbits) 0 0.

(** [read_bits_lsb]: [val] is a [size_t]; [bit << i] is computed on [int] and
    converted to [size_t] afterwards; the result is returned as [uint32_t]. *)
Fixpoint read_bits_lsb_loop (data : list Z) (total_bits bitpos : Z)
    (n : nat) (i val : Z) : result Z :=
  match n with
  | O => Ok val
  | S n' =>
      let p := u64 (bitpos + i) in
      bit <- (if p <? total_bits
              then let bidx := Z.shiftr p 3 in
                   let bit_in_byte := u8 (Z.land p 7) in
                   b <- load data bidx ;;
                   Ok (u8 (Z.land (Z.shiftr b bit_in_byte) 1))
              else Ok 0) ;;
      shifted <- int_shl bit i ;;
      read_bits_lsb_loop data total_bits bitpos n' (i + 1)
        (Z.lor val (u64 shifted))
  end.

Definition read_bits_lsb (data : list Z) (total_bits bitpos nbits : Z) : result Z :=
  val <- read_bits_lsb_loop data total_bits bitpos (Z.to_nat nbits) 0 0 ;;
  Ok (u32 val).

(** ** Pixel endianness (main.cpp, lines 61-75) *)

(** [(1ull << bpp) - 1ull] *)
Definition low_mask (bpp : Z) : result Z :=
  m <- u64_shl 1 bpp ;;
  Ok (u64 (m - 1)).

(** First loop: [bytes[i] = (pixel_val >> shift) & 0xFFu] with
    [shift = (nbytes - 1 - i) * 8]. *)
Fixpoint split_bytes_loop (pixel_val nbytes : Z) (n : nat) (i : Z)
    (bytes : list Z) : result (list Z) :=
  match n with
  | O => Ok bytes
  | S n' =>
      d <- int_sub (nbytes - 1) i ;;
      shift <- int_mul d 8 ;;
      v <- u64_shr pixel_val shift ;;
      bytes' <- store bytes i (u8 (Z.land v 255)) ;;
      split_bytes_loop pixel_val nbytes n' (i + 1) bytes'
  end.

(** Second loop: [out = (out << 8) | bytes[nbytes - 1 - i]]. *)
Fixpoint join_bytes_loop (bytes : list Z) (nbytes : Z) (n : nat) (i out : Z)
    : result Z :=
  match n with
  | O => Ok out
  | S n' =>
      b <- load bytes (nbytes - 1 - i) ;;
      join_bytes_loop bytes nbytes n' (i + 1) (Z.lor (u64 (Z.shiftl out 8)) b)
  end.

Definition adjust_endianness_pixel (pixel_val bpp : Z) (little_endian : bool)
    : result Z :=
  if negb little_endian || (bpp <=? 8) then
    mask <- (if bpp >=? 64 then Ok (u64 (-1)) else low_mask bpp) ;;
    Ok (Z.land pixel_val mask)
  else
    t <- int_add bpp 7 ;;
    let nbytes := u8 (Z.quot t 8) in
    bytes <- split_bytes_loop pixel_val nbytes (Z.to_nat nbytes) 0
               (repeat 0 8) ;;
    out <- join_bytes_loop bytes nbytes (Z.to_nat nbytes) 0 0 ;;
    mask <- low_mask bpp ;;
    Ok (Z.land out mask).

(** ** Presets and viewer state (main.cpp, lines 78-123) *)

Record Field : Type := { name : ascii; bits : Z }.

Record Preset : Type := {
  label : string;
  bpps : list Z;
  fields : list Field;
  lsb_order : bool
}.

Record ViewerState : Type := {
  data : list Z;
  filename : string;
  stofs : Z;
  width_px : Z;
  bpp : Z;
  bit_align : Z;
  preset_idx : Z;
  bit_order_msb : bool;
  byte_order_le : bool
}.

(** ** Scaler (main.cpp, lines 125-135) *)

Definition scale_to_8 (raw bits : Z) : result Z :=
  if bits =? 0 then Ok 0
  else if bits >=? 8 then
    if bits =? 8 then Ok (u8 (Z.land raw 255))
    else
      v <- u64_shr raw (bits - 8) ;;
      Ok (u8 (Z.land v 255))
  else
    m <- u64_shl 1 bits ;;
    let maxv := u64 (m - 1) in
    q <- u64_div (u64 (u64 (raw * 255) + maxv / 2)) maxv ;;
    Ok (u8 q).

(** ** Renderer (main.cpp, lines 138-203) *)

Record rgba : Type := { red : Z; green : Z; blue : Z; alpha : Z }.

(** The [switch (name)] of the field loop. *)
Definition assign_channel (c : ascii) (val8 : Z) (px : rgba) : rgba :=
  if Ascii.eqb c "r" then {| red := val8; green := green px; blue := blue px; alpha := alpha px |}
  else if Ascii.eqb c "g" then {| red := red px; green := val8; blue := blue px; alpha := alpha px |}
  else if Ascii.eqb c "b" then {| red := red px; green := green px; blue := val8; alpha := alpha px |}
  else if Ascii.eqb c "a" then {| red := red px; green := green px; blue := blue px; alpha := val8 |}
  else if Ascii.eqb c "y" then {| red := val8; green := val8; blue := val8; alpha := alpha px |}
  else {| red := 0; green := 0; blue := 0; alpha := alpha px |}.

(** The loop over [preset.fields]: [cur_shift] is the number of bits of the
    pixel word not consumed yet. *)
Fixpoint decode_fields (pixel_val : Z) (fs : list Field) (cur_shift : Z)
    (px : rgba) : result rgba :=
  match fs with
  | [] => Ok px
  | f :: fs' =>
      let use := Z.min (bits f) cur_shift in
      rawcomp <- (if (0 <? cur_shift) && (0 <? use)
                  then d <- int_sub cur_shift use ;;
                       v <- u64_shr pixel_val d ;;
                       mask <- low_mask use ;;
                       Ok (Z.land v mask)
                  else Ok 0) ;;
      cur_shift' <- int_sub cur_shift use ;;
      val8 <- scale_to_8 rawcomp (u8 use) ;;
      decode_fields pixel_val fs' cur_shift' (assign_channel (name f) val8 px)
  end.

(** [dst[0] = r; dst[1] = g; dst[2] = b; dst[3] = a] with [dst = &out[idx]]. *)
Definition store_pixel (out : list Z) (idx : Z) (px : rgba) : result (list Z) :=
  o0 <- store out idx (red px) ;;
  o1 <- store o0 (idx + 1) (green px) ;;
  o2 <- store o1 (idx + 2) (blue px) ;;
  store o2 (idx + 3) (alpha px).

(** [dst[0] = dst[1] = dst[2] = dst[3] = 0] *)
Definition clear_pixel (out : list Z) (idx : Z) : result (list Z) :=
  o3 <- store out (idx + 3) 0 ;;
  o2 <- store o3 (idx + 2) 0 ;;
  o1 <- store o2 (idx + 1) 0 ;;
  store o1 idx 0.

(** One pixel: read, adjust, decompose. *)
Definition decode_pixel (s : ViewerState) (preset : Preset)
    (total_bits bitpos : Z) : result rgba :=
  v <- (if bit_order_msb s
        then read_bits_msb (data s) total_bits bitpos (bpp s)
        else read_bits_lsb (data s) total_bits bitpos (bpp s)) ;;
  pixel_val <- adjust_endianness_pixel v (bpp s) (byte_order_le s) ;;
  decode_fields pixel_val (fields preset) (bpp s)
    {| red := 255; green := 255; blue := 255; alpha := 255 |}.

(** The loop over the linear pixel index [p]; [n] counts the iterations that
    remain, [bitpos] is the bit cursor and [out] the output vector. *)
Fixpoint render_loop (s : ViewerState) (preset : Preset)
    (total_bits pixels_available width : Z)
    (n : nat) (p bitpos : Z) (out : list Z) : result (list Z) :=
  match n with
  | O => Ok out
  | S n' =>
      let x := u32 (p mod u32 width) in
      let y := p / u32 width in
      let idx := u32 (u32 (u32 (y * u32 width) + x) * 4) in
      _ <- load out idx ;;
      if p >=? pixels_available then
        out' <- clear_pixel out idx ;;
        render_loop s preset total_bits pixels_available width
          n' (u32 (p + 1)) bitpos out'
      else
        px <- decode_pixel s preset total_bits bitpos ;;
        out' <- store_pixel out idx px ;;
        render_loop s preset total_bits pixels_available width
          n' (u32 (p + 1)) (u64 (bitpos + u64 (bpp s))) out'
  end.

(** [render_viewport] returns the output vector and [out_rows_rendered]. *)
Definition render_viewport (s : ViewerState) (preset : Preset) (rows : Z)
    : result (list Z * Z) :=
  let total_bits := u64 (Z.of_nat (length (data s)) * 8) in
  t <- int_mul (stofs s) 8 ;;
  sb <- int_add t (bit_align s) ;;
  let start_bit := u64 sb in
  if start_bit >=? total_bits then Ok ([], 0)
  else
    let width := Z.max 1 (width_px s) in
    pixels_to_render <- int_mul rows width ;;
    pixels_available <- u64_div (u64 (total_bits - start_bit)) (u64 (bpp s)) ;;
    if pixels_available =? 0 then Ok ([], 0)
    else
      let actual_pixels := Z.min (u32 pixels_to_render) (u32 pixels_available) in
      let rows_needed := u32 (u32 (actual_pixels + u32 width) - 1) / u32 width in
      let count := u32 (rows_needed * u32 width) in
      let out := repeat 0 (Z.to_nat (u32 (count * 4))) in
      out' <- render_loop s preset total_bits pixels_available width
                (Z.to_nat count) 0 start_bit out ;;
      Ok (out', rows_needed).

(** ** The built-in preset catalog (main.cpp, lines 86-110) *)

Definition field (c : ascii) (n : Z) : Field := {| name := c; bits := n |}.

Definition preset (l : string) (b : list Z) (fs : list Field) : Preset :=
  {| label := l; bpps := b; fields := fs; lsb_order := false |}.

Definition build_presets : list Preset :=
  [ preset "1-bit: Monochrome (MSB)" [1] [field "y" 1];
    preset "4-bit: Grayscale" [4] [field "y" 4];
    preset "4-bit: 2R-1G-1B" [4] [field "r" 2; field "g" 1; field "b" 1];
    preset "8-bit: Grayscale" [8] [field "y" 8];
    preset "8-bit: R3-G3-B2" [8] [field "r" 3; field "g" 3; field "b" 2];
    preset "8-bit: B3-G3-R2" [8] [field "b" 3; field "g" 3; field "r" 2];
    preset "8-bit: R2-G3-B3" [8] [field "r" 2; field "g" 3; field "b" 3];
    preset "8-bit: A2-R2-G2-B2" [8] [field "a" 2; field "r" 2; field "g" 2; field "b" 2];
    preset "8-bit: A1-R2-G3-B2" [8] [field "a" 1; field "r" 2; field "g" 3; field "b" 2];
    preset "16-bit: R5-G6-B5" [16] [field "r" 5; field "g" 6; field "b" 5];
    preset "16-bit: A1-R5-G5-B5" [16] [field "a" 1; field "r" 5; field "g" 5; field "b" 5];
    preset "16-bit: R4-G4-B4-A4" [16] [field "r" 4; field "g" 4; field "b" 4; field "a" 4];
    preset "16-bit: R3-G4-B3" [16] [field "r" 3; field "g" 4; field "b" 3];
    preset "16-bit: B3-G4-R3" [16] [field "b" 3; field "g" 4; field "r" 3];
    preset "16-bit: A1-R3-G3-B3" [16] [field "a" 1; field "r" 3; field "g" 3; field "b" 3];
    preset "24-bit: R-G-B" [24] [field "r" 8; field "g" 8; field "b" 8];
    preset "24-bit: B-G-R" [24] [field "b" 8; field "g" 8; field "r" 8];
    preset "32-bit: R-G-B-A" [32] [field "r" 8; field "g" 8; field "b" 8; field "a" 8];
    preset "32-bit: A-R-G-B" [32] [field "a" 8; field "r" 8; field "g" 8; field "b" 8];
    preset "32-bit: A-B-G-R" [32] [field "a" 8; field "b" 8; field "g" 8; field "r" 8];
    preset "32-bit: B-G-R-A" [32] [field "b" 8; field "g" 8; field "r" 8; field "a" 8] ].

(** The preset at an index of the catalog, with the default-constructed
    preset (no fields) out of range. *)
Definition preset_at (i : nat) : Preset := nth i build_presets (preset "" [] []).

(** A viewer state over a buffer, with the decode parameters given and the
    file name empty. *)
Definition viewer_state (d : list Z) (ofs width bits_pp align : Z)
    (msb le : bool) : ViewerState :=
  {| data := d; filename := ""; stofs := ofs; width_px := width;
     bpp := bits_pp; bit_align := align; preset_idx := 3;
     bit_order_msb := msb; byte_order_le := le |}.

(** ** The bit readers as the specification words them (section 4.1)

    The bit of the stream at absolute position [p], zero past the end of the
    buffer, and the value of a run of [n] bits written as a positional sum:
    under MSB_FIRST the first bit read has the largest weight, under
    LSB_FIRST the i-th bit read has weight [2^i]. *)

Definition spec_total_bits (buffer : list Z) : Z := Z.of_nat (length buffer) * 8.

Definition spec_bit_msb (buffer : list Z) (p : Z) : Z :=
  if p <? spec_total_bits buffer
  then Z.land (Z.shiftr (nth (Z.to_nat (p / 8)) buffer 0) (7 - p mod 8)) 1
  else 0.

Definition spec_bit_lsb (buffer : list Z) (p : Z) : Z :=
  if p <? spec_total_bits buffer
  then Z.land (Z.shiftr (nth (Z.to_nat (p / 8)) buffer 0) (p mod 8)) 1
  else 0.

Fixpoint spec_read_msb (buffer : list Z) (p : Z) (n : nat) : Z :=
  match n with
  | O => 0
  | S n' => spec_bit_msb buffer p * 2 ^ Z.of_nat n' + spec_read_msb buffer (p + 1) n'
  end.

Fixpoint spec_read_lsb (buffer : list Z) (p : Z) (n : nat) : Z :=
  match n with
  | O => 0
  | S n' => spec_bit_lsb buffer p + 2 * spec_read_lsb buffer (p + 1) n'
  end.

(** ** The windowing quantities of the renderer (section 4.5)

    The exact integers the specification names: the start bit, the clamped
    width and the number of whole pixels from the start bit to the end of the
    buffer. *)

Definition start_bit_of (s : ViewerState) : Z := stofs s * 8 + bit_align s.

Definition width_of (s : ViewerState) : Z := Z.max 1 (width_px s).

Definition pixels_available_of (s : ViewerState) : Z :=
  (spec_total_bits (data s) - start_bit_of s) / bpp s.

(** ** Calls whose every step is defined

    Conditions on a configuration, a preset and a row count under which no
    step of [render_viewport] is left without a meaning: the arithmetic on
    [int] stays in range, the readers shift within the width of [int], the
    unguarded mask of the little-endian adjustment is not taken at 64 bits,
    the field widths are shift counts of a 64-bit operand, and the output
    vector has fewer than [2^32] bytes. *)

Definition decodable (s : ViewerState) (preset : Preset) : Prop :=
  (bit_order_msb s = true \/ bpp s <= 32) /\
  (byte_order_le s = false \/ bpp s <= 63) /\
  Forall (fun f => 0 <= bits f <= 63) (fields preset).

Definition in_range_call (s : ViewerState) (rows : Z) : Prop :=
  is_int (stofs s * 8) /\
  is_int (start_bit_of s) /\
  is_int (width_px s) /\
  0 <= rows /\
  rows * width_of s < 2 ^ 30 /\
  spec_total_bits (data s) < 2 ^ 63.

(** Above 64 bits per pixel the steps are defined when the word is read
    MSB first and left in big-endian order, and the first field of the
    preset, if there is one, leaves fewer than 64 bits unconsumed. *)
Definition decodable_above_64 (s : ViewerState) (preset : Preset) : Prop :=
  bit_order_msb s = true /\
  byte_order_le s = false /\
  match fields preset with
  | [] => True
  | f :: fs =>
      bpp s - 63 <= bits f <= 63 /\ Forall (fun g => 0 <= bits g <= 63) fs
  end.

(** ** Saving and loading (main.cpp, lines 205-227) *)

(** [save_png]: the size guard, then the call of the PNG writer of the
    stb library, taken as a parameter; it returns 0 on failure. *)
Definition save_png
    (stbi_write_png : string -> Z -> Z -> Z -> list Z -> Z -> Z)
    (file : string) (w h : Z) (buf : list Z) : result bool :=
  wh <- int_mul w h ;;
  need <- int_mul wh 4 ;;
  if s32 (u64 (Z.of_nat (length buf))) <? need then Ok false
  else
    stride <- int_mul w 4 ;;
    let res := stbi_write_png file w h 4 buf stride in
    Ok (negb (res =? 0)).

(** What a stream that opens gives [load_file_into]: [tellg], the position
    reported at the end of the stream (-1 when it cannot be told, as for a
    directory); [allocated], whether a vector of that size can be
    allocated; [delivered], the bytes that [read] puts into the vector. *)
Record opened_file : Type := {
  tellg : Z;
  allocated : bool;
  delivered : list Z
}.

(** A regular file that holds [bytes] and is read in full. *)
Definition regular_file (bytes : list Z) : opened_file :=
  {| tellg := Z.of_nat (length bytes); allocated := true; delivered := bytes |}.

(** [load_file_into]: [file] is what opening [path] gives, [None] when the
    stream cannot be opened.  [sz] is converted to [size_t]; the vector
    constructor throws above [max_size = 2^63 - 1] and when the allocation
    fails, and nothing catches the exception.  The vector is filled with
    zeros, of which [read] overwrites as many as it delivers.  The state is
    returned with the function's result. *)
Definition load_file_into (S : ViewerState) (path : string)
    (file : option opened_file) : result (ViewerState * bool) :=
  if (String.length path =? 0)%nat then Ok (S, false)
  else
    match file with
    | None => Ok (S, false)
    | Some f =>
        let sz := u64 (tellg f) in
        if (sz >? 2 ^ 63 - 1) || negb (allocated f)
        then Undefined UncaughtException
        else
          let n := Z.to_nat sz in
          let got := firstn n (delivered f) in
          let tmp := got ++ repeat 0 (n - length got) in
          Ok ({| data := tmp; filename := path; stofs := 0;
                 width_px := width_px S; bpp := bpp S; bit_align := 0;
                 preset_idx := preset_idx S; bit_order_msb := bit_order_msb S;
                 byte_order_le := byte_order_le S |}, true)
    end.

(** ** Keyboard navigation (main.cpp, lines 322-400) *)

(** Assignments to one member of the viewer state. *)
Definition set_stofs (S : ViewerState) (v : Z) : ViewerState :=
  {| data := data S; filename := filename S; stofs := v;
     width_px := width_px S; bpp := bpp S; bit_align := bit_align S;
     preset_idx := preset_idx S; bit_order_msb := bit_order_msb S;
     byte_order_le := byte_order_le S |}.

Definition set_width_px (S : ViewerState) (v : Z) : ViewerState :=
  {| data := data S; filename := filename S; stofs := stofs S;
     width_px := v; bpp := bpp S; bit_align := bit_align S;
     preset_idx := preset_idx S; bit_order_msb := bit_order_msb S;
     byte_order_le := byte_order_le S |}.

Definition set_bpp (S : ViewerState) (v : Z) : ViewerState :=
  {| data := data S; filename := filename S; stofs := stofs S;
     width_px := width_px S; bpp := v; bit_align := bit_align S;
     preset_idx := preset_idx S; bit_order_msb := bit_order_msb S;
     byte_order_le := byte_order_le S |}.

Definition set_bit_align (S : ViewerState) (v : Z) : ViewerState :=
  {| data := data S; filename := filename S; stofs := stofs S;
     width_px := width_px S; bpp := bpp S; bit_align := v;
     preset_idx := preset_idx S; bit_order_msb := bit_order_msb S;
     byte_order_le := byte_order_le S |}.

Definition set_preset_idx (S : ViewerState) (v : Z) : ViewerState :=
  {| data := data S; filename := filename S; stofs := stofs S;
     width_px := width_px S; bpp := bpp S; bit_align := bit_align S;
     preset_idx := v; bit_order_msb := bit_order_msb S;
     byte_order_le := byte_order_le S |}.

(** The key codes the handler compares against; every other key is
    [SDLK_other]. *)
Inductive SDL_Keycode : Type :=
| SDLK_UP
| SDLK_DOWN
| SDLK_LEFT
| SDLK_RIGHT
| SDLK_PAGEUP
| SDLK_PAGEDOWN
| SDLK_other.

(** Signed 64-bit arithmetic of the PageDown branch. *)
Definition is_int64 (z : Z) : Prop := - 2 ^ 63 <= z <= 2 ^ 63 - 1.

Definition s64 (z : Z) : Z := (z + 2 ^ 63) mod 2 ^ 64 - 2 ^ 63.

Definition int64_result (z : Z) : result Z :=
  if (- 2 ^ 63 <=? z) && (z <=? 2 ^ 63 - 1) then Ok z
  else Undefined SignedOverflow.

(** [static_cast<size_t>(S.stofs + S.width_px * 16) >= S.data.size() - 16],
    the test that keeps the forward moves from running off the buffer. *)
Definition scroll_blocked (S : ViewerState) : result bool :=
  w16 <- int_mul (width_px S) 16 ;;
  t <- int_add (stofs S) w16 ;;
  Ok (u64 t >=? u64 (Z.of_nat (length (data S)) - 16)).

(** [constexpr int choices[]{1,4,8,16,24,32}] and the search
    [while (i < 4 && choices[i] != S.bpp) ++i]; [n] bounds the iterations,
    the loop leaves by its own test within five of them. *)
Definition bpp_choices : list Z := [1; 4; 8; 16; 24; 32].

Fixpoint bpp_search (bpp_now : Z) (n : nat) (i : Z) : Z :=
  match n with
  | O => i
  | S n' =>
      if (i <? 4) && negb (nth (Z.to_nat i) bpp_choices 0 =? bpp_now)
      then bpp_search bpp_now n' (i + 1)
      else i
  end.

(** [i = (i + step) % 4; S.bpp = choices[i]] with [step] 1 or 3. *)
Definition cycle_bpp (step bpp_now : Z) : Z :=
  let i := bpp_search bpp_now 5 0 in
  nth (Z.to_nat (Z.rem (i + step) 4)) bpp_choices 0.

(** [page_bits]: two thirds of the bits of the visible window, [win_h] being
    the window height that [SDL_GetWindowSize] reports. *)
Definition page_bits (S : ViewerState) (win_h : Z) : result Z :=
  let visible_rows := Z.max 1 win_h in
  visible_pixels <- int_mul (width_px S) visible_rows ;;
  visible_bits <- int_mul visible_pixels (bpp S) ;;
  doubled <- int_mul visible_bits 2 ;;
  Ok (Z.quot doubled 3).

(** The body of the [SDL_KEYDOWN] branch.  [KMOD_SHIFT] and [KMOD_ALT] are
    the modifier masks of the SDL headers, [kmod] the modifier state of the
    event and [k] its key code. *)
Definition key_down (KMOD_SHIFT KMOD_ALT : Z) (S : ViewerState)
    (k : SDL_Keycode) (kmod win_h : Z) : result ViewerState :=
  if negb (Z.land kmod KMOD_SHIFT =? 0) then
    match k with
    | SDLK_UP =>
        if stofs S >? width_px S
        then v <- int_sub (stofs S) (width_px S) ;; Ok (set_stofs S v)
        else Ok (set_stofs S 0)
    | SDLK_DOWN =>
        blocked <- scroll_blocked S ;;
        if blocked then Ok (set_stofs S (stofs S))
        else v <- int_add (stofs S) (width_px S) ;; Ok (set_stofs S v)
    | SDLK_LEFT =>
        if stofs S >? 0
        then v <- int_sub (stofs S) 1 ;; Ok (set_stofs S v)
        else Ok (set_stofs S 0)
    | SDLK_RIGHT =>
        blocked <- scroll_blocked S ;;
        if blocked then Ok (set_stofs S (stofs S))
        else v <- int_add (stofs S) 1 ;; Ok (set_stofs S v)
    | _ => Ok S
    end
  else if negb (Z.land kmod KMOD_ALT =? 0) then
    match k with
    | SDLK_UP => Ok (set_bpp S (cycle_bpp 1 (bpp S)))
    | SDLK_DOWN => Ok (set_bpp S (cycle_bpp 3 (bpp S)))
    | SDLK_LEFT =>
        v <- int_sub (bit_align S) 1 ;;
        Ok (set_bit_align S (Z.max (u8 0) (u8 v)))
    | SDLK_RIGHT =>
        v <- int_add (bit_align S) 1 ;;
        Ok (set_bit_align S (Z.min (u8 7) (u8 v)))
    | _ => Ok S
    end
  else
    match k with
    | SDLK_LEFT =>
        v <- int_sub (width_px S) 1 ;;
        Ok (set_width_px S (Z.max 1 v))
    | SDLK_RIGHT =>
        v <- int_add (width_px S) 1 ;;
        Ok (set_width_px S v)
    | SDLK_UP =>
        w16 <- int_mul (width_px S) 16 ;;
        if stofs S >? w16
        then v <- int_sub (stofs S) w16 ;; Ok (set_stofs S v)
        else Ok (set_stofs S 0)
    | SDLK_DOWN =>
        blocked <- scroll_blocked S ;;
        if blocked then Ok (set_stofs S (stofs S))
        else
          w16 <- int_mul (width_px S) 16 ;;
          v <- int_add (stofs S) w16 ;;
          Ok (set_stofs S v)
    | SDLK_PAGEUP =>
        pb <- page_bits S win_h ;;
        t <- int_mul (stofs S) 8 ;;
        start_bit <- int_add t (bit_align S) ;;
        d <- int_sub start_bit pb ;;
        let nstart := if d <? 0 then 0 else d in
        Ok (set_bit_align (set_stofs S (Z.quot nstart 8)) (Z.rem nstart 8))
    | SDLK_PAGEDOWN =>
        pb <- page_bits S win_h ;;
        t <- int_mul (stofs S) 8 ;;
        start_bit <- int_add t (bit_align S) ;;
        moved <- int_add start_bit pb ;;
        total_bits <- int64_result (s64 (u64 (Z.of_nat (length (data S)))) * 8) ;;
        last <- int64_result (total_bits - bpp S) ;;
        let nstart := if moved >? last then Z.max 0 last else moved in
        Ok (set_bit_align (set_stofs S (s32 (Z.quot nstart 8)))
              (u8 (Z.rem nstart 8)))
    | SDLK_other => Ok S
    end.

(** ** Controls and preset selection (main.cpp, lines 444-470) *)

(** What the widgets of one frame do to the values they are bound to: each
    [ImGui::InputInt] leaves an [int] in its variable, each button reports
    whether it was pressed. *)
Record Widgets : Type := {
  input_width : Z -> Z;
  input_stofs : Z -> Z;
  input_bit_align : Z -> Z;
  input_bpp : Z -> Z;
  button_1bpp : bool;
  button_4bpp : bool;
  button_8bpp : bool;
  button_16bpp : bool
}.

(** The numeric controls with their clamps, in the order of the source. *)
Definition controls (ui : Widgets) (S : ViewerState) : ViewerState :=
  let w := input_width ui (width_px S) in
  let S1 := set_width_px S (if w <? 1 then 1 else w) in
  let S2 := set_stofs S1 (input_stofs ui (stofs S1)) in
  let a := input_bit_align ui (bit_align S2) in
  let a1 := if a <? 0 then 0 else a in
  let S3 := set_bit_align S2 (if a1 >? 7 then 7 else a1) in
  let S4 := set_bpp S3 (input_bpp ui (bpp S3)) in
  let S5 := if button_1bpp ui then set_bpp S4 1 else S4 in
  let S6 := if button_4bpp ui then set_bpp S5 4 else S5 in
  let S7 := if button_8bpp ui then set_bpp S6 8 else S6 in
  if button_16bpp ui then set_bpp S7 16 else S7.

(** [for (const auto &f : presets[i].fields) total_bits += f.bits] *)
Fixpoint sum_field_bits (fs : list Field) (total : Z) : result Z :=
  match fs with
  | [] => Ok total
  | f :: fs' => t <- int_add total (bits f) ;; sum_field_bits fs' t
  end.

(** The body run when the selectable of preset [i] is clicked. *)
Definition select_preset (presets : list Preset) (S : ViewerState) (i : nat)
    : result ViewerState :=
  let S1 := set_preset_idx S (Z.of_nat i) in
  total <- sum_field_bits (fields (nth i presets (preset "" [] []))) 0 ;;
  if total >? 0 then Ok (set_bpp S1 total) else Ok S1.

(** The four channels of a pixel as bytes. *)
Definition byte_channels (c : rgba) : Prop :=
  0 <= red c <= 255 /\ 0 <= green c <= 255 /\ 0 <= blue c <= 255 /\
  0 <= alpha c <= 255.

(** A frame in which no control is touched, and one in which only the
    "Bits per pixel" box is edited, to the value [v]. *)
Definition untouched : Widgets :=
  {| input_width := fun v => v; input_stofs := fun v => v;
     input_bit_align := fun v => v; input_bpp := fun v => v;
     button_1bpp := false; button_4bpp := false;
     button_8bpp := false; button_16bpp := false |}.

Definition bpp_typed (v : Z) : Widgets :=
  {| input_width := fun w => w; input_stofs := fun o => o;
     input_bit_align := fun a => a; input_bpp := fun _ => v;
     button_1bpp := false; button_4bpp := false;
     button_8bpp := false; button_16bpp := false |}.

(** The two order checkboxes (main.cpp, lines 474-475). *)
Definition set_orders (S : ViewerState) (msb le : bool) : ViewerState :=
  {| data := data S; filename := filename S; stofs := stofs S;
     width_px := width_px S; bpp := bpp S; bit_align := bit_align S;
     preset_idx := preset_idx S; bit_order_msb := msb; byte_order_le := le |}.

(** The value of a byte sequence as a big-endian and as a little-endian
    integer. *)
Fixpoint be_value (l : list Z) : Z :=
  match l with
  | [] => 0
  | b :: t => b * 256 ^ Z.of_nat (length t) + be_value t
  end.

Fixpoint le_value (l : list Z) : Z :=
  match l with
  | [] => 0
  | b :: t => b + 256 * le_value t
  end.

(** ** One iteration of the main loop (main.cpp, lines 303-516) *)

(** What one frame receives from outside: the key presses that reach the
    handler with their modifier state, the window height, the widgets of
    the controls, the presets whose selectable reports a click, the two
    order checkboxes, the "Center start" button, the pending load request
    with what opening its path gives, and the height of the image area
    as an [int]. *)
Record Frame : Type := {
  key_events : list (SDL_Keycode * Z);
  window_h : Z;
  widgets : Widgets;
  preset_clicked : nat -> bool;
  checkbox_msb : bool -> bool;
  checkbox_le : bool -> bool;
  center_pressed : bool;
  load_request : option (string * option opened_file);
  avail_h : Z
}.

(** The event loop, for the key presses. *)
Fixpoint key_events_loop (KMOD_SHIFT KMOD_ALT : Z) (S : ViewerState)
    (events : list (SDL_Keycode * Z)) (win_h : Z) : result ViewerState :=
  match events with
  | [] => Ok S
  | (k, kmod) :: rest =>
      S' <- key_down KMOD_SHIFT KMOD_ALT S k kmod win_h ;;
      key_events_loop KMOD_SHIFT KMOD_ALT S' rest win_h
  end.

(** The loop over the preset selectables; [n] counts the presets that
    remain. *)
Fixpoint select_loop (presets : list Preset) (clicked : nat -> bool)
    (S : ViewerState) (i n : nat) : result ViewerState :=
  match n with
  | O => Ok S
  | Datatypes.S n' =>
      S' <- (if clicked i then select_preset presets S i else Ok S) ;;
      select_loop presets clicked S' (Datatypes.S i) n'
  end.

(** The state that the frame hands to [render_viewport]. *)
Definition frame_state (KMOD_SHIFT KMOD_ALT : Z) (presets : list Preset)
    (f : Frame) (S : ViewerState) : result ViewerState :=
  S1 <- key_events_loop KMOD_SHIFT KMOD_ALT S (key_events f) (window_h f) ;;
  let S2 := controls (widgets f) S1 in
  S3 <- select_loop presets (preset_clicked f) S2 0 (length presets) ;;
  let S4 := set_orders S3 (checkbox_msb f (bit_order_msb S3))
              (checkbox_le f (byte_order_le S3)) in
  let S5 := if center_pressed f then set_bit_align (set_stofs S4 0) 0 else S4 in
  match load_request f with
  | Some (path, file) =>
      loaded <- load_file_into S5 path file ;;
      Ok (fst loaded)
  | None => Ok S5
  end.

(** The frame up to the rendered raster: [presets[S.preset_idx]] is an
    access to a vector, [rows] is the height of the image area, 64 when that
    is below 1. *)
Definition frame_render (KMOD_SHIFT KMOD_ALT : Z) (presets : list Preset)
    (f : Frame) (S : ViewerState) : result (ViewerState * (list Z * Z)) :=
  S' <- frame_state KMOD_SHIFT KMOD_ALT presets f S ;;
  let rows := if avail_h f <? 1 then 64 else avail_h f in
  preset <- (if (0 <=? preset_idx S') && (preset_idx S' <? Z.of_nat (length presets))
             then Ok (nth (Z.to_nat (preset_idx S')) presets (preset "" [] []))
             else Undefined OutOfBounds) ;;
  out <- render_viewport S' preset rows ;;
  Ok (S', out).

(** A frame in which nothing is pressed, typed or clicked. *)
Definition idle_frame (h : Z) : Frame :=
  {| key_events := []; window_h := h; widgets := untouched;
     preset_clicked := fun _ => false;
     checkbox_msb := fun b => b; checkbox_le := fun b => b;
     center_pressed := false; load_request := None; avail_h := h |}.

(** ** Saving under a fresh name (main.cpp, lines 547-563) *)

(** [std::format("rawviewer{:03}.png", outc)]: the decimal digits of [outc],
    padded with zeros after the sign to a width of 3. *)
Fixpoint zeros (n : nat) : string :=
  match n with
  | O => EmptyString
  | Datatypes.S n' => String "0" (zeros n')
  end.

Definition format_03 (n : Z) : string :=
  let sign := if n <? 0 then "-"%string else ""%string in
  let digits := NilZero.string_of_int (Z.to_int (Z.abs n)) in
  (sign ++ zeros (3 - String.length sign - String.length digits) ++ digits)%string.

Definition png_name (outc : Z) : string :=
  ("rawviewer" ++ format_03 outc ++ ".png")%string.

(** The loop [while (save_requested && outc++ < 999)].  [file_exists] is
    [filesystem::exists], [save] is the call of [save_png] on the raster of
    the frame; the names handed to [save] are collected in [attempts].  [n]
    bounds the iterations; [None] is returned if the bound is reached. *)
Fixpoint save_loop (n : nat) (file_exists : string -> bool)
    (save : string -> result bool) (save_requested : bool) (outc : Z)
    (attempts : list string) : result (option (bool * list string)) :=
  match n with
  | O => Ok None
  | Datatypes.S n' =>
      if save_requested then
        next <- int_add outc 1 ;;
        if outc <? 999 then
          let outname := png_name next in
          if file_exists outname
          then save_loop n' file_exists save true next attempts
          else
            saved <- save outname ;;
            save_loop n' file_exists save (negb saved) next (attempts ++ [outname])
        else Ok (Some (true, attempts))
      else Ok (Some (false, attempts))
  end.

(** The block run at the end of a frame: whether a file was written, and
    the names that were handed to [save_png]. *)
Definition save_visible (file_exists : string -> bool)
    (save : string -> result bool) (save_requested : bool) (rows_rendered : Z)
    : result (option (bool * list string)) :=
  if save_requested && (rows_rendered >? 0) then
    r <- save_loop 1001 file_exists save true (-1) [] ;;
    Ok (match r with
        | Some (still_requested, attempts) => Some (negb still_requested, attempts)
        | None => None
        end)
  else Ok (Some (false, [])).

(** * Properties *)

(** ** The result monad *)

Lemma bind_Ok {A B : Type} (m : result A) (k : A -> result B) (b : B) :
  bind m k = Ok b -> exists a, m = Ok a /\ k a = Ok b.
Proof.
  destruct m as [a|why]; simpl; intros H; [eauto | discriminate].
Qed.

Ltac bind_inv H :=
  let a := fresh "a" in
  let Ha := fresh "Ha" in
  apply bind_Ok in H; destruct H as (a & Ha & H).

(** A closed comparison, range or equation, settled by evaluation. *)
Ltac by_evaluation :=
  vm_compute;
  repeat match goal with |- _ /\ _ => split end;
  first [ reflexivity | discriminate | (intro; discriminate) ].

(** ** Machine arithmetic *)

Lemma u8_small z : 0 <= z < 2 ^ 8 -> u8 z = z.
Proof. intros; unfold u8; now apply Z.mod_small. Qed.

Lemma u32_small z : 0 <= z < 2 ^ 32 -> u32 z = z.
Proof. intros; unfold u32; now apply Z.mod_small. Qed.

Lemma u64_small z : 0 <= z < 2 ^ 64 -> u64 z = z.
Proof. intros; unfold u64; now apply Z.mod_small. Qed.

Lemma u32_range z : 0 <= u32 z < 2 ^ 32.
Proof. unfold u32; apply Z.mod_pos_bound; lia. Qed.

Lemma u8_range z : 0 <= u8 z < 2 ^ 8.
Proof. unfold u8; apply Z.mod_pos_bound; lia. Qed.

Lemma int_result_Ok z : is_int z -> int_result z = Ok z.
Proof.
  unfold is_int, int_result, fits_int; intros [H1 H2].
  apply Z.leb_le in H1; apply Z.leb_le in H2; now rewrite H1, H2.
Qed.

Lemma int_result_inv z r : int_result z = Ok r -> r = z /\ is_int z.
Proof.
  unfold int_result, fits_int, is_int.
  destruct (INT_MIN <=? z) eqn:H1; destruct (z <=? INT_MAX) eqn:H2;
    simpl; intros H; inversion H; subst.
  apply Z.leb_le in H1; apply Z.leb_le in H2; auto.
Qed.

Lemma land_1_bit z : 0 <= Z.land z 1 <= 1.
Proof.
  change 1 with (Z.ones 1) at 1 2. rewrite Z.land_ones by lia.
  pose proof (Z.mod_pos_bound z (2 ^ 1)); lia.
Qed.

Lemma land_7_mod z : Z.land z 7 = z mod 8.
Proof. change 7 with (Z.ones 3); now rewrite Z.land_ones by lia. Qed.

Lemma shiftr_3_div z : Z.shiftr z 3 = z / 8.
Proof. now rewrite Z.shiftr_div_pow2 by lia. Qed.

Lemma lor_shiftl_1_bit v b : 0 <= v -> 0 <= b <= 1 -> Z.lor (Z.shiftl v 1) b = 2 * v + b.
Proof.
  intros Hv Hb. rewrite Z.shiftl_mul_pow2 by lia. change (2 ^ 1) with 2.
  rewrite (Z.mul_comm v 2).
  assert (b = 0 \/ b = 1) as [-> | ->] by lia.
  - rewrite Z.lor_0_r; lia.
  - destruct v as [|q|q]; try lia; reflexivity.
Qed.

Lemma u32_land z : u32 z = Z.land z (Z.ones 32).
Proof. unfold u32; now rewrite Z.land_ones by lia. Qed.

Lemma u32_lor a b : u32 (Z.lor a b) = Z.lor (u32 a) (u32 b).
Proof. rewrite !u32_land; apply Z.land_lor_distr_l. Qed.

Lemma u32_u64 z : u32 (u64 z) = u32 z.
Proof.
  unfold u32, u64. apply Z.mod_mod_divide.
  exists (2 ^ 32). reflexivity.
Qed.

Lemma u32_s32 z : u32 (s32 z) = u32 z.
Proof.
  unfold u32, s32.
  rewrite Zminus_mod_idemp_l.
  f_equal; lia.
Qed.

Lemma land_low_high a b i :
  0 <= i -> 0 <= a < 2 ^ i -> Z.land a (b * 2 ^ i) = 0.
Proof.
  intros Hi Ha. apply Z.bits_inj'; intros n Hn.
  rewrite Z.land_spec, Z.bits_0.
  destruct (Z.lt_ge_cases n i) as [Hlt|Hge].
  - rewrite Z.mul_pow2_bits_low by lia. apply andb_false_r.
  - rewrite <- (Z.mod_small a (2 ^ i)) by lia.
    rewrite Z.mod_pow2_bits_high by lia. reflexivity.
Qed.

Lemma lor_low_high a b i :
  0 <= i -> 0 <= a < 2 ^ i -> Z.lor a (b * 2 ^ i) = a + b * 2 ^ i.
Proof.
  intros Hi Ha. pose proof (Z.add_lor_land a (b * 2 ^ i)) as H.
  rewrite land_low_high in H by assumption. lia.
Qed.

Lemma int_shl_Ok a n : 0 <= n < 32 -> int_shl a n = Ok (s32 (Z.shiftl a n)).
Proof.
  intros [H1 H2]; unfold int_shl.
  apply Z.leb_le in H1; apply Z.ltb_lt in H2; now rewrite H1, H2.
Qed.

Lemma u64_shl_Ok a n : 0 <= n < 64 -> u64_shl a n = Ok (u64 (Z.shiftl a n)).
Proof.
  intros [H1 H2]; unfold u64_shl.
  apply Z.leb_le in H1; apply Z.ltb_lt in H2; now rewrite H1, H2.
Qed.

Lemma u64_shr_Ok a n : 0 <= n < 64 -> u64_shr a n = Ok (Z.shiftr a n).
Proof.
  intros [H1 H2]; unfold u64_shr.
  apply Z.leb_le in H1; apply Z.ltb_lt in H2; now rewrite H1, H2.
Qed.

Lemma u64_div_Ok a b : b <> 0 -> u64_div a b = Ok (a / b).
Proof.
  intros H; unfold u64_div. destruct (Z.eqb_spec b 0); [contradiction | reflexivity].
Qed.

Lemma u64_div_inv a b q : u64_div a b = Ok q -> b <> 0 /\ q = a / b.
Proof.
  unfold u64_div. destruct (Z.eqb_spec b 0); intros E; inversion E; auto.
Qed.

Lemma pow2_le_mono a b : 0 <= a <= b -> 0 < 2 ^ a <= 2 ^ b.
Proof.
  intros H; split; [apply Z.pow_pos_nonneg; lia | apply Z.pow_le_mono_r; lia].
Qed.

Lemma low_mask_Ok n : 0 <= n < 64 -> low_mask n = Ok (2 ^ n - 1).
Proof.
  intros H; unfold low_mask. rewrite u64_shl_Ok by lia. cbn [bind].
  rewrite Z.shiftl_1_l.
  pose proof (pow2_le_mono n 63 ltac:(lia)).
  rewrite (u64_small (2 ^ n)) by lia. rewrite u64_small by lia. reflexivity.
Qed.

(** ** Vectors written by index *)

Lemma load_Ok (v : list Z) (i : Z) :
  0 <= i < Z.of_nat (length v) -> load v i = Ok (nth (Z.to_nat i) v 0).
Proof.
  intros [H1 H2]; unfold load.
  apply Z.leb_le in H1; apply Z.ltb_lt in H2; now rewrite H1, H2.
Qed.

Lemma load_nth_error v i x :
  0 <= i -> nth_error v (Z.to_nat i) = Some x -> load v i = Ok x.
Proof.
  intros Hi Hnth.
  assert (Hlt : (Z.to_nat i < length v)%nat)
    by (apply nth_error_Some; congruence).
  rewrite load_Ok by lia. f_equal. now apply nth_error_nth.
Qed.

Lemma update_length v : forall i x, length (update v i x) = length v.
Proof.
  induction v as [|h t IH]; intros [|j] x; simpl; auto.
Qed.

Lemma nth_error_update_same v : forall i x,
  (i < length v)%nat -> nth_error (update v i x) i = Some x.
Proof.
  induction v as [|h t IH]; intros [|j] x H; simpl in *; try lia; auto.
  apply IH; lia.
Qed.

Lemma nth_error_update_other v : forall i j x,
  i <> j -> nth_error (update v i x) j = nth_error v j.
Proof.
  induction v as [|h t IH]; intros [|i] [|j] x H; simpl; auto; try congruence.
Qed.

Lemma store_inv v i x v' :
  store v i x = Ok v' ->
  0 <= i < Z.of_nat (length v) /\ v' = update v (Z.to_nat i) x.
Proof.
  unfold store.
  destruct (Z.leb_spec 0 i); destruct (Z.ltb_spec i (Z.of_nat (length v)));
    simpl; intros E; inversion E; auto.
Qed.

Lemma store_Ok v i x :
  0 <= i < Z.of_nat (length v) -> store v i x = Ok (update v (Z.to_nat i) x).
Proof.
  intros [H1 H2]; unfold store.
  apply Z.leb_le in H1; apply Z.ltb_lt in H2; now rewrite H1, H2.
Qed.

(** What one store leaves behind: the length, the cell written and the
    other cells. *)
Lemma store_effect v i x v' :
  store v i x = Ok v' ->
  0 <= i < Z.of_nat (length v) /\
  length v' = length v /\
  nth_error v' (Z.to_nat i) = Some x /\
  (forall k, 0 <= k -> k <> i -> nth_error v' (Z.to_nat k) = nth_error v (Z.to_nat k)).
Proof.
  intros H. apply store_inv in H. destruct H as [Hi ->].
  repeat split; try lia.
  - apply update_length.
  - apply nth_error_update_same; lia.
  - intros k Hk Hne. apply nth_error_update_other; lia.
Qed.

Lemma store_pixel_effect out idx px out' :
  store_pixel out idx px = Ok out' ->
  0 <= idx /\ idx + 3 < Z.of_nat (length out) /\
  length out' = length out /\
  (forall k, 0 <= k -> k < idx \/ idx + 3 < k ->
     nth_error out' (Z.to_nat k) = nth_error out (Z.to_nat k)).
Proof.
  unfold store_pixel; intros H.
  bind_inv H. bind_inv H. bind_inv H.
  apply store_effect in Ha; destruct Ha as (B0 & L0 & _ & F0).
  apply store_effect in Ha0; destruct Ha0 as (B1 & L1 & _ & F1).
  apply store_effect in Ha1; destruct Ha1 as (B2 & L2 & _ & F2).
  apply store_effect in H; destruct H as (B3 & L3 & _ & F3).
  repeat split; try lia.
  intros k Hk Hout.
  rewrite F3, F2, F1, F0 by lia. reflexivity.
Qed.

Lemma store_pixel_values out idx px out' :
  store_pixel out idx px = Ok out' ->
  nth_error out' (Z.to_nat idx) = Some (red px) /\
  nth_error out' (Z.to_nat (idx + 1)) = Some (green px) /\
  nth_error out' (Z.to_nat (idx + 2)) = Some (blue px) /\
  nth_error out' (Z.to_nat (idx + 3)) = Some (alpha px).
Proof.
  unfold store_pixel; intros H.
  bind_inv H. bind_inv H. bind_inv H.
  apply store_effect in Ha; destruct Ha as (B0 & L0 & V0 & F0).
  apply store_effect in Ha0; destruct Ha0 as (B1 & L1 & V1 & F1).
  apply store_effect in Ha1; destruct Ha1 as (B2 & L2 & V2 & F2).
  apply store_effect in H; destruct H as (B3 & L3 & V3 & F3).
  repeat split.
  - rewrite F3, F2, F1 by lia. exact V0.
  - rewrite F3, F2 by lia. exact V1.
  - rewrite F3 by lia. exact V2.
  - exact V3.
Qed.

Lemma clear_pixel_effect out idx out' :
  clear_pixel out idx = Ok out' ->
  0 <= idx /\ idx + 3 < Z.of_nat (length out) /\
  length out' = length out /\
  (forall k, 0 <= k -> k < idx \/ idx + 3 < k ->
     nth_error out' (Z.to_nat k) = nth_error out (Z.to_nat k)) /\
  (forall j, 0 <= j < 4 -> nth_error out' (Z.to_nat (idx + j)) = Some 0).
Proof.
  unfold clear_pixel; intros H.
  bind_inv H. bind_inv H. bind_inv H.
  apply store_effect in Ha; destruct Ha as (B3 & L3 & V3 & F3).
  apply store_effect in Ha0; destruct Ha0 as (B2 & L2 & V2 & F2).
  apply store_effect in Ha1; destruct Ha1 as (B1 & L1 & V1 & F1).
  apply store_effect in H; destruct H as (B0 & L0 & V0 & F0).
  repeat split; try lia.
  - intros k Hk Hout.
    rewrite F0, F1, F2, F3 by lia. reflexivity.
  - intros j Hj.
    assert (j = 0 \/ j = 1 \/ j = 2 \/ j = 3) as [-> | [-> | [-> | ->]]] by lia.
    + rewrite Z.add_0_r. exact V0.
    + rewrite F0 by lia. exact V1.
    + rewrite F0, F1 by lia. exact V2.
    + rewrite F0, F1, F2 by lia. exact V3.
Qed.

Lemma store_pixel_Ok out idx px :
  0 <= idx -> idx + 3 < Z.of_nat (length out) ->
  exists out', store_pixel out idx px = Ok out' /\ length out' = length out.
Proof.
  intros Hlo Hhi. unfold store_pixel.
  rewrite store_Ok by lia. cbn [bind].
  rewrite store_Ok by (rewrite update_length; lia). cbn [bind].
  rewrite store_Ok by (rewrite !update_length; lia). cbn [bind].
  rewrite store_Ok by (rewrite !update_length; lia).
  eexists; split; [reflexivity|]. now rewrite !update_length.
Qed.

Lemma clear_pixel_Ok out idx :
  0 <= idx -> idx + 3 < Z.of_nat (length out) ->
  exists out', clear_pixel out idx = Ok out' /\ length out' = length out.
Proof.
  intros Hlo Hhi. unfold clear_pixel.
  rewrite store_Ok by lia. cbn [bind].
  rewrite store_Ok by (rewrite update_length; lia). cbn [bind].
  rewrite store_Ok by (rewrite !update_length; lia). cbn [bind].
  rewrite store_Ok by (rewrite !update_length; lia).
  eexists; split; [reflexivity|]. now rewrite !update_length.
Qed.

(** ** Bit readers against their positional specification *)

Section Readers.

Variable data : list Z.

Lemma spec_bit_msb_range p : 0 <= spec_bit_msb data p <= 1.
Proof.
  unfold spec_bit_msb. destruct (p <? spec_total_bits data); [apply land_1_bit | lia].
Qed.

Lemma spec_bit_lsb_range p : 0 <= spec_bit_lsb data p <= 1.
Proof.
  unfold spec_bit_lsb. destruct (p <? spec_total_bits data); [apply land_1_bit | lia].
Qed.

Lemma spec_bit_msb_past_end p : spec_total_bits data <= p -> spec_bit_msb data p = 0.
Proof.
  unfold spec_bit_msb; intros H.
  destruct (Z.ltb_spec p (spec_total_bits data)); [lia | reflexivity].
Qed.

Lemma spec_bit_lsb_past_end p : spec_total_bits data <= p -> spec_bit_lsb data p = 0.
Proof.
  unfold spec_bit_lsb; intros H.
  destruct (Z.ltb_spec p (spec_total_bits data)); [lia | reflexivity].
Qed.

Lemma byte_index_in_range p :
  0 <= p < spec_total_bits data -> 0 <= p / 8 < Z.of_nat (length data).
Proof.
  unfold spec_total_bits; intros [H1 H2]; split.
  - apply Z.div_pos; lia.
  - apply Z.div_lt_upper_bound; lia.
Qed.

(** The guarded fetch of [read_bits_msb] is the specification's bit. *)
Lemma fetch_msb p :
  0 <= p ->
  (if p <? spec_total_bits data
   then b <- load data (Z.shiftr p 3) ;;
        Ok (u8 (Z.land (Z.shiftr b (7 - Z.land p 7)) 1))
   else Ok 0) = Ok (spec_bit_msb data p).
Proof.
  intros Hp. unfold spec_bit_msb.
  destruct (Z.ltb_spec p (spec_total_bits data)) as [Hlt|Hge]; [|reflexivity].
  rewrite shiftr_3_div, land_7_mod.
  rewrite load_Ok by (apply byte_index_in_range; lia). cbn [bind].
  rewrite u8_small; [reflexivity|].
  pose proof (land_1_bit (Z.shiftr (nth (Z.to_nat (p / 8)) data 0) (7 - p mod 8))); lia.
Qed.

(** The guarded fetch of [read_bits_lsb]. *)
Lemma fetch_lsb p :
  0 <= p ->
  (if p <? spec_total_bits data
   then let bidx := Z.shiftr p 3 in
        let bit_in_byte := u8 (Z.land p 7) in
        b <- load data bidx ;;
        Ok (u8 (Z.land (Z.shiftr b bit_in_byte) 1))
   else Ok 0) = Ok (spec_bit_lsb data p).
Proof.
  intros Hp. unfold spec_bit_lsb.
  destruct (Z.ltb_spec p (spec_total_bits data)) as [Hlt|Hge]; [|reflexivity].
  cbv zeta. rewrite shiftr_3_div, land_7_mod.
  rewrite load_Ok by (apply byte_index_in_range; lia). cbn [bind].
  rewrite (u8_small (p mod 8)) by (pose proof (Z.mod_pos_bound p 8); lia).
  rewrite u8_small; [reflexivity|].
  pose proof (land_1_bit (Z.shiftr (nth (Z.to_nat (p / 8)) data 0) (p mod 8))); lia.
Qed.

Lemma spec_read_msb_range n p : 0 <= spec_read_msb data p n < 2 ^ Z.of_nat n.
Proof.
  revert p; induction n as [|n IH]; intros p.
  - simpl; lia.
  - cbn [spec_read_msb]. pose proof (spec_bit_msb_range p). specialize (IH (p + 1)).
    rewrite Nat2Z.inj_succ, Z.pow_succ_r by lia. nia.
Qed.

Lemma spec_read_lsb_range n p : 0 <= spec_read_lsb data p n < 2 ^ Z.of_nat n.
Proof.
  revert p; induction n as [|n IH]; intros p.
  - simpl; lia.
  - cbn [spec_read_lsb]. pose proof (spec_bit_lsb_range p). specialize (IH (p + 1)).
    rewrite Nat2Z.inj_succ, Z.pow_succ_r by lia. lia.
Qed.

(** [read_bits_msb] keeps the low 32 bits of the positional value, for a
    run of any length. *)
Lemma read_bits_msb_loop_spec bitpos n :
  forall i val,
    0 <= val < 2 ^ 32 ->
    0 <= bitpos + i ->
    bitpos + i + Z.of_nat n <= 2 ^ 64 ->
    read_bits_msb_loop data (spec_total_bits data) bitpos n i val =
    Ok (u32 (val * 2 ^ Z.of_nat n + spec_read_msb data (bitpos + i) n)).
Proof.
  induction n as [|n IH]; intros i val Hval Hlo Hhi.
  - simpl. rewrite Z.mul_1_r, Z.add_0_r, u32_small by lia. reflexivity.
  - cbn [read_bits_msb_loop spec_read_msb]. cbv zeta.
    rewrite u64_small by lia.
    rewrite fetch_msb by lia. cbn [bind].
    pose proof (spec_bit_msb_range (bitpos + i)) as Hb.
    rewrite lor_shiftl_1_bit by lia.
    rewrite IH by (try apply u32_range; lia).
    f_equal. unfold u32.
    replace (bitpos + (i + 1)) with (bitpos + i + 1) by lia.
    rewrite Nat2Z.inj_succ, Z.pow_succ_r by lia.
    rewrite Z.add_mod by lia.
    rewrite Z.mul_mod_idemp_l by lia.
    rewrite <- Z.add_mod by lia.
    f_equal. ring.
Qed.

Lemma read_bits_msb_low32 bitpos nbits :
  0 <= bitpos < 2 ^ 64 ->
  bitpos + nbits <= 2 ^ 64 ->
  read_bits_msb data (spec_total_bits data) bitpos nbits =
  Ok (u32 (spec_read_msb data bitpos (Z.to_nat nbits))).
Proof.
  intros Hlo Hhi. unfold read_bits_msb.
  rewrite read_bits_msb_loop_spec by lia.
  now rewrite Z.mul_0_l, Z.add_0_l, Z.add_0_r.
Qed.

(** [read_bits_lsb]: the low 32 bits of the accumulator hold the positional
    value, as long as every shift count stays below the width of [int]. *)
Lemma read_bits_lsb_loop_spec bitpos n :
  forall i val,
    0 <= i ->
    i + Z.of_nat n <= 32 ->
    0 <= u32 val < 2 ^ i ->
    0 <= bitpos + i ->
    bitpos + i + Z.of_nat n <= 2 ^ 64 ->
    exists val',
      read_bits_lsb_loop data (spec_total_bits data) bitpos n i val = Ok val' /\
      u32 val' = u32 val + 2 ^ i * spec_read_lsb data (bitpos + i) n.
Proof.
  induction n as [|n IH]; intros i val Hi Hn Hval Hlo Hhi.
  - exists val; split; [reflexivity | simpl; lia].
  - cbn [read_bits_lsb_loop spec_read_lsb]. cbv zeta.
    rewrite u64_small by lia.
    pose proof (fetch_lsb (bitpos + i)) as Hf. cbv zeta in Hf.
    rewrite Hf by lia. clear Hf. cbn [bind].
    rewrite int_shl_Ok by lia. cbn [bind].
    pose proof (spec_bit_lsb_range (bitpos + i)) as Hb.
    set (b := spec_bit_lsb data (bitpos + i)) in *.
    assert (Hstep : u32 (Z.lor val (u64 (s32 (Z.shiftl b i)))) = u32 val + b * 2 ^ i).
    { rewrite u32_lor, u32_u64, u32_s32, Z.shiftl_mul_pow2 by lia.
      assert (2 ^ i <= 2 ^ 31) by (apply Z.pow_le_mono_r; lia).
      rewrite (u32_small (b * 2 ^ i)) by nia.
      apply lor_low_high; lia. }
    destruct (IH (i + 1) (Z.lor val (u64 (s32 (Z.shiftl b i))))) as (val' & Hrun & Hval');
      try lia.
    { rewrite Hstep, Z.pow_add_r by lia. change (2 ^ 1) with 2. nia. }
    exists val'; split; [exact Hrun|].
    rewrite Hval', Hstep.
    replace (bitpos + (i + 1)) with (bitpos + i + 1) by lia.
    rewrite Z.pow_add_r by lia. change (2 ^ 1) with 2. ring.
Qed.

Lemma read_bits_lsb_spec bitpos nbits :
  0 <= bitpos < 2 ^ 64 ->
  bitpos + nbits <= 2 ^ 64 ->
  nbits <= 32 ->
  read_bits_lsb data (spec_total_bits data) bitpos nbits =
  Ok (spec_read_lsb data bitpos (Z.to_nat nbits)).
Proof.
  intros Hlo Hhi Hn. unfold read_bits_lsb.
  destruct (read_bits_lsb_loop_spec bitpos (Z.to_nat nbits) 0 0)
    as (val' & Hrun & Hval'); try (cbn; lia).
  rewrite Hrun. cbn [bind]. rewrite Hval'.
  rewrite Z.add_0_r. change (u32 0) with 0. change (2 ^ 0) with 1.
  f_equal. lia.
Qed.

End Readers.

(** The positional sums read bit by bit: under LSB_FIRST the i-th bit of
    the stream is bit [i] of the value, under MSB_FIRST it is bit
    [n - 1 - i]. *)

Lemma bit_b2z b : 0 <= b <= 1 -> b = Z.b2z (Z.odd b).
Proof. intros H; assert (b = 0 \/ b = 1) as [-> | ->] by lia; reflexivity. Qed.

Lemma spec_read_lsb_bit data n :
  forall p i, 0 <= i < Z.of_nat n ->
    Z.b2z (Z.testbit (spec_read_lsb data p n) i) = spec_bit_lsb data (p + i).
Proof.
  induction n as [|n IH]; intros p i Hi; [simpl in Hi; lia|].
  cbn [spec_read_lsb].
  pose proof (spec_bit_lsb_range data p) as Hb.
  rewrite (bit_b2z (spec_bit_lsb data p)) at 1 by lia.
  rewrite Z.add_comm.
  destruct (Z.eq_dec i 0) as [->|Hne].
  - rewrite Z.testbit_0_r, Z.add_0_r. symmetry; now apply bit_b2z.
  - replace i with (Z.succ (i - 1)) at 1 by lia.
    rewrite Z.testbit_succ_r by lia.
    rewrite IH by lia. f_equal; lia.
Qed.

Lemma spec_read_msb_bit data n :
  forall p i, 0 <= i < Z.of_nat n ->
    Z.b2z (Z.testbit (spec_read_msb data p n) (Z.of_nat n - 1 - i)) =
    spec_bit_msb data (p + i).
Proof.
  induction n as [|n IH]; intros p i Hi; [simpl in Hi; lia|].
  cbn [spec_read_msb].
  pose proof (spec_bit_msb_range data p) as Hb.
  pose proof (spec_read_msb_range data n (p + 1)) as Hr.
  set (b := spec_bit_msb data p) in *.
  set (r := spec_read_msb data (p + 1) n) in *.
  rewrite Nat2Z.inj_succ.
  destruct (Z.eq_dec i 0) as [->|Hne].
  - replace (Z.succ (Z.of_nat n) - 1 - 0) with (Z.of_nat n) by lia.
    rewrite Z.testbit_odd, Z.shiftr_div_pow2 by lia.
    rewrite Z.div_add_l by lia.
    rewrite (Z.div_small r) by lia.
    rewrite Z.add_0_r, Z.add_0_r. subst b. symmetry; now apply bit_b2z.
  - rewrite <- (Z.mod_pow2_bits_low _ (Z.of_nat n)) by lia.
    rewrite Z.add_comm, Z.mod_add by lia.
    rewrite Z.mod_small by lia.
    replace (Z.succ (Z.of_nat n) - 1 - i) with (Z.of_nat n - 1 - (i - 1)) by lia.
    subst r. rewrite IH by lia. f_equal; lia.
Qed.

Lemma spec_read_msb_past_end data n :
  forall p, spec_total_bits data <= p -> spec_read_msb data p n = 0.
Proof.
  induction n as [|n IH]; intros p Hp; [reflexivity|].
  cbn [spec_read_msb].
  rewrite spec_bit_msb_past_end, IH by lia. reflexivity.
Qed.

Lemma spec_read_lsb_past_end data n :
  forall p, spec_total_bits data <= p -> spec_read_lsb data p n = 0.
Proof.
  induction n as [|n IH]; intros p Hp; [reflexivity|].
  cbn [spec_read_lsb].
  rewrite spec_bit_lsb_past_end, IH by lia. reflexivity.
Qed.

Lemma b2z_zero b : Z.b2z b = 0 -> b = false.
Proof. destruct b; [discriminate | reflexivity]. Qed.

(** C1 (as amended): for every buffer, every start position and every
    [nbits] in [1,32], [read_bits_msb] returns the positional value in which
    the first bit read is the most significant one, and [read_bits_lsb] the
    positional value in which the i-th bit read is bit [i].  The readers
    return [uint32_t], so the range stops at 32. *)
Theorem read_bits_positional_value (data : list Z) (bitpos nbits : Z) :
  0 <= bitpos < 2 ^ 64 ->
  bitpos + nbits <= 2 ^ 64 ->
  1 <= nbits <= 32 ->
  read_bits_msb data (spec_total_bits data) bitpos nbits =
    Ok (spec_read_msb data bitpos (Z.to_nat nbits)) /\
  read_bits_lsb data (spec_total_bits data) bitpos nbits =
    Ok (spec_read_lsb data bitpos (Z.to_nat nbits)).
Proof.
  intros Hpos Hend Hn; split.
  - rewrite read_bits_msb_low32 by lia. f_equal.
    apply u32_small.
    pose proof (spec_read_msb_range data (Z.to_nat nbits) bitpos) as Hr.
    assert (2 ^ Z.of_nat (Z.to_nat nbits) <= 2 ^ 32) by (apply Z.pow_le_mono_r; lia).
    lia.
  - apply read_bits_lsb_spec; lia.
Qed.

Lemma read_bits_positional_value_witness :
  read_bits_msb [180; 0] (spec_total_bits [180; 0]) 2 12 =
    Ok (spec_read_msb [180; 0] 2 (Z.to_nat 12)) /\
  read_bits_lsb [180; 0] (spec_total_bits [180; 0]) 2 12 =
    Ok (spec_read_lsb [180; 0] 2 (Z.to_nat 12)).
Proof. apply read_bits_positional_value; lia. Defined.

(** C1 fails above 32 bits: a 33-bit MSB_FIRST read whose first bit is 1 has
    positional value [2^32], and [read_bits_msb] returns 0. *)
Lemma read_bits_msb_33_truncated :
  read_bits_msb [128; 0; 0; 0; 0] (spec_total_bits [128; 0; 0; 0; 0]) 0 33 = Ok 0 /\
  spec_read_msb [128; 0; 0; 0; 0] 0 (Z.to_nat 33) = 2 ^ 32 /\
  read_bits_msb [128; 0; 0; 0; 0] (spec_total_bits [128; 0; 0; 0; 0]) 0 33 <>
    Ok (spec_read_msb [128; 0; 0; 0; 0] 0 (Z.to_nat 33)).
Proof. repeat split; vm_compute; (reflexivity || discriminate). Qed.

(** What C3 states holds wherever the readers are defined: a position at or
    past the end of the buffer contributes a 0 bit, for [nbits] in [1,64]
    under MSB_FIRST and for [nbits] in [1,32] under LSB_FIRST; a read that
    starts at or past the end returns 0. *)
Theorem read_bits_zero_padding (data : list Z) (bitpos nbits : Z) :
  0 <= bitpos < 2 ^ 64 ->
  bitpos + nbits <= 2 ^ 64 ->
  1 <= nbits <= 64 ->
  (exists v,
      read_bits_msb data (spec_total_bits data) bitpos nbits = Ok v /\
      (forall i, 0 <= i < nbits -> spec_total_bits data <= bitpos + i ->
                 Z.testbit v (nbits - 1 - i) = false) /\
      (spec_total_bits data <= bitpos -> v = 0)) /\
  (nbits <= 32 ->
   exists v,
      read_bits_lsb data (spec_total_bits data) bitpos nbits = Ok v /\
      (forall i, 0 <= i < nbits -> spec_total_bits data <= bitpos + i ->
                 Z.testbit v i = false) /\
      (spec_total_bits data <= bitpos -> v = 0)).
Proof.
  intros Hpos Hend Hn; split.
  - eexists; split; [apply read_bits_msb_low32; lia|]. split.
    + intros i Hi Hpast. unfold u32.
      rewrite Z.testbit_mod_pow2 by lia.
      apply andb_false_intro2. apply b2z_zero.
      replace (nbits - 1 - i) with (Z.of_nat (Z.to_nat nbits) - 1 - i) by lia.
      rewrite spec_read_msb_bit by lia.
      now apply spec_bit_msb_past_end.
    + intros Hpast. now rewrite spec_read_msb_past_end.
  - intros Hn32.
    eexists; split; [apply read_bits_lsb_spec; lia|]. split.
    + intros i Hi Hpast. apply b2z_zero.
      rewrite spec_read_lsb_bit by lia.
      now apply spec_bit_lsb_past_end.
    + intros Hpast. now apply spec_read_lsb_past_end.
Qed.

Lemma read_bits_zero_padding_witness :
  (exists v,
      read_bits_msb [255] (spec_total_bits [255]) 4 12 = Ok v /\
      (forall i, 0 <= i < 12 -> spec_total_bits [255] <= 4 + i ->
                 Z.testbit v (12 - 1 - i) = false) /\
      (spec_total_bits [255] <= 4 -> v = 0)) /\
  (exists v,
      read_bits_lsb [255] (spec_total_bits [255]) 4 12 = Ok v /\
      (forall i, 0 <= i < 12 -> spec_total_bits [255] <= 4 + i ->
                 Z.testbit v i = false) /\
      (spec_total_bits [255] <= 4 -> v = 0)).
Proof.
  destruct (read_bits_zero_padding [255] 4 12) as [Hmsb Hlsb]; try lia.
  split; [exact Hmsb | apply Hlsb; lia].
Defined.

(** Every LSB_FIRST read of more than 32 bits reaches the shift of an [int]
    by 32. *)
Lemma read_bits_lsb_loop_above_32 data bitpos n :
  forall i val,
    0 <= i <= 32 ->
    33 <= i + Z.of_nat n ->
    0 <= bitpos + i ->
    bitpos + 33 <= 2 ^ 64 ->
    read_bits_lsb_loop data (spec_total_bits data) bitpos n i val =
      Undefined ShiftOutOfRange.
Proof.
  induction n as [|n IH]; intros i val Hi Hn Hlo Hhi; [lia|].
  cbn [read_bits_lsb_loop]. cbv zeta.
  rewrite u64_small by lia.
  pose proof (fetch_lsb data (bitpos + i)) as Hf. cbv zeta in Hf.
  rewrite Hf by lia. clear Hf. cbn [bind].
  destruct (Z.eq_dec i 32) as [->|Hne].
  - reflexivity.
  - rewrite int_shl_Ok by lia. cbn [bind]. apply IH; lia.
Qed.

Lemma read_bits_lsb_above_32 data bitpos nbits :
  0 <= bitpos ->
  bitpos + 33 <= 2 ^ 64 ->
  33 <= nbits ->
  read_bits_lsb data (spec_total_bits data) bitpos nbits = Undefined ShiftOutOfRange.
Proof.
  intros Hlo Hhi Hn. unfold read_bits_lsb.
  rewrite read_bits_lsb_loop_above_32 by lia. reflexivity.
Qed.


(** ** Single-bit reads *)

Lemma lxor_7_mirror p : Z.lxor p 7 = 8 * (p / 8) + (7 - p mod 8).
Proof.
  pose proof (Z.add_lxor_2land p 7) as H. rewrite land_7_mod in H.
  pose proof (Z.div_mod p 8). lia.
Qed.

Lemma spec_bit_lsb_mirror data p :
  spec_bit_lsb data (Z.lxor p 7) = spec_bit_msb data p.
Proof.
  unfold spec_bit_lsb, spec_bit_msb, spec_total_bits.
  rewrite lxor_7_mirror.
  pose proof (Z.mod_pos_bound p 8) as Hr. pose proof (Z.div_mod p 8) as Hq.
  replace ((8 * (p / 8) + (7 - p mod 8)) / 8) with (p / 8)
    by (apply Z.div_unique with (r := 7 - p mod 8); lia).
  replace ((8 * (p / 8) + (7 - p mod 8)) mod 8) with (7 - p mod 8)
    by (apply Z.mod_unique with (q := p / 8); lia).
  destruct (Z.ltb_spec p (Z.of_nat (length data) * 8));
    destruct (Z.ltb_spec (8 * (p / 8) + (7 - p mod 8)) (Z.of_nat (length data) * 8));
    try reflexivity; lia.
Qed.

(** C5 (as amended): a single-bit MSB_FIRST read at position [p] returns
    the bit that a single-bit LSB_FIRST read returns at the mirrored position
    of the same byte, [p xor 7]; the two orders number the bits of a byte
    from opposite ends. *)
Theorem single_bit_reads_mirrored (data : list Z) (p : Z) :
  0 <= p < 2 ^ 64 ->
  read_bits_msb data (spec_total_bits data) p 1 =
  read_bits_lsb data (spec_total_bits data) (Z.lxor p 7) 1.
Proof.
  intros Hp.
  pose proof (Z.mod_pos_bound p 8) as Hr. pose proof (Z.div_mod p 8) as Hq.
  assert (Hm : 0 <= Z.lxor p 7 < 2 ^ 64).
  { rewrite lxor_7_mirror.
    assert (p / 8 < 2 ^ 61) by (apply Z.div_lt_upper_bound; lia).
    assert (0 <= p / 8) by (apply Z.div_pos; lia). lia. }
  rewrite read_bits_msb_low32 by lia.
  rewrite read_bits_lsb_spec by lia.
  change (Z.to_nat 1) with 1%nat. cbn [spec_read_msb spec_read_lsb].
  rewrite spec_bit_lsb_mirror.
  pose proof (spec_bit_msb_range data p) as Hb.
  change (2 ^ Z.of_nat 0) with 1.
  rewrite u32_small by lia. f_equal; lia.
Qed.

Lemma single_bit_reads_mirrored_witness :
  read_bits_msb [128] (spec_total_bits [128]) 0 1 =
  read_bits_lsb [128] (spec_total_bits [128]) (Z.lxor 0 7) 1.
Proof. apply single_bit_reads_mirrored; lia. Defined.

(** C5 fails as stated: at position 0 of the one-byte buffer [0x80] the
    MSB_FIRST read returns 1 and the LSB_FIRST read returns 0. *)
Lemma single_bit_reads_differ :
  read_bits_msb [128] (spec_total_bits [128]) 0 1 = Ok 1 /\
  read_bits_lsb [128] (spec_total_bits [128]) 0 1 = Ok 0.
Proof. split; vm_compute; reflexivity. Qed.

(** ** Pixel endianness *)

(** Big-endian adjustment is the identity under the [bpp]-bit mask. *)
Lemma adjust_big_endian_mask (v bpp : Z) :
  1 <= bpp <= 64 ->
  adjust_endianness_pixel v bpp false = Ok (Z.land v (Z.ones bpp)).
Proof.
  intros Hb. unfold adjust_endianness_pixel. cbn [negb orb].
  destruct (Z.geb_spec bpp 64) as [Hge|Hlt].
  - assert (bpp = 64) as -> by lia. reflexivity.
  - rewrite low_mask_Ok by lia. cbn [bind].
    now rewrite Z.ones_equiv, Z.sub_1_r.
Qed.

Lemma split_bytes_loop_defined v nbytes n :
  forall i bytes,
    0 <= i -> i + Z.of_nat n = nbytes -> nbytes <= 8 -> length bytes = 8%nat ->
    exists bytes',
      split_bytes_loop v nbytes n i bytes = Ok bytes' /\ length bytes' = 8%nat.
Proof.
  induction n as [|n IH]; intros i bytes Hi Hn Hmax Hlen.
  - simpl; eauto.
  - cbn [split_bytes_loop]. unfold int_sub, int_mul.
    rewrite int_result_Ok by (unfold is_int, INT_MIN, INT_MAX; lia). cbn [bind].
    rewrite int_result_Ok by (unfold is_int, INT_MIN, INT_MAX; lia). cbn [bind].
    rewrite u64_shr_Ok by lia. cbn [bind].
    rewrite store_Ok by lia. cbn [bind].
    apply IH; try lia. now rewrite update_length.
Qed.

Lemma join_bytes_loop_defined bytes nbytes n :
  forall i out,
    0 <= i -> i + Z.of_nat n = nbytes -> nbytes <= Z.of_nat (length bytes) ->
    exists out', join_bytes_loop bytes nbytes n i out = Ok out'.
Proof.
  induction n as [|n IH]; intros i out Hi Hn Hmax.
  - simpl; eauto.
  - cbn [join_bytes_loop].
    rewrite load_Ok by lia. cbn [bind].
    apply IH; lia.
Qed.

Lemma adjust_endianness_pixel_defined v bpp le :
  1 <= bpp <= 64 ->
  le = false \/ bpp <= 63 ->
  exists r, adjust_endianness_pixel v bpp le = Ok r.
Proof.
  intros Hb [-> | Hle]; [rewrite adjust_big_endian_mask by lia; eauto|].
  destruct le; [|rewrite adjust_big_endian_mask by lia; eauto].
  unfold adjust_endianness_pixel. cbn [negb orb].
  destruct (Z.leb_spec bpp 8) as [Hnarrow|Hwide].
  - destruct (Z.geb_spec bpp 64); [lia|].
    rewrite low_mask_Ok by lia. cbn [bind]. eauto.
  - unfold int_add.
    rewrite int_result_Ok by (unfold is_int, INT_MIN, INT_MAX; lia). cbn [bind].
    rewrite Z.quot_div_nonneg by lia.
    pose proof (Z.div_mod (bpp + 7) 8 ltac:(lia)) as Hd.
    pose proof (Z.mod_pos_bound (bpp + 7) 8 ltac:(lia)) as Hm.
    rewrite (u8_small ((bpp + 7) / 8)) by lia.
    destruct (split_bytes_loop_defined v ((bpp + 7) / 8)
                (Z.to_nat ((bpp + 7) / 8)) 0 (repeat 0 8))
      as (bytes & -> & Hlen); try lia; [reflexivity|]. cbn [bind].
    destruct (join_bytes_loop_defined bytes ((bpp + 7) / 8)
                (Z.to_nat ((bpp + 7) / 8)) 0 0)
      as (out & ->); try lia. cbn [bind].
    rewrite low_mask_Ok by lia. cbn [bind]. eauto.
Qed.

(** What C9 states holds wherever the last line of
    [adjust_endianness_pixel] is defined: the swap is its own inverse for
    every multiple of 8 from 8 to 56. *)

(** The first loop stores, at index [j], the byte of [v] at shift
    [(nbytes - 1 - j) * 8]. *)
Lemma split_bytes_loop_spec v nbytes n :
  forall i bytes,
    0 <= i -> i + Z.of_nat n = nbytes -> nbytes <= 8 -> length bytes = 8%nat ->
    exists bytes',
      split_bytes_loop v nbytes n i bytes = Ok bytes' /\
      length bytes' = 8%nat /\
      (forall j, i <= j < nbytes ->
         nth_error bytes' (Z.to_nat j) =
         Some (u8 (Z.land (Z.shiftr v ((nbytes - 1 - j) * 8)) 255))) /\
      (forall j, 0 <= j < i ->
         nth_error bytes' (Z.to_nat j) = nth_error bytes (Z.to_nat j)).
Proof.
  induction n as [|n IH]; intros i bytes Hi Hn Hmax Hlen.
  - exists bytes. repeat split; auto. intros j Hj; lia.
  - cbn [split_bytes_loop]. unfold int_sub, int_mul.
    rewrite int_result_Ok by (unfold is_int, INT_MIN, INT_MAX; lia). cbn [bind].
    rewrite int_result_Ok by (unfold is_int, INT_MIN, INT_MAX; lia). cbn [bind].
    rewrite u64_shr_Ok by lia. cbn [bind].
    rewrite store_Ok by lia. cbn [bind].
    destruct (IH (i + 1)
                (update bytes (Z.to_nat i)
                   (u8 (Z.land (Z.shiftr v ((nbytes - 1 - i) * 8)) 255))))
      as (bytes' & Hrun & Hlen' & Hnew & Hold); try lia.
    { now rewrite update_length. }
    exists bytes'. split; [exact Hrun|]. split; [exact Hlen'|]. split.
    + intros j Hj. destruct (Z.eq_dec j i) as [->|Hne].
      * rewrite Hold by lia. apply nth_error_update_same; lia.
      * apply Hnew; lia.
    + intros j Hj. rewrite Hold by lia.
      apply nth_error_update_other; lia.
Qed.

(** The second loop reads the bytes back in the opposite order: bit [m] of
    its result is bit [m mod 8] of the byte of [v] at the mirrored byte
    position. *)
Lemma join_bytes_loop_spec v nbytes bytes n :
  nbytes <= 8 ->
  (forall j, 0 <= j < nbytes ->
     nth_error bytes (Z.to_nat j) =
     Some (u8 (Z.land (Z.shiftr v ((nbytes - 1 - j) * 8)) 255))) ->
  forall i out,
    0 <= i -> i + Z.of_nat n = nbytes -> 0 <= out < 2 ^ (8 * i) ->
    exists out',
      join_bytes_loop bytes nbytes n i out = Ok out' /\
      0 <= out' < 2 ^ (8 * nbytes) /\
      (forall m, 0 <= m ->
         Z.testbit out' m =
         if m <? 8 * Z.of_nat n
         then Z.testbit v (8 * (nbytes - 1 - m / 8) + m mod 8)
         else Z.testbit out (m - 8 * Z.of_nat n)).
Proof.
  intros Hmax Hbytes.
  induction n as [|n IH]; intros i out Hi Hn Hout.
  - exists out. split; [reflexivity|]. split.
    + replace nbytes with i by lia. exact Hout.
    + intros m Hm. destruct (Z.ltb_spec m (8 * Z.of_nat 0)); [lia|].
      f_equal; lia.
  - cbn [join_bytes_loop].
    rewrite (load_nth_error bytes (nbytes - 1 - i) _ ltac:(lia)
               (Hbytes (nbytes - 1 - i) ltac:(lia))).
    cbn [bind].
    replace ((nbytes - 1 - (nbytes - 1 - i)) * 8) with (8 * i) by lia.
    set (b := u8 (Z.land (Z.shiftr v (8 * i)) 255)).
    pose proof (u8_range (Z.land (Z.shiftr v (8 * i)) 255)) as Hb. fold b in Hb.
    assert (Hpow : 2 ^ (8 * (i + 1)) = 2 ^ (8 * i) * 2 ^ 8)
      by (rewrite <- Z.pow_add_r by lia; f_equal; lia).
    pose proof (pow2_le_mono (8 * (i + 1)) 64 ltac:(lia)) as Hle.
    assert (Hshift : u64 (Z.shiftl out 8) = out * 2 ^ 8).
    { rewrite Z.shiftl_mul_pow2 by lia. apply u64_small. nia. }
    rewrite Hshift.
    assert (Hsum : Z.lor (out * 2 ^ 8) b = b + out * 2 ^ 8)
      by (rewrite Z.lor_comm; apply lor_low_high; lia).
    assert (Hacc : 0 <= Z.lor (out * 2 ^ 8) b < 2 ^ (8 * (i + 1)))
      by (rewrite Hsum, Hpow; change (2 ^ 8) with 256 in *; lia).
    destruct (IH (i + 1) (Z.lor (out * 2 ^ 8) b) ltac:(lia) ltac:(lia) Hacc)
      as (out' & Hrun & Hrange & Hbits).
    exists out'. split; [exact Hrun|]. split; [exact Hrange|].
    intros m Hm. rewrite Hbits by lia.
    rewrite Nat2Z.inj_succ.
    destruct (Z.ltb_spec m (8 * Z.of_nat n)) as [Hlow|Hhigh];
      destruct (Z.ltb_spec m (8 * Z.succ (Z.of_nat n))) as [Hlow'|Hhigh'];
      try lia; try reflexivity.
    + (* the byte just placed *)
      set (k := m - 8 * Z.of_nat n) in *.
      rewrite Z.lor_spec.
      rewrite <- Z.shiftl_mul_pow2, Z.shiftl_spec by lia.
      rewrite (Z.testbit_neg_r out (k - 8)) by lia. cbn [orb].
      unfold b, u8. change 255 with (Z.ones 8).
      rewrite Z.land_ones by lia. rewrite Zmod_mod.
      rewrite Z.mod_pow2_bits_low by lia.
      rewrite Z.shiftr_spec by lia.
      f_equal.
      assert (m / 8 = Z.of_nat n)
        by (symmetry; apply Z.div_unique with (r := k); lia).
      assert (m mod 8 = k)
        by (symmetry; apply Z.mod_unique with (q := Z.of_nat n); lia).
      lia.
    + (* above it: the accumulator, shifted *)
      set (k := m - 8 * Z.of_nat n) in *.
      rewrite Z.lor_spec.
      rewrite <- Z.shiftl_mul_pow2, Z.shiftl_spec by lia.
      unfold b, u8. rewrite Z.mod_pow2_bits_high by lia.
      rewrite orb_false_r. f_equal; lia.
Qed.

(** Bit [m] of the adjusted pixel, for a width above 8 and below 64. *)
Lemma adjust_little_endian_bits v bpp :
  8 < bpp < 64 ->
  exists w,
    adjust_endianness_pixel v bpp true = Ok w /\
    (forall m, 0 <= m ->
       Z.testbit w m =
       (m <? bpp) && Z.testbit v (8 * ((bpp + 7) / 8 - 1 - m / 8) + m mod 8)).
Proof.
  intros Hb. unfold adjust_endianness_pixel. cbn [negb orb].
  destruct (Z.leb_spec bpp 8) as [Hnarrow|_]; [lia|].
  unfold int_add.
  rewrite int_result_Ok by (unfold is_int, INT_MIN, INT_MAX; lia). cbn [bind].
  rewrite Z.quot_div_nonneg by lia.
  pose proof (Z.div_mod (bpp + 7) 8 ltac:(lia)) as Hd.
  pose proof (Z.mod_pos_bound (bpp + 7) 8 ltac:(lia)) as Hm.
  rewrite (u8_small ((bpp + 7) / 8)) by lia.
  set (nbytes := (bpp + 7) / 8) in *.
  destruct (split_bytes_loop_spec v nbytes (Z.to_nat nbytes) 0 (repeat 0 8))
    as (bytes & -> & Hlen & Hbytes & _); try lia; [reflexivity|]. cbn [bind].
  destruct (join_bytes_loop_spec v nbytes bytes (Z.to_nat nbytes)
              ltac:(lia) Hbytes 0 0)
    as (out & -> & Hrange & Hbits); try lia. cbn [bind].
  rewrite low_mask_Ok by lia. cbn [bind].
  eexists; split; [reflexivity|].
  intros m Hm0.
  rewrite Z.sub_1_r, <- Z.ones_equiv.
  rewrite Z.land_spec, Z.testbit_ones_nonneg, Hbits by lia.
  rewrite Z2Nat.id by lia.
  destruct (Z.ltb_spec m bpp); destruct (Z.ltb_spec m (8 * nbytes));
    try lia; cbn [andb]; rewrite ?andb_true_r, ?andb_false_r; try reflexivity.
Qed.

(** X1: for every multiple of 8 from 8 to 56, adjusting twice with
    little-endian order gives the pixel value masked to [bpp] bits: the byte
    swap undoes itself wherever the function is defined. *)
Theorem adjust_little_endian_involutive v bpp :
  8 <= bpp <= 56 -> bpp mod 8 = 0 ->
  exists w,
    adjust_endianness_pixel v bpp true = Ok w /\
    adjust_endianness_pixel w bpp true = Ok (Z.land v (Z.ones bpp)).
Proof.
  intros Hb H8.
  destruct (Z.eq_dec bpp 8) as [->|Hne].
  - exists (Z.land v (Z.ones 8)). split; [reflexivity|].
    unfold adjust_endianness_pixel. cbn.
    change 255 with (Z.ones 8). now rewrite <- Z.land_assoc, Z.land_diag.
  - pose proof (Z.div_mod bpp 8 ltac:(lia)) as Hd. rewrite H8 in Hd.
    destruct (adjust_little_endian_bits v bpp) as (w & Hw & Hwbits); [lia|].
    destruct (adjust_little_endian_bits w bpp) as (w2 & Hw2 & Hw2bits); [lia|].
    exists w. split; [exact Hw|]. rewrite Hw2. f_equal.
    apply Z.bits_inj'; intros m Hm.
    rewrite Hw2bits, Z.land_spec, Z.testbit_ones_nonneg by lia.
    assert (Hn : (bpp + 7) / 8 = bpp / 8)
      by (symmetry; apply Z.div_unique with (r := 7); lia).
    rewrite Hn in *.
    destruct (Z.ltb_spec m bpp) as [Hlt|Hge];
      [|now rewrite andb_false_r].
    pose proof (Z.div_mod m 8 ltac:(lia)) as Hdm.
    pose proof (Z.mod_pos_bound m 8 ltac:(lia)) as Hmm.
    assert (0 <= m / 8) by (apply Z.div_pos; lia).
    set (m' := 8 * (bpp / 8 - 1 - m / 8) + m mod 8).
    assert (Hm' : 0 <= m' < bpp) by (unfold m'; lia).
    rewrite Hwbits by lia. fold m'.
    destruct (Z.ltb_spec m' bpp); [|lia].
    cbn [andb]. rewrite andb_true_r.
    assert (m' / 8 = bpp / 8 - 1 - m / 8)
      by (symmetry; apply Z.div_unique with (r := m mod 8); unfold m'; lia).
    assert (m' mod 8 = m mod 8)
      by (symmetry; apply Z.mod_unique with (q := bpp / 8 - 1 - m / 8); unfold m'; lia).
    f_equal. lia.
Qed.

Lemma adjust_little_endian_involutive_witness :
  exists w,
    adjust_endianness_pixel 11259375 24 true = Ok w /\
    adjust_endianness_pixel w 24 true = Ok (Z.land 11259375 (Z.ones 24)).
Proof. apply adjust_little_endian_involutive; [lia | reflexivity]. Defined.

(** X2: for every [bpp] in [1,64] and every 64-bit value, the big-endian
    adjustment returns the value reduced to its low [bpp] bits. *)
Theorem adjust_big_endian_identity v bpp :
  1 <= bpp <= 64 ->
  0 <= v < 2 ^ 64 ->
  adjust_endianness_pixel v bpp false = Ok (v mod 2 ^ bpp) /\
  (bpp = 64 -> adjust_endianness_pixel v bpp false = Ok v).
Proof.
  intros Hb Hv. rewrite adjust_big_endian_mask by lia.
  rewrite Z.land_ones by lia. split; [reflexivity|].
  intros ->. now rewrite Z.mod_small by lia.
Qed.

Lemma adjust_big_endian_identity_witness :
  adjust_endianness_pixel 11259375 12 false = Ok (11259375 mod 2 ^ 12) /\
  (12 = 64 -> adjust_endianness_pixel 11259375 12 false = Ok 11259375).
Proof. apply adjust_big_endian_identity; lia. Defined.

(** C9 (the code at the failing input): with [bpp = 64] and little-endian
    order, [adjust_endianness_pixel] evaluates the unguarded mask
    [(1ull << 64) - 1] of its last line, a shift by the full width of the
    operand, whatever the pixel value; the first line of the function guards
    the same mask with [bpp >= 64]. *)
Theorem adjust_little_endian_64_undefined (v : Z) :
  adjust_endianness_pixel v 64 true = Undefined ShiftOutOfRange.
Proof. lazy. reflexivity. Qed.

(** ** Scaler *)

(** Below 8 bits: linear expansion with rounding. *)
Lemma scale_to_8_narrow raw w :
  1 <= w < 8 -> 0 <= raw < 2 ^ w ->
  scale_to_8 raw w = Ok ((raw * 255 + (2 ^ w - 1) / 2) / (2 ^ w - 1)) /\
  0 <= (raw * 255 + (2 ^ w - 1) / 2) / (2 ^ w - 1) <= 255.
Proof.
  intros Hw Hraw. pose proof (pow2_le_mono w 7 ltac:(lia)) as Hp.
  assert (2 <= 2 ^ w) by (change 2 with (2 ^ 1) at 1; apply Z.pow_le_mono_r; lia).
  set (maxv := 2 ^ w - 1) in *.
  assert (Hhalf : 0 <= maxv / 2 < maxv).
  { split; [apply Z.div_pos; lia | apply Z.div_lt_upper_bound; lia]. }
  assert (Hq : 0 <= (raw * 255 + maxv / 2) / maxv <= 255).
  { split; [apply Z.div_pos; nia|].
    apply Z.lt_succ_r. apply Z.div_lt_upper_bound; nia. }
  split; [|exact Hq].
  unfold scale_to_8.
  destruct (Z.eqb_spec w 0); [lia|].
  destruct (Z.geb_spec w 8); [lia|].
  rewrite u64_shl_Ok by lia. cbn [bind]. rewrite Z.shiftl_1_l.
  rewrite (u64_small (2 ^ w)) by lia. fold maxv.
  rewrite (u64_small maxv) by lia.
  rewrite (u64_small (raw * 255)) by nia.
  rewrite u64_small by nia.
  rewrite u64_div_Ok by lia. cbn [bind].
  rewrite u8_small by lia. reflexivity.
Qed.

(** From 8 bits on: the top 8 bits of the field. *)
Lemma scale_to_8_wide raw w :
  8 <= w <= 64 -> 0 <= raw < 2 ^ w ->
  scale_to_8 raw w = Ok (raw / 2 ^ (w - 8)) /\ 0 <= raw / 2 ^ (w - 8) < 2 ^ 8.
Proof.
  intros Hw Hraw.
  pose proof (pow2_le_mono (w - 8) 56 ltac:(lia)) as Hp.
  assert (Hq : 0 <= raw / 2 ^ (w - 8) < 2 ^ 8).
  { split; [apply Z.div_pos; lia|].
    apply Z.div_lt_upper_bound; [lia|].
    rewrite <- Z.pow_add_r by lia. replace (w - 8 + 8) with w by lia. lia. }
  split; [|exact Hq].
  unfold scale_to_8.
  destruct (Z.eqb_spec w 0); [lia|].
  destruct (Z.geb_spec w 8); [|lia].
  change 255 with (Z.ones 8).
  destruct (Z.eqb_spec w 8) as [->|Hne].
  - change (2 ^ (8 - 8)) with 1 in *. rewrite Z.div_1_r in *.
    rewrite Z.land_ones by lia.
    rewrite (Z.mod_small raw) by lia. rewrite u8_small by lia. reflexivity.
  - rewrite u64_shr_Ok by lia. cbn [bind].
    rewrite Z.shiftr_div_pow2 by lia.
    rewrite Z.land_ones by lia.
    rewrite Z.mod_small by lia. rewrite u8_small by lia. reflexivity.
Qed.

Lemma scale_to_8_defined raw w : 0 <= w <= 64 -> exists v, scale_to_8 raw w = Ok v.
Proof.
  intros Hw. unfold scale_to_8.
  destruct (Z.eqb_spec w 0); [eauto|].
  destruct (Z.geb_spec w 8).
  - destruct (Z.eqb_spec w 8); [eauto|].
    rewrite u64_shr_Ok by lia. cbn [bind]. eauto.
  - rewrite u64_shl_Ok by lia. cbn [bind]. rewrite Z.shiftl_1_l.
    pose proof (pow2_le_mono w 7 ltac:(lia)).
    assert (2 <= 2 ^ w) by (change 2 with (2 ^ 1) at 1; apply Z.pow_le_mono_r; lia).
    rewrite (u64_small (2 ^ w)) by lia.
    rewrite (u64_small (2 ^ w - 1)) by lia.
    rewrite u64_div_Ok by lia. cbn [bind]. eauto.
Qed.

(** C8: for every [width_bits] in [0,64], [scale_to_8] is monotonic
    non-decreasing in the raw value of a field of [width_bits] bits; and for
    every [w] in [1,8], [scale_to_8 0 w = 0] and
    [scale_to_8 (2^w - 1) w = 255]. *)
Theorem scale_to_8_monotone_endpoints (w r1 r2 : Z) :
  0 <= w <= 64 ->
  0 <= r1 <= r2 ->
  w = 0 \/ r2 < 2 ^ w ->
  (exists a b, scale_to_8 r1 w = Ok a /\ scale_to_8 r2 w = Ok b /\ a <= b) /\
  (1 <= w <= 8 -> scale_to_8 0 w = Ok 0 /\ scale_to_8 (2 ^ w - 1) w = Ok 255).
Proof.
  intros Hw Hr Hfit; split.
  - destruct Hfit as [-> | Hfit].
    + exists 0, 0; repeat split; reflexivity || lia.
    + destruct (Z.eq_dec w 0) as [-> | Hw0];
        [exists 0, 0; repeat split; reflexivity || lia|].
      destruct (Z.lt_ge_cases w 8) as [Hnarrow | Hwide].
      * destruct (scale_to_8_narrow r1 w) as [E1 _]; try lia.
        destruct (scale_to_8_narrow r2 w) as [E2 _]; try lia.
        do 2 eexists; split; [exact E1|]; split; [exact E2|].
        assert (2 <= 2 ^ w) by (change 2 with (2 ^ 1) at 1; apply Z.pow_le_mono_r; lia).
        apply Z.div_le_mono; lia.
      * destruct (scale_to_8_wide r1 w) as [E1 _]; try lia.
        destruct (scale_to_8_wide r2 w) as [E2 _]; try lia.
        do 2 eexists; split; [exact E1|]; split; [exact E2|].
        pose proof (pow2_le_mono (w - 8) 56 ltac:(lia)).
        apply Z.div_le_mono; lia.
  - intros Hw8.
    assert (w = 1 \/ w = 2 \/ w = 3 \/ w = 4 \/ w = 5 \/ w = 6 \/ w = 7 \/ w = 8)
      as Hcases by lia.
    repeat (destruct Hcases as [-> | Hcases]); try subst w; split; reflexivity.
Qed.

Lemma scale_to_8_monotone_endpoints_witness :
  (exists a b, scale_to_8 3 5 = Ok a /\ scale_to_8 20 5 = Ok b /\ a <= b) /\
  scale_to_8 0 5 = Ok 0 /\ scale_to_8 (2 ^ 5 - 1) 5 = Ok 255.
Proof.
  destruct (scale_to_8_monotone_endpoints 5 3 20) as [Hmono Hends]; try lia.
  split; [exact Hmono | apply Hends; lia].
Defined.

(** The raw value of a field of [w] bits is below [2^w]: the field loop
    masks it to the field width.  On an argument that does not fit the
    width the result is masked to 8 bits: at 8 bits the value 256 scales
    to 0. *)
Remark scale_to_8_masks_wider_argument :
  scale_to_8 255 8 = Ok 255 /\ scale_to_8 256 8 = Ok 0.
Proof. split; reflexivity. Qed.

(** ** Field decomposition and the decoding of one pixel *)

Lemma decode_fields_defined pixel_val fs :
  Forall (fun f => 0 <= bits f <= 63) fs ->
  forall cur_shift px,
    0 <= cur_shift <= 64 ->
    exists px', decode_fields pixel_val fs cur_shift px = Ok px'.
Proof.
  induction 1 as [|f fs Hf _ IH]; intros cur_shift px Hc.
  - simpl; eauto.
  - cbn [decode_fields]. cbv zeta.
    set (use := Z.min (bits f) cur_shift).
    assert (Huse : 0 <= use <= 63 /\ use <= cur_shift) by (unfold use; lia).
    assert (Hraw : exists rawcomp,
               (if (0 <? cur_shift) && (0 <? use)
                then d <- int_sub cur_shift use ;;
                     v <- u64_shr pixel_val d ;;
                     mask <- low_mask use ;;
                     Ok (Z.land v mask)
                else Ok 0) = Ok rawcomp).
    { destruct (Z.ltb_spec 0 cur_shift); destruct (Z.ltb_spec 0 use);
        cbn [andb]; eauto.
      unfold int_sub.
      rewrite int_result_Ok by (unfold is_int, INT_MIN, INT_MAX; lia). cbn [bind].
      rewrite u64_shr_Ok by lia. cbn [bind].
      rewrite low_mask_Ok by lia. cbn [bind]. eauto. }
    destruct Hraw as (rawcomp & ->). cbn [bind].
    unfold int_sub.
    rewrite int_result_Ok by (unfold is_int, INT_MIN, INT_MAX; lia). cbn [bind].
    rewrite (u8_small use) by lia.
    destruct (scale_to_8_defined rawcomp use) as (val8 & ->); [lia|]. cbn [bind].
    apply IH. lia.
Qed.

Lemma decode_pixel_defined s preset bitpos :
  1 <= bpp s <= 64 ->
  decodable s preset ->
  0 <= bitpos < 2 ^ 64 ->
  bitpos + bpp s <= 2 ^ 64 ->
  exists px, decode_pixel s preset (spec_total_bits (data s)) bitpos = Ok px.
Proof.
  intros Hb (Hread & Hadj & Hfields) Hpos Hend. unfold decode_pixel.
  assert (Hv : exists v,
             (if bit_order_msb s
              then read_bits_msb (data s) (spec_total_bits (data s)) bitpos (bpp s)
              else read_bits_lsb (data s) (spec_total_bits (data s)) bitpos (bpp s))
             = Ok v).
  { destruct (bit_order_msb s).
    - rewrite read_bits_msb_low32 by lia. eauto.
    - destruct Hread as [Hmsb|H32]; [discriminate|].
      rewrite read_bits_lsb_spec by lia. eauto. }
  destruct Hv as (v & ->). cbn [bind].
  destruct (adjust_endianness_pixel_defined v (bpp s) (byte_order_le s))
    as (pixel_val & ->); try assumption. cbn [bind].
  apply decode_fields_defined; [assumption | lia].
Qed.

(** Above 64 bits the first field must leave fewer than 64 bits unconsumed:
    its shift count is [bpp] less its width. *)
Lemma decode_pixel_defined_above_64 s preset bitpos :
  64 < bpp s ->
  is_int (bpp s) ->
  decodable_above_64 s preset ->
  0 <= bitpos < 2 ^ 64 ->
  bitpos + bpp s <= 2 ^ 64 ->
  exists px, decode_pixel s preset (spec_total_bits (data s)) bitpos = Ok px.
Proof.
  intros Hb Hint (Hmsb & Hbe & Hfields) Hpos Hend.
  unfold is_int, INT_MIN, INT_MAX in Hint.
  unfold decode_pixel. rewrite Hmsb, Hbe.
  rewrite read_bits_msb_low32 by lia. cbn [bind].
  unfold adjust_endianness_pixel. cbn [negb orb].
  destruct (Z.geb_spec (bpp s) 64) as [_|Hlt]; [|lia]. cbn [bind].
  destruct (fields preset) as [|f fs]; [simpl; eauto|].
  destruct Hfields as [Hf Hfs].
  cbn [decode_fields]. cbv zeta.
  rewrite (Z.min_l (bits f) (bpp s)) by lia.
  destruct (Z.ltb_spec 0 (bpp s)); [|lia].
  destruct (Z.ltb_spec 0 (bits f)); [|lia]. cbn [andb].
  unfold int_sub.
  rewrite int_result_Ok by (unfold is_int, INT_MIN, INT_MAX; lia). cbn [bind].
  rewrite u64_shr_Ok by lia. cbn [bind].
  rewrite low_mask_Ok by lia. cbn [bind].
  rewrite (u8_small (bits f)) by lia.
  match goal with |- context [scale_to_8 ?raw (bits f)] =>
    destruct (scale_to_8_defined raw (bits f)) as (val8 & ->); [lia|]
  end.
  cbn [bind].
  apply decode_fields_defined; [assumption | lia].
Qed.

(** ** The pixel loop *)

Lemma pixel_index w p :
  1 <= w < 2 ^ 32 -> 0 <= p < 2 ^ 32 ->
  u32 (u32 (u32 (p / u32 w * u32 w) + u32 (p mod u32 w)) * 4) = u32 (4 * p).
Proof.
  intros Hw Hp. rewrite (u32_small w) by lia.
  pose proof (Z.mod_pos_bound p w ltac:(lia)) as Hm.
  pose proof (Z.div_mod p w ltac:(lia)) as Hd.
  assert (0 <= p / w) by (apply Z.div_pos; lia).
  assert (0 <= p / w * w <= p) by nia.
  rewrite (u32_small (p mod w)) by lia.
  rewrite (u32_small (p / w * w)) by lia.
  replace (p / w * w + p mod w) with p by lia.
  rewrite (u32_small p) by lia. f_equal; lia.
Qed.

Section PixelLoop.

Variables (s : ViewerState) (preset : Preset).
Variables (total_bits pixels_available width : Z).
Hypothesis width_range : 1 <= width < 2 ^ 32.

(** A run of the loop that ends normally keeps the length of the output
    vector, and every pixel it visited lay inside the vector. *)
Lemma render_loop_in_bounds n :
  forall p bitpos out out',
    0 <= p ->
    p + Z.of_nat n < 2 ^ 32 ->
    render_loop s preset total_bits pixels_available width n p bitpos out = Ok out' ->
    length out' = length out /\
    (forall q, p <= q < p + Z.of_nat n -> u32 (4 * q) + 3 < Z.of_nat (length out)).
Proof.
  induction n as [|n IH]; intros p bitpos out out' Hp Hn Hrun.
  - simpl in Hrun. inversion Hrun; subst. split; [reflexivity | intros; lia].
  - cbn [render_loop] in Hrun. cbv zeta in Hrun.
    rewrite pixel_index in Hrun by lia.
    rewrite (u32_small (p + 1)) in Hrun by lia.
    bind_inv Hrun.
    assert (Hstep : exists bitpos' out1,
               length out1 = length out /\
               u32 (4 * p) + 3 < Z.of_nat (length out) /\
               render_loop s preset total_bits pixels_available width
                 n (p + 1) bitpos' out1 = Ok out').
    { destruct (p >=? pixels_available).
      - bind_inv Hrun. apply clear_pixel_effect in Ha0.
        destruct Ha0 as (_ & Hin & Hlen & _). eauto.
      - bind_inv Hrun. bind_inv Hrun. apply store_pixel_effect in Ha1.
        destruct Ha1 as (_ & Hin & Hlen & _). eauto. }
    destruct Hstep as (bitpos' & out1 & Hlen & Hin & Hrest).
    apply IH in Hrest; try lia.
    destruct Hrest as [Hlen' Hall].
    split; [congruence|].
    intros q Hq. destruct (Z.eq_dec q p) as [->|Hne]; [exact Hin|].
    rewrite <- Hlen. apply Hall. lia.
Qed.

(** With no more than [2^30] pixels the byte index of pixel [p] is [4 * p]:
    the loop leaves the cells before its first pixel as they were, and every
    pixel at or past [pixels_available] holds four zero bytes. *)
Lemma render_loop_tail n :
  forall p bitpos out out',
    0 <= p ->
    p + Z.of_nat n <= 2 ^ 30 ->
    render_loop s preset total_bits pixels_available width n p bitpos out = Ok out' ->
    (forall k, 0 <= k < 4 * p ->
       nth_error out' (Z.to_nat k) = nth_error out (Z.to_nat k)) /\
    (forall q j, p <= q < p + Z.of_nat n -> pixels_available <= q -> 0 <= j < 4 ->
       nth_error out' (Z.to_nat (4 * q + j)) = Some 0).
Proof.
  induction n as [|n IH]; intros p bitpos out out' Hp Hn Hrun.
  - simpl in Hrun. inversion Hrun; subst. split; [reflexivity | intros; lia].
  - cbn [render_loop] in Hrun. cbv zeta in Hrun.
    rewrite pixel_index in Hrun by lia.
    rewrite (u32_small (p + 1)) in Hrun by lia.
    rewrite (u32_small (4 * p)) in Hrun by lia.
    bind_inv Hrun.
    destruct (Z.geb_spec p pixels_available) as [Hge|Hlt].
    + bind_inv Hrun. apply clear_pixel_effect in Ha0.
      destruct Ha0 as (_ & Hin & Hlen & Hframe & Hzero).
      apply IH in Hrun; try lia. destruct Hrun as [Hkeep Htail].
      split.
      * intros k Hk. rewrite Hkeep by lia. apply Hframe; lia.
      * intros q j Hq Hpast Hj.
        destruct (Z.eq_dec q p) as [->|Hne]; [|apply Htail; lia].
        rewrite Hkeep by lia. now apply Hzero.
    + bind_inv Hrun. bind_inv Hrun. apply store_pixel_effect in Ha1.
      destruct Ha1 as (_ & Hin & Hlen & Hframe).
      apply IH in Hrun; try lia. destruct Hrun as [Hkeep Htail].
      split.
      * intros k Hk. rewrite Hkeep by lia. apply Hframe; lia.
      * intros q j Hq Hpast Hj. apply Htail; lia.
Qed.

(** The pixels before [pixels_available] are decoded one after the other:
    pixel [q] holds the channels decoded at the bit cursor advanced by
    [bpp] for each pixel before it. *)
Lemma render_loop_decoded n :
  forall p bitpos out out',
    1 <= bpp s <= 64 ->
    0 <= p ->
    p + Z.of_nat n <= 2 ^ 30 ->
    0 <= bitpos ->
    bitpos + Z.of_nat n * bpp s < 2 ^ 64 ->
    render_loop s preset total_bits pixels_available width n p bitpos out = Ok out' ->
    forall q, p <= q < p + Z.of_nat n -> q < pixels_available ->
      exists c,
        decode_pixel s preset total_bits (bitpos + (q - p) * bpp s) = Ok c /\
        nth_error out' (Z.to_nat (4 * q)) = Some (red c) /\
        nth_error out' (Z.to_nat (4 * q + 1)) = Some (green c) /\
        nth_error out' (Z.to_nat (4 * q + 2)) = Some (blue c) /\
        nth_error out' (Z.to_nat (4 * q + 3)) = Some (alpha c).
Proof.
  induction n as [|n IH]; intros p bitpos out out' Hbpp Hp Hn Hpos Hcur Hrun q Hq Hav;
    [lia|].
  cbn [render_loop] in Hrun. cbv zeta in Hrun.
  rewrite pixel_index in Hrun by lia.
  rewrite (u32_small (p + 1)) in Hrun by lia.
  rewrite (u32_small (4 * p)) in Hrun by lia.
  bind_inv Hrun.
  destruct (Z.geb_spec p pixels_available) as [Hge|Hlt]; [lia|].
  bind_inv Hrun. bind_inv Hrun.
  rewrite (u64_small (bpp s)) in Hrun by lia.
  rewrite (u64_small (bitpos + bpp s)) in Hrun by nia.
  destruct (Z.eq_dec q p) as [->|Hne].
  - exists a0. replace (bitpos + (p - p) * bpp s) with bitpos by lia.
    split; [exact Ha0|].
    apply store_pixel_values in Ha1. destruct Ha1 as (V0 & V1 & V2 & V3).
    apply render_loop_tail in Hrun; try lia. destruct Hrun as [Hkeep _].
    rewrite !Hkeep by lia. auto.
  - destruct (IH (p + 1) (bitpos + bpp s) a1 out' Hbpp ltac:(lia) ltac:(lia)
                ltac:(lia) ltac:(nia) Hrun q ltac:(lia) Hav) as (c & Hc & Hvals).
    exists c. split; [|exact Hvals].
    rewrite <- Hc. f_equal. lia.
Qed.

End PixelLoop.

Section DefinedLoop.

Variables (s : ViewerState) (preset : Preset).
Variables (pixels_available width : Z).
Hypothesis width_range : 1 <= width < 2 ^ 32.
Hypothesis bpp_range : 1 <= bpp s <= 64.
Hypothesis Hdecodable : decodable s preset.

(** The pixel loop runs to its end when the output vector holds four bytes
    for each pixel and the bit cursor of every decoded pixel stays within
    64 bits. *)
Lemma render_loop_defined n :
  forall p bitpos out,
    0 <= p ->
    p + Z.of_nat n < 2 ^ 30 ->
    4 * (p + Z.of_nat n) <= Z.of_nat (length out) ->
    0 <= bitpos ->
    (p < pixels_available -> bitpos + (pixels_available - p) * bpp s <= 2 ^ 63) ->
    (pixels_available <= p -> bitpos < 2 ^ 64) ->
    exists out',
      render_loop s preset (spec_total_bits (data s)) pixels_available width
        n p bitpos out = Ok out'.
Proof.
  induction n as [|n IH]; intros p bitpos out Hp Hn Hlen Hpos Hcur Hdone.
  - simpl; eauto.
  - cbn [render_loop]. cbv zeta.
    rewrite pixel_index by lia.
    rewrite (u32_small (p + 1)) by lia.
    rewrite (u32_small (4 * p)) by lia.
    rewrite load_Ok by lia. cbn [bind].
    destruct (Z.geb_spec p pixels_available) as [Hge|Hlt].
    + destruct (clear_pixel_Ok out (4 * p)) as (out1 & -> & Hlen1); try lia.
      cbn [bind]. apply IH; try lia.
    + destruct (decode_pixel_defined s preset bitpos) as (px & ->);
        try assumption; try nia.
      cbn [bind].
      destruct (store_pixel_Ok out (4 * p) px) as (out1 & -> & Hlen1); try lia.
      cbn [bind].
      rewrite (u64_small (bpp s)) by lia.
      rewrite (u64_small (bitpos + bpp s)) by nia.
      apply IH; try lia; try nia.
Qed.

End DefinedLoop.

Section DefinedLoopAnyWidth.

Variables (s : ViewerState) (preset : Preset).
Variables (pixels_available width : Z).
Hypothesis width_range : 1 <= width < 2 ^ 32.
Hypothesis bpp_range : 1 <= bpp s < 2 ^ 31.
Hypothesis decode_defined :
  forall bitpos, 0 <= bitpos < 2 ^ 64 -> bitpos + bpp s <= 2 ^ 64 ->
    exists px, decode_pixel s preset (spec_total_bits (data s)) bitpos = Ok px.

(** The pixel loop runs to its end for any pixel size that is an [int], as
    long as each pixel can be decoded. *)
Lemma render_loop_defined_any n :
  forall p bitpos out,
    0 <= p ->
    p + Z.of_nat n < 2 ^ 30 ->
    4 * (p + Z.of_nat n) <= Z.of_nat (length out) ->
    0 <= bitpos ->
    (p < pixels_available -> bitpos + (pixels_available - p) * bpp s <= 2 ^ 63) ->
    (pixels_available <= p -> bitpos < 2 ^ 64) ->
    exists out',
      render_loop s preset (spec_total_bits (data s)) pixels_available width
        n p bitpos out = Ok out'.
Proof.
  induction n as [|n IH]; intros p bitpos out Hp Hn Hlen Hpos Hcur Hdone.
  - simpl; eauto.
  - cbn [render_loop]. cbv zeta.
    rewrite pixel_index by lia.
    rewrite (u32_small (p + 1)) by lia.
    rewrite (u32_small (4 * p)) by lia.
    rewrite load_Ok by lia. cbn [bind].
    destruct (Z.geb_spec p pixels_available) as [Hge|Hlt].
    + destruct (clear_pixel_Ok out (4 * p)) as (out1 & -> & Hlen1); try lia.
      cbn [bind]. apply IH; try lia.
    + destruct (decode_defined bitpos) as (px & ->); try nia.
      cbn [bind].
      destruct (store_pixel_Ok out (4 * p) px) as (out1 & -> & Hlen1); try lia.
      cbn [bind].
      rewrite (u64_small (bpp s)) by lia.
      rewrite (u64_small (bitpos + bpp s)) by nia.
      apply IH; try lia; try nia.
Qed.

End DefinedLoopAnyWidth.

(** ** The renderer *)

Lemma width_of_range s : is_int (width_px s) -> 1 <= width_of s < 2 ^ 31.
Proof. unfold is_int, INT_MIN, INT_MAX, width_of; lia. Qed.

(** A call that returns either took one of the two early exits, or ran the
    pixel loop over [r * width] pixels, fewer than [2^30], into a vector of
    four bytes per pixel (a longer run would write outside the vector). *)
Lemma render_viewport_Ok_inv s preset rows px r :
  is_int (width_px s) ->
  render_viewport s preset rows = Ok (px, r) ->
  (px = [] /\ r = 0 /\
   (u64 (spec_total_bits (data s)) <= u64 (start_bit_of s) \/
    u64 (u64 (spec_total_bits (data s)) - u64 (start_bit_of s)) / u64 (bpp s) = 0)) \/
  exists pa,
    let total_bits := u64 (spec_total_bits (data s)) in
    let start_bit := u64 (start_bit_of s) in
    let w := width_of s in
    is_int (start_bit_of s) /\
    start_bit < total_bits /\
    is_int (rows * w) /\
    u64 (bpp s) <> 0 /\
    pa = u64 (total_bits - start_bit) / u64 (bpp s) /\
    pa <> 0 /\
    r = u32 (u32 (Z.min (u32 (rows * w)) (u32 pa) + w) - 1) / w /\
    0 <= r * w < 2 ^ 30 /\
    Z.of_nat (length px) = 4 * (r * w) /\
    render_loop s preset total_bits pa w (Z.to_nat (r * w)) 0 start_bit
      (repeat 0 (Z.to_nat (4 * (r * w)))) = Ok px.
Proof.
  intros Hwidth Hrun. pose proof (width_of_range s Hwidth) as Hw.
  unfold render_viewport in Hrun. cbv zeta in Hrun.
  fold (spec_total_bits (data s)) in Hrun. fold (width_of s) in Hrun.
  bind_inv Hrun. apply int_result_inv in Ha as [-> Hofs].
  bind_inv Hrun. apply int_result_inv in Ha as [-> Hsb].
  fold (start_bit_of s) in *.
  destruct (Z.geb_spec (u64 (start_bit_of s)) (u64 (spec_total_bits (data s))))
    as [Hpast|Hin].
  { inversion Hrun; left; repeat split; auto. }
  bind_inv Hrun. apply int_result_inv in Ha as [-> Hptr].
  bind_inv Hrun. apply u64_div_inv in Ha as [Hbpp ->].
  set (pa := u64 (u64 (spec_total_bits (data s)) - u64 (start_bit_of s)) / u64 (bpp s)) in *.
  destruct (Z.eqb_spec pa 0) as [Hzero|Hpa].
  { inversion Hrun; left; repeat split; auto. }
  bind_inv Hrun. inversion Hrun; subst a r; clear Hrun.
  right. exists pa. cbv zeta.
  rewrite (u32_small (width_of s)) in * by lia.
  set (w := width_of s) in *.
  set (t := u32 (u32 (Z.min (u32 (rows * w)) (u32 pa) + w) - 1)) in *.
  pose proof (u32_range (u32 (Z.min (u32 (rows * w)) (u32 pa) + w) - 1)) as Ht.
  fold t in Ht.
  assert (Hr : 0 <= t / w) by (apply Z.div_pos; lia).
  assert (Hcount : 0 <= t / w * w <= t).
  { pose proof (Z.mul_div_le t w ltac:(lia)). nia. }
  rewrite (u32_small (t / w * w)) in Ha by lia.
  pose proof Ha as Hloop.
  apply render_loop_in_bounds in Ha; try lia.
  destruct Ha as [Hlen Hbounds]. rewrite repeat_length in Hlen, Hbounds.
  assert (Hsmall : t / w * w < 2 ^ 30).
  { destruct (Z.lt_ge_cases (t / w * w) (2 ^ 30)) as [Hlt|Hge]; [exact Hlt|].
    specialize (Hbounds (2 ^ 30 - 1) ltac:(lia)).
    pose proof (u32_range (t / w * w * 4)).
    change (u32 (4 * (2 ^ 30 - 1))) with (2 ^ 32 - 4) in Hbounds. lia. }
  rewrite (u32_small (t / w * w * 4)) in * by lia.
  replace (t / w * w * 4) with (4 * (t / w * w)) in * by lia.
  repeat split; try assumption; try lia; try apply Hsb; try apply Hptr.
Qed.

(** The first early exit: the start bit, converted to [size_t], is at or
    past the end of the buffer.  A negative start bit converts to a value
    above any buffer size. *)
Lemma render_viewport_start_past_end s preset rows :
  is_int (stofs s * 8) ->
  is_int (start_bit_of s) ->
  spec_total_bits (data s) < 2 ^ 63 ->
  start_bit_of s < 0 \/ spec_total_bits (data s) <= start_bit_of s ->
  render_viewport s preset rows = Ok ([], 0).
Proof.
  unfold is_int, INT_MIN, INT_MAX.
  intros Hofs Hsb Hlen Hpast.
  assert (Htot : 0 <= spec_total_bits (data s)) by (unfold spec_total_bits; lia).
  unfold render_viewport. cbv zeta.
  fold (spec_total_bits (data s)). fold (width_of s).
  unfold int_mul, int_add. rewrite int_result_Ok by exact Hofs. cbn [bind].
  fold (start_bit_of s). rewrite int_result_Ok by exact Hsb. cbn [bind].
  rewrite (u64_small (spec_total_bits (data s))) by lia.
  destruct (Z.geb_spec (u64 (start_bit_of s)) (spec_total_bits (data s)))
    as [_|Hin]; [reflexivity|].
  exfalso. unfold u64 in Hin. destruct Hpast as [Hneg|Hge].
  - rewrite <- (Z.mod_add _ 1) in Hin by lia.
    rewrite Z.mod_small in Hin by lia. lia.
  - rewrite Z.mod_small in Hin by lia. lia.
Qed.

(** The second early exit: fewer bits are left than one pixel takes.
    [bpp] is any nonzero [int]; the division is the unsigned 64-bit one of
    the code. *)
Lemma render_viewport_no_whole_pixel s preset rows :
  is_int (stofs s * 8) ->
  is_int (start_bit_of s) ->
  is_int (rows * width_of s) ->
  is_int (bpp s) ->
  bpp s <> 0 ->
  spec_total_bits (data s) < 2 ^ 63 ->
  0 <= start_bit_of s < spec_total_bits (data s) ->
  (spec_total_bits (data s) - start_bit_of s) / u64 (bpp s) = 0 ->
  render_viewport s preset rows = Ok ([], 0).
Proof.
  unfold is_int, INT_MIN, INT_MAX.
  intros Hofs Hsb Hptr Hbpp Hnz Hlen Hstart Hquot.
  unfold render_viewport. cbv zeta.
  fold (spec_total_bits (data s)). fold (width_of s).
  unfold int_mul, int_add. rewrite int_result_Ok by exact Hofs. cbn [bind].
  fold (start_bit_of s). rewrite int_result_Ok by exact Hsb. cbn [bind].
  rewrite (u64_small (spec_total_bits (data s))) by lia.
  rewrite (u64_small (start_bit_of s)) by lia.
  destruct (Z.geb_spec (start_bit_of s) (spec_total_bits (data s)))
    as [Hpast|_]; [lia|].
  rewrite int_result_Ok by exact Hptr. cbn [bind].
  assert (Hdiv : u64 (bpp s) <> 0).
  { unfold u64. destruct (Z.lt_ge_cases (bpp s) 0).
    - rewrite <- (Z.mod_add _ 1) by lia. rewrite Z.mod_small by lia. lia.
    - rewrite Z.mod_small by lia. lia. }
  rewrite u64_div_Ok by exact Hdiv. cbn [bind].
  rewrite (u64_small (spec_total_bits (data s) - start_bit_of s)) by lia.
  rewrite Hquot. reflexivity.
Qed.

(** A call within the ranges of [in_range_call] on a [decodable]
    configuration returns. *)
Lemma render_viewport_defined s preset rows :
  1 <= bpp s <= 64 ->
  in_range_call s rows ->
  decodable s preset ->
  exists px r, render_viewport s preset rows = Ok (px, r).
Proof.
  intros Hbpp (Hofs & Hsb & Hwidth & Hrows & Hsize & Hlen) Hdec.
  pose proof (width_of_range s Hwidth) as Hw.
  unfold is_int, INT_MIN, INT_MAX in Hofs, Hsb, Hwidth.
  assert (Htot : 0 <= spec_total_bits (data s)) by (unfold spec_total_bits; lia).
  unfold render_viewport. cbv zeta.
  fold (spec_total_bits (data s)). fold (width_of s).
  unfold int_mul, int_add. rewrite int_result_Ok by exact Hofs. cbn [bind].
  fold (start_bit_of s). rewrite int_result_Ok by exact Hsb. cbn [bind].
  rewrite (u64_small (spec_total_bits (data s))) by lia.
  destruct (Z.geb_spec (u64 (start_bit_of s)) (spec_total_bits (data s)))
    as [Hpast|Hin]; [eauto|].
  assert (Hpos : 0 <= start_bit_of s).
  { destruct (Z.lt_ge_cases (start_bit_of s) 0) as [Hneg|]; [|assumption].
    exfalso. unfold u64 in Hin.
    rewrite <- (Z.mod_add _ 1) in Hin by lia.
    rewrite Z.mod_small in Hin by lia. lia. }
  rewrite (u64_small (start_bit_of s)) in * by lia.
  set (w := width_of s) in *.
  rewrite int_result_Ok by (unfold is_int, INT_MIN, INT_MAX; nia). cbn [bind].
  rewrite (u64_small (bpp s)) by lia.
  rewrite u64_div_Ok by lia. cbn [bind].
  rewrite (u64_small (spec_total_bits (data s) - start_bit_of s)) by lia.
  set (pa := (spec_total_bits (data s) - start_bit_of s) / bpp s).
  destruct (Z.eqb_spec pa 0) as [Hzero|Hpa]; [eauto|].
  assert (Hpa_pos : 0 <= pa) by (apply Z.div_pos; lia).
  assert (Hpa_bits : pa * bpp s <= spec_total_bits (data s) - start_bit_of s).
  { pose proof (Z.mul_div_le (spec_total_bits (data s) - start_bit_of s) (bpp s)
                  ltac:(lia)). fold pa in H. lia. }
  rewrite (u32_small w) by lia.
  rewrite (u32_small (rows * w)) by nia.
  pose proof (u32_range pa) as Hupa.
  set (actual := Z.min (rows * w) (u32 pa)).
  assert (Hactual : 0 <= actual <= rows * w) by (unfold actual; nia).
  rewrite (u32_small (actual + w)) by lia.
  rewrite (u32_small (actual + w - 1)) by lia.
  set (r := (actual + w - 1) / w).
  assert (Hr : 0 <= r) by (apply Z.div_pos; lia).
  assert (Hrw : r * w <= actual + w - 1).
  { pose proof (Z.mul_div_le (actual + w - 1) w ltac:(lia)). fold r in H. lia. }
  assert (Hcount : 0 <= r * w <= rows * w).
  { split; [nia|].
    assert (r <= rows); [|nia].
    apply Z.lt_succ_r. apply Z.div_lt_upper_bound; nia. }
  rewrite (u32_small (r * w)) by lia.
  rewrite (u32_small (r * w * 4)) by lia.
  destruct (render_loop_defined s preset pa w ltac:(lia) Hbpp Hdec
              (Z.to_nat (r * w)) 0 (start_bit_of s)
              (repeat 0 (Z.to_nat (r * w * 4))))
    as (out' & ->); try lia; try nia.
  - rewrite repeat_length. lia.
  - cbn [bind]. eauto.
Qed.

(** A call on a non-empty window within the ranges of [in_range_call]
    returns for any pixel size that is a positive [int], as long as each
    pixel can be decoded; the row count and the size of the raster follow
    the pixel size as it is given. *)
Lemma render_viewport_any_bpp s preset rows :
  1 <= bpp s ->
  is_int (bpp s) ->
  in_range_call s rows ->
  (forall bitpos, 0 <= bitpos < 2 ^ 64 -> bitpos + bpp s <= 2 ^ 64 ->
     exists px, decode_pixel s preset (spec_total_bits (data s)) bitpos = Ok px) ->
  0 <= start_bit_of s < spec_total_bits (data s) ->
  0 < pixels_available_of s < 2 ^ 32 ->
  exists px r,
    render_viewport s preset rows = Ok (px, r) /\
    r = (Z.min (rows * width_of s) (pixels_available_of s) + width_of s - 1)
          / width_of s /\
    Z.of_nat (length px) = r * width_of s * 4.
Proof.
  intros Hb1 Hbint (Hofs & Hsb & Hwidth & Hrows & Hsize & Hlen) Hdec Hstart Hpa.
  pose proof (width_of_range s Hwidth) as Hw.
  unfold is_int, INT_MIN, INT_MAX in Hofs, Hsb, Hbint.
  unfold pixels_available_of in *.
  assert (Hrun : exists px r, render_viewport s preset rows = Ok (px, r)).
  { unfold render_viewport. cbv zeta.
    fold (spec_total_bits (data s)). fold (width_of s).
    unfold int_mul, int_add. rewrite int_result_Ok by exact Hofs. cbn [bind].
    fold (start_bit_of s). rewrite int_result_Ok by exact Hsb. cbn [bind].
    rewrite (u64_small (spec_total_bits (data s))) by lia.
    rewrite (u64_small (start_bit_of s)) by lia.
    destruct (Z.geb_spec (start_bit_of s) (spec_total_bits (data s)))
      as [Hpast|_]; [lia|].
    set (w := width_of s) in *.
    rewrite int_result_Ok by (unfold is_int, INT_MIN, INT_MAX; nia). cbn [bind].
    rewrite (u64_small (bpp s)) by lia.
    rewrite u64_div_Ok by lia. cbn [bind].
    rewrite (u64_small (spec_total_bits (data s) - start_bit_of s)) by lia.
    set (pa := (spec_total_bits (data s) - start_bit_of s) / bpp s) in *.
    destruct (Z.eqb_spec pa 0) as [Hzero|_]; [lia|].
    assert (Hpa_bits : pa * bpp s <= spec_total_bits (data s) - start_bit_of s).
    { pose proof (Z.mul_div_le (spec_total_bits (data s) - start_bit_of s) (bpp s)
                    ltac:(lia)) as H. fold pa in H. lia. }
    rewrite (u32_small w) by lia.
    rewrite (u32_small (rows * w)) by nia.
    rewrite (u32_small pa) by lia.
    set (actual := Z.min (rows * w) pa).
    assert (Hactual : 0 <= actual <= rows * w) by (unfold actual; nia).
    rewrite (u32_small (actual + w)) by lia.
    rewrite (u32_small (actual + w - 1)) by lia.
    set (r := (actual + w - 1) / w).
    assert (Hr : 0 <= r) by (apply Z.div_pos; lia).
    assert (Hrw : r * w <= actual + w - 1).
    { pose proof (Z.mul_div_le (actual + w - 1) w ltac:(lia)) as H. fold r in H. lia. }
    assert (Hcount : 0 <= r * w <= rows * w).
    { split; [nia|].
      assert (r <= rows); [|nia].
      apply Z.lt_succ_r. apply Z.div_lt_upper_bound; nia. }
    rewrite (u32_small (r * w)) by lia.
    rewrite (u32_small (r * w * 4)) by lia.
    destruct (render_loop_defined_any s preset pa w ltac:(lia) ltac:(lia) Hdec
                (Z.to_nat (r * w)) 0 (start_bit_of s)
                (repeat 0 (Z.to_nat (r * w * 4))))
      as (out' & ->); try lia; try nia.
    - rewrite repeat_length. lia.
    - cbn [bind]. eauto. }
  destruct Hrun as (px & r & Hrun). exists px, r. split; [exact Hrun|].
  apply render_viewport_Ok_inv in Hrun; [|assumption].
  set (total := spec_total_bits (data s)) in *.
  set (start := start_bit_of s) in *.
  set (w := width_of s) in *.
  rewrite (u64_small total), (u64_small start), (u64_small (bpp s)),
    (u64_small (total - start)) in Hrun by lia.
  set (pa := (total - start) / bpp s) in *.
  destruct Hrun as [(_ & _ & [Hexit|Hexit]) | (pa' & H)]; try lia.
  cbv zeta in H.
  destruct H as (_ & _ & Hptr & _ & -> & _ & Hr & Hcount & Hlenpx & _).
  unfold is_int, INT_MIN, INT_MAX in Hptr.
  assert (0 <= rows * w) by nia.
  rewrite (u64_small (total - start)) in Hr by lia. fold pa in Hr.
  rewrite (u32_small (rows * w)), (u32_small pa) in Hr by lia.
  rewrite (u32_small (Z.min (rows * w) pa + w)),
    (u32_small (Z.min (rows * w) pa + w - 1)) in Hr by lia.
  split; [exact Hr | lia].
Qed.

(** What C6 states holds while the start bit is computed without overflow:
    for a configuration with [bits_per_pixel] in [1,64] whose [stofs * 8]
    and start bit fit an [int], [render_viewport] returns the empty raster
    with [rows_rendered = 0], a normal outcome, if the start bit is at or
    past [total_bits] (for every requested row count), and if the quotient
    [(total_bits - start_bit) / bits_per_pixel] is 0. *)
Theorem render_viewport_empty_result s preset rows :
  1 <= bpp s <= 64 ->
  is_int (stofs s * 8) ->
  is_int (start_bit_of s) ->
  spec_total_bits (data s) < 2 ^ 63 ->
  (spec_total_bits (data s) <= start_bit_of s ->
   render_viewport s preset rows = Ok ([], 0)) /\
  (is_int (rows * width_of s) -> pixels_available_of s = 0 ->
   render_viewport s preset rows = Ok ([], 0)).
Proof.
  intros Hbpp Hofs Hsb Hlen; split.
  - intros Hpast. apply render_viewport_start_past_end; auto.
  - intros Hptr Hzero.
    destruct (Z.lt_ge_cases (start_bit_of s) 0) as [Hneg|Hpos];
      [apply render_viewport_start_past_end; auto|].
    destruct (Z.le_gt_cases (spec_total_bits (data s)) (start_bit_of s)) as [Hge|Hlt];
      [apply render_viewport_start_past_end; auto|].
    apply render_viewport_no_whole_pixel; try assumption; try lia.
    + unfold is_int, INT_MIN, INT_MAX; lia.
    + rewrite u64_small by lia. exact Hzero.
Qed.

Lemma render_viewport_empty_result_witness :
  render_viewport (viewer_state [1; 2; 3] 3 16 24 0 true false) (preset_at 15) 5 =
    Ok ([], 0) /\
  render_viewport (viewer_state [1; 2; 3] 2 16 24 3 true false) (preset_at 15) 5 =
    Ok ([], 0).
Proof.
  split.
  - destruct (render_viewport_empty_result
                (viewer_state [1; 2; 3] 3 16 24 0 true false) (preset_at 15) 5)
      as [Hpast _]; [by_evaluation .. |].
    apply Hpast; by_evaluation.
  - destruct (render_viewport_empty_result
                (viewer_state [1; 2; 3] 2 16 24 3 true false) (preset_at 15) 5)
      as [_ Hzero]; [by_evaluation .. |].
    apply Hzero; by_evaluation.
Defined.

(** A byte offset from [2^28] on overflows the [int] product [s.stofs * 8]
    of line 141, whatever the buffer: the start bit is converted to
    [size_t] only after it has been computed. *)
Lemma render_viewport_offset_overflows s preset rows :
  ~ is_int (stofs s * 8) ->
  render_viewport s preset rows = Undefined SignedOverflow.
Proof.
  intros Hofs. unfold render_viewport, int_mul, int_result, fits_int. cbv zeta.
  destruct (Z.leb_spec INT_MIN (stofs s * 8)); destruct (Z.leb_spec (stofs s * 8) INT_MAX);
    cbn [andb bind]; try reflexivity.
  exfalso. apply Hofs. split; assumption.
Qed.

(** C6 (the code at the failing input): with a one-byte buffer and a byte
    offset of [2^29] the start bit, [2^32], is past [total_bits = 8], and
    [render_viewport] does not return the empty raster: [s.stofs * 8] is
    computed on [int] and overflows before the conversion to [size_t].
    [total_bits], next to it, is computed on [size_t]. *)
Theorem render_viewport_start_bit_overflows :
  spec_total_bits (data (viewer_state [1] (2 ^ 29) 1 8 0 true false)) <=
    start_bit_of (viewer_state [1] (2 ^ 29) 1 8 0 true false) /\
  render_viewport (viewer_state [1] (2 ^ 29) 1 8 0 true false) (preset_at 3) 1 =
    Undefined SignedOverflow.
Proof. split; [vm_compute; discriminate | vm_compute; reflexivity]. Qed.

(** C2 (as amended): [render_viewport] does not validate [bits_per_pixel];
    a nonzero value outside [1,64] is used as it is given, converted to
    unsigned 64-bit for the division.  While the [int] arithmetic of the
    call does not overflow: an empty window gives the empty raster with
    [rows_rendered = 0], exactly as for a value in range; a negative value
    always does; and a value above 64, on a configuration of
    [decodable_above_64] with at least one pixel available, renders the
    rows that the formula of the in-range case gives for it, at least one,
    into a raster of four bytes per pixel. *)
Theorem render_viewport_bpp_not_validated s preset rows :
  bpp s < 0 \/ 64 < bpp s ->
  is_int (bpp s) ->
  is_int (stofs s * 8) ->
  is_int (start_bit_of s) ->
  is_int (rows * width_of s) ->
  spec_total_bits (data s) < 2 ^ 63 ->
  (spec_total_bits (data s) <= start_bit_of s \/
   (spec_total_bits (data s) - start_bit_of s) / u64 (bpp s) = 0 ->
   render_viewport s preset rows = Ok ([], 0)) /\
  (bpp s < 0 -> render_viewport s preset rows = Ok ([], 0)) /\
  (64 < bpp s ->
   decodable_above_64 s preset ->
   is_int (width_px s) ->
   1 <= rows ->
   rows * width_of s < 2 ^ 30 ->
   0 <= start_bit_of s < spec_total_bits (data s) ->
   1 <= pixels_available_of s < 2 ^ 32 ->
   exists px r,
     render_viewport s preset rows = Ok (px, r) /\
     r = (Z.min (rows * width_of s) (pixels_available_of s) + width_of s - 1)
           / width_of s /\
     1 <= r /\
     Z.of_nat (length px) = r * width_of s * 4).
Proof.
  intros Hout Hbpp Hofs Hsb Hptr Hlen.
  assert (Hcases : forall P : Prop,
             (start_bit_of s < 0 \/ spec_total_bits (data s) <= start_bit_of s -> P) ->
             (0 <= start_bit_of s < spec_total_bits (data s) -> P) -> P)
    by (intros P H1 H2; destruct (Z.lt_ge_cases (start_bit_of s) 0);
        destruct (Z.le_gt_cases (spec_total_bits (data s)) (start_bit_of s));
        auto; apply H2; lia).
  split; [|split].
  - intros Hwin. apply Hcases; intros Hstart.
    + apply render_viewport_start_past_end; auto.
    + apply render_viewport_no_whole_pixel; try assumption; lia.
  - intros Hneg. apply Hcases; intros Hstart.
    + apply render_viewport_start_past_end; auto.
    + apply render_viewport_no_whole_pixel; try assumption; try lia.
      apply Z.div_small.
      unfold is_int, INT_MIN, INT_MAX in Hbpp. unfold u64.
      rewrite <- (Z.mod_add _ 1) by lia. rewrite Z.mod_small by lia. lia.
  - intros Hwide Hdec Hwidth Hrows Hsize Hstart Hpa.
    pose proof (width_of_range s Hwidth) as Hw.
    destruct (render_viewport_any_bpp s preset rows) as (px & r & Hrun & Hr & Hpx);
      try assumption; try lia.
    + unfold in_range_call. repeat split; try assumption; try apply Hofs;
        try apply Hsb; try apply Hwidth; lia.
    + intros bitpos Hpos Hend.
      apply decode_pixel_defined_above_64; assumption.
    + exists px, r. split; [exact Hrun|]. split; [exact Hr|]. split; [|exact Hpx].
      rewrite Hr. apply Z.div_le_lower_bound; lia.
Qed.

Lemma render_viewport_bpp_not_validated_witness :
  render_viewport (viewer_state [1; 2; 3; 4; 5; 6; 7; 8] 0 16 65 0 true false)
    (preset_at 3) 5 = Ok ([], 0) /\
  render_viewport (viewer_state [1; 2; 3; 4; 5; 6; 7; 8] 0 16 (-8) 0 true false)
    (preset_at 3) 5 = Ok ([], 0) /\
  exists px r,
    render_viewport
      (viewer_state [255; 255; 255; 255; 255; 255; 255; 255; 255; 1; 2; 3; 4; 5; 6; 7; 8]
         0 2 65 0 true false)
      (preset_at 3) 5 = Ok (px, r) /\
    r = 1 /\
    Z.of_nat (length px) = 8.
Proof.
  split; [|split].
  - destruct (render_viewport_bpp_not_validated
                (viewer_state [1; 2; 3; 4; 5; 6; 7; 8] 0 16 65 0 true false)
                (preset_at 3) 5)
      as [Hwin _]; [right; by_evaluation | by_evaluation .. |].
    apply Hwin. right; by_evaluation.
  - destruct (render_viewport_bpp_not_validated
                (viewer_state [1; 2; 3; 4; 5; 6; 7; 8] 0 16 (-8) 0 true false)
                (preset_at 3) 5)
      as (_ & Hneg & _); [left; by_evaluation | by_evaluation .. |].
    apply Hneg; by_evaluation.
  - destruct (render_viewport_bpp_not_validated
                (viewer_state
                   [255; 255; 255; 255; 255; 255; 255; 255; 255; 1; 2; 3; 4; 5; 6; 7; 8]
                   0 2 65 0 true false)
                (preset_at 3) 5)
      as (_ & _ & Hwide); [right; by_evaluation | by_evaluation .. |].
    destruct Hwide as (px & r & Hrun & Hr & _ & Hpx).
    + by_evaluation.
    + repeat split; [by_evaluation .. | repeat constructor].
    + by_evaluation.
    + by_evaluation.
    + by_evaluation.
    + by_evaluation.
    + by_evaluation.
    + exists px, r. split; [exact Hrun|]. split; [exact Hr|].
      rewrite Hpx, Hr. reflexivity.
Defined.

(** C2 fails as stated: with [bits_per_pixel = 65] and nine bytes of data
    [render_viewport] returns a raster of one row, and with
    [bits_per_pixel = 0] it divides by zero. *)
Lemma render_viewport_bpp_65_renders :
  render_viewport
    (viewer_state [255; 255; 255; 255; 255; 255; 255; 255; 255] 0 1 65 0 true false)
    (preset_at 3) 1 = Ok ([0; 0; 0; 255], 1) /\
  render_viewport
    (viewer_state [255; 255; 255; 255; 255; 255; 255; 255; 255] 0 1 0 0 true false)
    (preset_at 3) 1 = Undefined DivisionByZero.
Proof. split; vm_compute; reflexivity. Qed.

(** What C10 states holds for every call that returns: the output vector
    holds exactly [rows_rendered * max(1, row_width_px) * 4] bytes, and it
    is empty when [rows_rendered = 0]; and the call does return for every
    [bits_per_pixel] in [1,64] on a decodable configuration within the
    ranges of [in_range_call]. *)
Theorem render_viewport_output_length s preset rows :
  is_int (width_px s) ->
  (forall px r,
      render_viewport s preset rows = Ok (px, r) ->
      Z.of_nat (length px) = r * Z.max 1 (width_px s) * 4 /\ (r = 0 -> px = [])) /\
  (1 <= bpp s <= 64 -> in_range_call s rows -> decodable s preset ->
   exists px r, render_viewport s preset rows = Ok (px, r)).
Proof.
  intros Hwidth; split.
  - intros px r Hrun.
    apply render_viewport_Ok_inv in Hrun; [|assumption].
    destruct Hrun as [(-> & -> & _) | (pa & H)].
    + split; reflexivity.
    + cbv zeta in H. destruct H as (_ & _ & _ & _ & _ & _ & _ & _ & Hlen & _).
      fold (width_of s). split; [lia|].
      intros ->. destruct px; [reflexivity | simpl in Hlen; lia].
  - apply render_viewport_defined.
Qed.

Lemma render_viewport_output_length_witness :
  exists px r,
    render_viewport (viewer_state [1; 2; 3; 4; 5] 1 3 8 0 false true) (preset_at 4) 7 =
      Ok (px, r) /\
    Z.of_nat (length px) = r * Z.max 1 3 * 4.
Proof.
  destruct (render_viewport_output_length
              (viewer_state [1; 2; 3; 4; 5] 1 3 8 0 false true) (preset_at 4) 7)
    as [Hlen Hdef]; [by_evaluation|].
  destruct Hdef as (px & r & Hrun).
  - by_evaluation.
  - repeat split; by_evaluation.
  - repeat split; [right; by_evaluation | right; by_evaluation |].
    repeat constructor; by_evaluation.
  - exists px, r. split; [exact Hrun | apply (Hlen px r Hrun)].
Defined.

(** With exactly [2^30] pixels to render, all of them available, the byte
    count [rows_needed * width * 4] of line 158 is computed in [uint32_t]
    and wraps to 0: the vector is empty and the first pixel is written
    outside it. *)
Lemma render_viewport_2_30_pixels s preset rows :
  is_int (stofs s * 8) ->
  is_int (start_bit_of s) ->
  is_int (width_px s) ->
  is_int (bpp s) ->
  1 <= bpp s ->
  0 <= start_bit_of s < spec_total_bits (data s) ->
  spec_total_bits (data s) < 2 ^ 63 ->
  rows * width_of s = 2 ^ 30 ->
  2 ^ 30 <= pixels_available_of s < 2 ^ 32 ->
  render_viewport s preset rows = Undefined OutOfBounds.
Proof.
  intros Hofs Hsb Hwidth Hbpp Hb1 Hstart Hlen Hreq Hpa.
  pose proof (width_of_range s Hwidth) as Hw.
  unfold is_int, INT_MIN, INT_MAX in Hofs, Hsb, Hbpp.
  unfold pixels_available_of in Hpa.
  unfold render_viewport. cbv zeta.
  fold (spec_total_bits (data s)). fold (width_of s).
  unfold int_mul, int_add. rewrite int_result_Ok by exact Hofs. cbn [bind].
  fold (start_bit_of s). rewrite int_result_Ok by exact Hsb. cbn [bind].
  rewrite (u64_small (spec_total_bits (data s))) by lia.
  rewrite (u64_small (start_bit_of s)) by lia.
  destruct (Z.geb_spec (start_bit_of s) (spec_total_bits (data s))) as [Hge|_]; [lia|].
  rewrite Hreq.
  rewrite int_result_Ok by (unfold is_int, INT_MIN, INT_MAX; lia). cbn [bind].
  rewrite (u64_small (bpp s)) by lia.
  rewrite u64_div_Ok by lia. cbn [bind].
  rewrite (u64_small (spec_total_bits (data s) - start_bit_of s)) by lia.
  set (pa := (spec_total_bits (data s) - start_bit_of s) / bpp s) in *.
  destruct (Z.eqb_spec pa 0) as [Hzero|_]; [lia|].
  set (w := width_of s) in *.
  rewrite (u32_small w) by lia.
  rewrite (u32_small (2 ^ 30)) by lia.
  rewrite (u32_small pa) by lia.
  rewrite (Z.min_l (2 ^ 30) pa) by lia.
  rewrite (u32_small (2 ^ 30 + w)) by lia.
  rewrite (u32_small (2 ^ 30 + w - 1)) by lia.
  assert (Hrows : (2 ^ 30 + w - 1) / w = rows).
  { symmetry. apply (Z.div_unique _ _ _ (w - 1)); lia. }
  rewrite Hrows, Hreq.
  rewrite (u32_small (2 ^ 30)) by lia.
  replace (u32 (2 ^ 30 * 4)) with 0 by reflexivity.
  replace (Z.to_nat (2 ^ 30)) with (S (Z.to_nat (2 ^ 30 - 1)))
    by (rewrite <- Z2Nat.inj_succ by lia; f_equal).
  cbn [render_loop]. cbv zeta.
  change (Z.to_nat 0) with 0%nat. cbn [repeat].
  unfold load at 1. cbn [length Z.of_nat].
  rewrite (proj2 (Z.ltb_ge _ 0)) by apply u32_range.
  rewrite andb_false_r. reflexivity.
Qed.

(** C10 (the code at the failing input): a buffer of [2^27] bytes shown at 1
    bit per pixel with a width of [2^21] and 512 requested rows has [2^30]
    pixels to render, and [render_viewport] does not return a raster of
    [512 * 2^21 * 4] bytes: the byte count wraps to 0 in [uint32_t], the
    vector is empty, and the write of the first pixel is outside it. *)
Theorem render_viewport_raster_size_wraps :
  render_viewport
    (viewer_state (repeat 0 (Z.to_nat (2 ^ 27))) 0 (2 ^ 21) 1 0 true false)
    (preset_at 0) 512 = Undefined OutOfBounds.
Proof.
  assert (Htotal : spec_total_bits (repeat 0 (Z.to_nat (2 ^ 27))) = 2 ^ 30).
  { unfold spec_total_bits. rewrite repeat_length, Z2Nat.id by lia. reflexivity. }
  apply render_viewport_2_30_pixels;
    unfold pixels_available_of, start_bit_of, width_of, is_int, INT_MIN, INT_MAX;
    cbn [viewer_state data stofs bit_align width_px bpp];
    rewrite ?Htotal; try lia.
  rewrite Z.div_1_r. lia.
Qed.

(** C7 (as amended): when the requested pixels exceed the available ones, on
    a decodable configuration within the ranges of [in_range_call],
    [render_viewport] returns, [rows_rendered] is the ceiling of
    [min(requested_rows * width, pixels_available) / width], it is at most
    [requested_rows], and every pixel of the raster at a linear index at or
    past [pixels_available] has its four bytes equal to 0. *)
Theorem render_viewport_clipped_rows s preset rows :
  1 <= bpp s <= 64 ->
  in_range_call s rows ->
  decodable s preset ->
  0 <= start_bit_of s < spec_total_bits (data s) ->
  0 < pixels_available_of s ->
  pixels_available_of s < rows * width_of s ->
  exists px r,
    render_viewport s preset rows = Ok (px, r) /\
    r = (Z.min (rows * width_of s) (pixels_available_of s) + width_of s - 1)
          / width_of s /\
    (r - 1) * width_of s < Z.min (rows * width_of s) (pixels_available_of s)
      <= r * width_of s /\
    r <= rows /\
    (forall q j,
        pixels_available_of s <= q < r * width_of s -> 0 <= j < 4 ->
        nth_error px (Z.to_nat (4 * q + j)) = Some 0).
Proof.
  intros Hbpp Hcall Hdec Hstart Hpa Hreq.
  destruct (render_viewport_defined s preset rows Hbpp Hcall Hdec) as (px & r & Hrun).
  exists px, r. split; [exact Hrun|].
  destruct Hcall as (_ & _ & Hwidth & _ & _ & Hlen).
  pose proof (width_of_range s Hwidth) as Hw.
  apply render_viewport_Ok_inv in Hrun; [|assumption].
  unfold pixels_available_of in *.
  set (total := spec_total_bits (data s)) in *.
  set (start := start_bit_of s) in *.
  set (w := width_of s) in *.
  rewrite (u64_small total), (u64_small start), (u64_small (bpp s)),
    (u64_small (total - start)) in Hrun by lia.
  set (pa := (total - start) / bpp s) in *.
  destruct Hrun as [(_ & _ & [Hexit|Hexit]) | (pa' & H)]; try lia.
  cbv zeta in H.
  destruct H as (_ & _ & Hptr & _ & -> & _ & Hr & Hcount & Hsize & Hloop).
  unfold is_int, INT_MIN, INT_MAX in Hptr.
  rewrite (u32_small (rows * w)), (u32_small pa) in Hr by lia.
  rewrite (Z.min_r (rows * w) pa) in * by lia.
  rewrite (u32_small (pa + w)), (u32_small (pa + w - 1)) in Hr by lia.
  pose proof (Z.mul_div_le (pa + w - 1) w ltac:(lia)) as Hfloor.
  pose proof (Z.mul_succ_div_gt (pa + w - 1) w ltac:(lia)) as Hnext.
  rewrite <- Hr in Hfloor, Hnext.
  split; [exact Hr|]. split; [nia|]. split; [nia|].
  intros q j Hq Hj.
  apply render_loop_tail in Hloop; try lia.
  destruct Hloop as [_ Htail]. apply Htail; lia.
Qed.

Lemma render_viewport_clipped_rows_witness :
  exists px r,
    render_viewport (viewer_state [7; 8; 9; 10; 11] 0 4 8 0 true false) (preset_at 3) 3 =
      Ok (px, r) /\
    r = 2 /\
    nth_error px (Z.to_nat (4 * 5 + 0)) = Some 0 /\
    nth_error px (Z.to_nat (4 * 7 + 3)) = Some 0.
Proof.
  destruct (render_viewport_clipped_rows
              (viewer_state [7; 8; 9; 10; 11] 0 4 8 0 true false) (preset_at 3) 3)
    as (px & r & Hrun & Hr & _ & _ & Hzero).
  - by_evaluation.
  - repeat split; by_evaluation.
  - repeat split; [left; by_evaluation | left; by_evaluation |].
    repeat constructor; by_evaluation.
  - by_evaluation.
  - by_evaluation.
  - by_evaluation.
  - exists px, r. split; [exact Hrun|]. split; [exact Hr|].
    assert (Hr2 : r = 2) by exact Hr.
    split; apply Hzero; rewrite ?Hr2; by_evaluation.
Defined.

(** C7 fails as stated: with width 4, one requested row and three pixels
    available, the requested pixels exceed the available ones and
    [rows_rendered] is 1, the requested row count itself. *)
Lemma render_viewport_rows_not_strictly_less :
  render_viewport (viewer_state [1; 2; 3] 0 4 8 0 true false) (preset_at 3) 1 =
    Ok ([1; 1; 1; 255;  2; 2; 2; 255;  3; 3; 3; 255;  0; 0; 0; 0], 1) /\
  pixels_available_of (viewer_state [1; 2; 3] 0 4 8 0 true false) = 3 /\
  1 * width_of (viewer_state [1; 2; 3] 0 4 8 0 true false) = 4.
Proof. repeat split. Qed.

(** ** The grayscale scenario *)

(** C4 (as amended): the 2-byte buffer [0b10110100, 0b00000000] rendered
    with 4 bits per pixel, MSB_FIRST, start bit 0, the 4-bit grayscale
    preset, width 4 and 1 requested row gives one row of four pixels
    (187,187,187), (68,68,68), (0,0,0), (0,0,0) with alpha 255, under either
    byte order. *)
Theorem render_grayscale_4bit_scenario (le : bool) :
  render_viewport (viewer_state [180; 0] 0 4 4 0 true le) (preset_at 1) 1 =
  Ok ([187; 187; 187; 255;  68; 68; 68; 255;  0; 0; 0; 255;  0; 0; 0; 255], 1).
Proof. destruct le; vm_compute; reflexivity. Qed.

(** C4 fails as stated: the second pixel is (68,68,68), the rounded value
    of 4 * 255 / 15, and not (69,69,69). *)
Lemma render_grayscale_4bit_not_69 :
  ~ (exists le rows,
       render_viewport (viewer_state [180; 0] 0 4 4 0 true le) (preset_at 1) 1 =
       Ok ([187; 187; 187; 255;  69; 69; 69; 255;  0; 0; 0; 255;  0; 0; 0; 255], rows)).
Proof. intros (le & rows & H). destruct le; vm_compute in H; discriminate H. Qed.

(** The 4-byte buffer [0xFF, 0x00, 0xFF, 0x00] rendered with 8 bits per
    pixel, MSB_FIRST, big-endian, start bit 0, the 8-bit grayscale preset,
    width 2 and 2 requested rows gives two rows of pixels
    (255,255,255,255), (0,0,0,255), (255,255,255,255), (0,0,0,255). *)
Theorem render_grayscale_8bit_scenario :
  render_viewport (viewer_state [255; 0; 255; 0] 0 2 8 0 true false) (preset_at 3) 2 =
  Ok ([255; 255; 255; 255;  0; 0; 0; 255;  255; 255; 255; 255;  0; 0; 0; 255], 2).
Proof. vm_compute; reflexivity. Qed.

(** The 16-bit pixel word [0b1111100000011111] decomposed with the
    R5-G6-B5 preset gives red 255, green 0 and blue 255, and alpha keeps its
    default 255. *)
Theorem decode_fields_rgb565_scenario :
  decode_fields 63519 (fields (preset_at 9)) 16
    {| red := 255; green := 255; blue := 255; alpha := 255 |} =
  Ok {| red := 255; green := 0; blue := 255; alpha := 255 |}.
Proof. vm_compute; reflexivity. Qed.

(** X3: every pixel of the returned raster before [pixels_available] is the
    decoding of the [bpp] bits at [start_bit + p * bpp]: its four bytes are
    the red, green, blue and alpha channels that the reader, the endianness
    adjustment and the field decomposition give there. *)
Theorem render_viewport_decoded_pixels s preset rows px r :
  is_int (width_px s) ->
  1 <= bpp s <= 64 ->
  spec_total_bits (data s) < 2 ^ 63 ->
  0 <= start_bit_of s ->
  render_viewport s preset rows = Ok (px, r) ->
  forall p, 0 <= p < r * width_of s -> p < pixels_available_of s ->
    exists c,
      decode_pixel s preset (spec_total_bits (data s))
        (start_bit_of s + p * bpp s) = Ok c /\
      nth_error px (Z.to_nat (4 * p)) = Some (red c) /\
      nth_error px (Z.to_nat (4 * p + 1)) = Some (green c) /\
      nth_error px (Z.to_nat (4 * p + 2)) = Some (blue c) /\
      nth_error px (Z.to_nat (4 * p + 3)) = Some (alpha c).
Proof.
  intros Hwidth Hbpp Hlen Hstart Hrun p Hp Hav.
  pose proof (width_of_range s Hwidth) as Hw.
  assert (Htot : 0 <= spec_total_bits (data s)) by (unfold spec_total_bits; lia).
  apply render_viewport_Ok_inv in Hrun; [|assumption].
  destruct Hrun as [(_ & -> & _) | (pa & H)]; [lia|].
  cbv zeta in H.
  destruct H as (Hsb & Hin & _ & _ & -> & _ & _ & Hcount & _ & Hloop).
  unfold is_int, INT_MIN, INT_MAX in Hsb.
  rewrite (u64_small (spec_total_bits (data s))) in * by lia.
  rewrite (u64_small (start_bit_of s)) in * by lia.
  rewrite (u64_small (bpp s)) in * by lia.
  rewrite (u64_small (spec_total_bits (data s) - start_bit_of s)) in * by lia.
  fold (pixels_available_of s) in Hloop.
  destruct (render_loop_decoded s preset (spec_total_bits (data s))
              (pixels_available_of s) (width_of s) ltac:(lia)
              (Z.to_nat (r * width_of s)) 0 (start_bit_of s) _ px
              Hbpp ltac:(lia) ltac:(lia) Hstart ltac:(nia) Hloop p ltac:(lia) Hav)
    as (c & Hc & Hvals).
  exists c. split; [|exact Hvals].
  rewrite <- Hc. f_equal. lia.
Qed.

Lemma render_viewport_decoded_pixels_witness :
  exists c,
    decode_pixel (viewer_state [18; 52; 86; 120] 0 2 16 0 true true) (preset_at 9)
      (spec_total_bits [18; 52; 86; 120]) (0 + 1 * 16) = Ok c /\
    nth_error [49; 130; 148; 255;  123; 8; 181; 255] (Z.to_nat (4 * 1)) =
      Some (red c).
Proof.
  destruct (render_viewport_decoded_pixels
              (viewer_state [18; 52; 86; 120] 0 2 16 0 true true) (preset_at 9) 1
              [49; 130; 148; 255;  123; 8; 181; 255] 1)
    with (p := 1) as (c & Hc & Hred & _); [by_evaluation .. |].
  exists c. split; [exact Hc | exact Hred].
Defined.

(** * Further properties of the code *)

(** ** Scaler: distinct levels and rounding *)

(** X4: below 8 bits [scale_to_8] spreads the [2^w] levels over 0..255 without
    merging two of them, and at 8 bits it is the identity: it is strictly
    increasing on the values of a [w]-bit field. *)
Theorem scale_to_8_strictly_increasing (w r1 r2 : Z) :
  1 <= w <= 8 ->
  0 <= r1 < r2 ->
  r2 < 2 ^ w ->
  exists a b, scale_to_8 r1 w = Ok a /\ scale_to_8 r2 w = Ok b /\ a < b.
Proof.
  intros Hw Hr Hfit.
  destruct (Z.eq_dec w 8) as [->|Hne].
  - destruct (scale_to_8_wide r1 8) as [E1 _]; try lia.
    destruct (scale_to_8_wide r2 8) as [E2 _]; try lia.
    exists r1, r2. change (2 ^ (8 - 8)) with 1 in *.
    rewrite Z.div_1_r in *. split; [exact E1|]. split; [exact E2|lia].
  - destruct (scale_to_8_narrow r1 w) as [E1 _]; try lia.
    destruct (scale_to_8_narrow r2 w) as [E2 _]; try lia.
    do 2 eexists; split; [exact E1|]; split; [exact E2|].
    pose proof (pow2_le_mono w 7 ltac:(lia)) as Hp.
    assert (2 <= 2 ^ w) by (change 2 with (2 ^ 1) at 1; apply Z.pow_le_mono_r; lia).
    set (m := 2 ^ w - 1) in *.
    apply Z.lt_le_trans with ((r1 * 255 + m / 2 + 1 * m) / m).
    + rewrite Z.div_add by lia. lia.
    + apply Z.div_le_mono; [lia|]. nia.
Qed.

Lemma scale_to_8_strictly_increasing_witness :
  exists a b, scale_to_8 6 3 = Ok a /\ scale_to_8 7 3 = Ok b /\ a < b.
Proof. apply scale_to_8_strictly_increasing; lia. Defined.

(** X5: below 8 bits the result is the integer nearest to
    [raw * 255 / (2^w - 1)]; when [2^w - 1] divides 255 (1, 2 and 4 bits) it
    is exactly [raw * (255 / (2^w - 1))], the bit pattern repeated to fill
    the byte. *)
Theorem scale_to_8_nearest (w raw : Z) :
  1 <= w < 8 ->
  0 <= raw < 2 ^ w ->
  exists q,
    scale_to_8 raw w = Ok q /\
    2 * Z.abs (q * (2 ^ w - 1) - raw * 255) < 2 ^ w - 1 + 1 /\
    (255 mod (2 ^ w - 1) = 0 -> q = raw * (255 / (2 ^ w - 1))).
Proof.
  intros Hw Hraw.
  destruct (scale_to_8_narrow raw w) as [E _]; try lia.
  eexists; split; [exact E|].
  pose proof (pow2_le_mono w 7 ltac:(lia)) as Hp.
  assert (2 <= 2 ^ w) by (change 2 with (2 ^ 1) at 1; apply Z.pow_le_mono_r; lia).
  set (m := 2 ^ w - 1) in *.
  set (q := (raw * 255 + m / 2) / m).
  pose proof (Z.mul_div_le (raw * 255 + m / 2) m ltac:(lia)) as Hlo.
  pose proof (Z.mul_succ_div_gt (raw * 255 + m / 2) m ltac:(lia)) as Hhi.
  fold q in Hlo, Hhi.
  pose proof (Z.div_mod m 2 ltac:(lia)) as Hh.
  pose proof (Z.mod_pos_bound m 2 ltac:(lia)) as Hh2.
  split; [lia|].
  intros Hdiv.
  pose proof (Z.div_mod 255 m ltac:(lia)) as H255. rewrite Hdiv in H255.
  set (c := 255 / m) in *.
  assert (Hc : 0 < c) by nia.
  unfold q. symmetry. apply Z.div_unique with (r := m / 2); [lia|]. nia.
Qed.

Lemma scale_to_8_nearest_witness :
  exists q,
    scale_to_8 11 4 = Ok q /\
    2 * Z.abs (q * (2 ^ 4 - 1) - 11 * 255) < 2 ^ 4 - 1 + 1 /\
    (255 mod (2 ^ 4 - 1) = 0 -> q = 11 * (255 / (2 ^ 4 - 1))).
Proof. apply scale_to_8_nearest; lia. Defined.

(** ** Keyboard navigation *)

(** One unsuccessful comparison of the search of [bpp_choices]. *)
Lemma bpp_search_miss b i n :
  0 <= i < 4 -> nth (Z.to_nat i) bpp_choices 0 <> b ->
  bpp_search b (S n) i = bpp_search b n (i + 1).
Proof.
  intros Hi Hne. cbn [bpp_search].
  destruct (Z.ltb_spec i 4); [|lia].
  destruct (Z.eqb_spec (nth (Z.to_nat i) bpp_choices 0) b); [contradiction|reflexivity].
Qed.

Lemma bpp_search_cases b :
  (b = 1 /\ bpp_search b 5 0 = 0) \/ (b = 4 /\ bpp_search b 5 0 = 1) \/
  (b = 8 /\ bpp_search b 5 0 = 2) \/ (b = 16 /\ bpp_search b 5 0 = 3) \/
  (~ In b [1; 4; 8; 16] /\ bpp_search b 5 0 = 4).
Proof.
  destruct (Z.eq_dec b 1) as [->|H1]; [left; split; reflexivity|right].
  destruct (Z.eq_dec b 4) as [->|H4]; [left; split; reflexivity|right].
  destruct (Z.eq_dec b 8) as [->|H8]; [left; split; reflexivity|right].
  destruct (Z.eq_dec b 16) as [->|H16]; [left; split; reflexivity|right].
  split; [simpl; intuition lia|].
  rewrite bpp_search_miss by (vm_compute; intuition congruence || lia).
  rewrite bpp_search_miss by (vm_compute; intuition congruence || lia).
  rewrite bpp_search_miss by (vm_compute; intuition congruence || lia).
  rewrite bpp_search_miss by (vm_compute; intuition congruence || lia).
  reflexivity.
Qed.

Lemma cycle_bpp_up b :
  cycle_bpp 1 b = (if b =? 1 then 4 else if b =? 4 then 8 else if b =? 8 then 16
                   else if b =? 16 then 1 else 4).
Proof.
  unfold cycle_bpp.
  destruct (bpp_search_cases b) as [[-> ->]|[[-> ->]|[[-> ->]|[[-> ->]|[Hout ->]]]]];
    try reflexivity.
  simpl in Hout.
  destruct (Z.eqb_spec b 1); [lia|]. destruct (Z.eqb_spec b 4); [lia|].
  destruct (Z.eqb_spec b 8); [lia|]. destruct (Z.eqb_spec b 16); [lia|].
  reflexivity.
Qed.

Lemma cycle_bpp_down b :
  cycle_bpp 3 b = (if b =? 1 then 16 else if b =? 4 then 1 else if b =? 8 then 4
                   else if b =? 16 then 8 else 16).
Proof.
  unfold cycle_bpp.
  destruct (bpp_search_cases b) as [[-> ->]|[[-> ->]|[[-> ->]|[[-> ->]|[Hout ->]]]]];
    try reflexivity.
  simpl in Hout.
  destruct (Z.eqb_spec b 1); [lia|]. destruct (Z.eqb_spec b 4); [lia|].
  destruct (Z.eqb_spec b 8); [lia|]. destruct (Z.eqb_spec b 16); [lia|].
  reflexivity.
Qed.

Lemma set_bpp_twice (S : ViewerState) a b : set_bpp (set_bpp S a) b = set_bpp S b.
Proof. reflexivity. Qed.

Lemma set_bpp_same (S : ViewerState) : set_bpp S (bpp S) = S.
Proof. destruct S; reflexivity. Qed.

Lemma set_stofs_same (S : ViewerState) : set_stofs S (stofs S) = S.
Proof. destruct S; reflexivity. Qed.


(** The branch of [key_down] that the modifier state selects. *)
Ltac key_branch :=
  unfold key_down;
  repeat match goal with
  | H : Z.land ?a ?b = 0 |- context [Z.land ?a ?b] => rewrite H
  | H : Z.land ?a ?b <> 0 |- context [Z.land ?a ?b =? 0] =>
      destruct (Z.eqb_spec (Z.land a b) 0); [contradiction|]
  end;
  cbn [negb Z.eqb].

(** X6: Alt+Up and Alt+Down select among 1, 4, 8 and 16 bits per pixel only,
    whatever [bpp] was, and always change it; 24 and 32, the last two entries
    of the choices, are never selected. *)
Theorem alt_up_down_bpp_choices KMOD_SHIFT KMOD_ALT (S : ViewerState) k kmod win_h :
  Z.land kmod KMOD_SHIFT = 0 ->
  Z.land kmod KMOD_ALT <> 0 ->
  k = SDLK_UP \/ k = SDLK_DOWN ->
  exists b,
    key_down KMOD_SHIFT KMOD_ALT S k kmod win_h = Ok (set_bpp S b) /\
    In b [1; 4; 8; 16] /\
    b <> bpp S.
Proof.
  intros Hs Ha [-> | ->]; key_branch.
  - exists (cycle_bpp 1 (bpp S)). split; [reflexivity|].
    rewrite cycle_bpp_up.
    destruct (Z.eqb_spec (bpp S) 1); [simpl; lia|].
    destruct (Z.eqb_spec (bpp S) 4); [simpl; lia|].
    destruct (Z.eqb_spec (bpp S) 8); [simpl; lia|].
    destruct (Z.eqb_spec (bpp S) 16); simpl; lia.
  - exists (cycle_bpp 3 (bpp S)). split; [reflexivity|].
    rewrite cycle_bpp_down.
    destruct (Z.eqb_spec (bpp S) 1); [simpl; lia|].
    destruct (Z.eqb_spec (bpp S) 4); [simpl; lia|].
    destruct (Z.eqb_spec (bpp S) 8); [simpl; lia|].
    destruct (Z.eqb_spec (bpp S) 16); simpl; lia.
Qed.

Lemma alt_up_down_bpp_choices_witness :
  exists b,
    key_down 3 768 (viewer_state [1; 2; 3] 0 4 24 0 true false) SDLK_UP 256 600 =
      Ok (set_bpp (viewer_state [1; 2; 3] 0 4 24 0 true false) b) /\
    In b [1; 4; 8; 16] /\
    b <> bpp (viewer_state [1; 2; 3] 0 4 24 0 true false).
Proof.
  apply alt_up_down_bpp_choices; [reflexivity | discriminate | left; reflexivity].
Defined.

(** X7: on 1, 4, 8 and 16 bits per pixel Alt+Down undoes Alt+Up and Alt+Up undoes
    Alt+Down. *)
Theorem alt_up_down_inverse KMOD_SHIFT KMOD_ALT (S : ViewerState) kmod win_h :
  Z.land kmod KMOD_SHIFT = 0 ->
  Z.land kmod KMOD_ALT <> 0 ->
  In (bpp S) [1; 4; 8; 16] ->
  (exists S1,
      key_down KMOD_SHIFT KMOD_ALT S SDLK_UP kmod win_h = Ok S1 /\
      key_down KMOD_SHIFT KMOD_ALT S1 SDLK_DOWN kmod win_h = Ok S) /\
  (exists S1,
      key_down KMOD_SHIFT KMOD_ALT S SDLK_DOWN kmod win_h = Ok S1 /\
      key_down KMOD_SHIFT KMOD_ALT S1 SDLK_UP kmod win_h = Ok S).
Proof.
  intros Hs Ha Hin.
  assert (Hud : cycle_bpp 3 (cycle_bpp 1 (bpp S)) = bpp S).
  { simpl in Hin. rewrite cycle_bpp_up.
    destruct Hin as [<-|[<-|[<-|[<-|[]]]]]; reflexivity. }
  assert (Hdu : cycle_bpp 1 (cycle_bpp 3 (bpp S)) = bpp S).
  { simpl in Hin. rewrite cycle_bpp_down.
    destruct Hin as [<-|[<-|[<-|[<-|[]]]]]; reflexivity. }
  split.
  - exists (set_bpp S (cycle_bpp 1 (bpp S))). split; key_branch; [reflexivity|].
    rewrite set_bpp_twice.
    change (bpp (set_bpp S (cycle_bpp 1 (bpp S)))) with (cycle_bpp 1 (bpp S)).
    rewrite Hud, set_bpp_same. reflexivity.
  - exists (set_bpp S (cycle_bpp 3 (bpp S))). split; key_branch; [reflexivity|].
    rewrite set_bpp_twice.
    change (bpp (set_bpp S (cycle_bpp 3 (bpp S)))) with (cycle_bpp 3 (bpp S)).
    rewrite Hdu, set_bpp_same. reflexivity.
Qed.

Lemma alt_up_down_inverse_witness :
  exists S1,
    key_down 3 768 (viewer_state [1; 2; 3] 0 4 16 0 true false) SDLK_UP 256 600 = Ok S1 /\
    key_down 3 768 S1 SDLK_DOWN 256 600 = Ok (viewer_state [1; 2; 3] 0 4 16 0 true false).
Proof.
  destruct (alt_up_down_inverse 3 768 (viewer_state [1; 2; 3] 0 4 16 0 true false) 256 600)
    as [Hup _]; [reflexivity | discriminate | simpl; auto |].
  exact Hup.
Defined.

(** X8: the moves towards the start of the file subtract their step from the
    byte offset and stop at 0: Shift+Up one row of [width_px] bytes,
    Shift+Left one byte, Up sixteen rows. *)
Theorem backward_moves_saturate KMOD_SHIFT KMOD_ALT (S : ViewerState) kmod win_h :
  is_int (stofs S) ->
  0 <= width_px S < 2 ^ 27 ->
  (Z.land kmod KMOD_SHIFT <> 0 ->
   key_down KMOD_SHIFT KMOD_ALT S SDLK_UP kmod win_h =
     Ok (set_stofs S (Z.max 0 (stofs S - width_px S))) /\
   key_down KMOD_SHIFT KMOD_ALT S SDLK_LEFT kmod win_h =
     Ok (set_stofs S (Z.max 0 (stofs S - 1)))) /\
  (Z.land kmod KMOD_SHIFT = 0 -> Z.land kmod KMOD_ALT = 0 ->
   key_down KMOD_SHIFT KMOD_ALT S SDLK_UP kmod win_h =
     Ok (set_stofs S (Z.max 0 (stofs S - width_px S * 16)))).
Proof.
  unfold is_int, INT_MIN, INT_MAX. intros Hofs Hw. split.
  - intros Hs. split; key_branch.
    + destruct (Z.gtb_spec (stofs S) (width_px S)).
      * unfold int_sub. rewrite int_result_Ok
          by (unfold is_int, INT_MIN, INT_MAX; lia).
        cbn [bind]. do 2 f_equal. lia.
      * do 2 f_equal. lia.
    + destruct (Z.gtb_spec (stofs S) 0).
      * unfold int_sub. rewrite int_result_Ok
          by (unfold is_int, INT_MIN, INT_MAX; lia).
        cbn [bind]. do 2 f_equal. lia.
      * do 2 f_equal. lia.
  - intros Hs Ha. key_branch.
    unfold int_mul. rewrite int_result_Ok by (unfold is_int, INT_MIN, INT_MAX; lia).
    cbn [bind].
    destruct (Z.gtb_spec (stofs S) (width_px S * 16)).
    + unfold int_sub. rewrite int_result_Ok
        by (unfold is_int, INT_MIN, INT_MAX; lia).
      cbn [bind]. do 2 f_equal. lia.
    + do 2 f_equal. lia.
Qed.

Lemma backward_moves_saturate_witness :
  key_down 3 768 (viewer_state [1; 2; 3] 40 16 8 0 true false) SDLK_UP 0 600 =
    Ok (set_stofs (viewer_state [1; 2; 3] 40 16 8 0 true false)
          (Z.max 0 (40 - 16 * 16))).
Proof.
  destruct (backward_moves_saturate 3 768
              (viewer_state [1; 2; 3] 40 16 8 0 true false) 0 600)
    as [_ Hup]; [by_evaluation | by_evaluation |].
  apply Hup; reflexivity.
Defined.

(** The test of the forward moves on a buffer of at least 16 bytes: the
    move is blocked exactly when the offset sixteen rows ahead is not below
    [size - 16]. *)
Lemma scroll_blocked_large (S : ViewerState) :
  16 <= Z.of_nat (length (data S)) < 2 ^ 64 ->
  0 <= stofs S ->
  0 <= width_px S ->
  stofs S + width_px S * 16 <= INT_MAX ->
  scroll_blocked S =
    Ok (negb (stofs S + width_px S * 16 <? Z.of_nat (length (data S)) - 16)).
Proof.
  unfold INT_MAX. intros Hlen Hofs Hw Hfit. unfold scroll_blocked, int_mul, int_add.
  rewrite int_result_Ok by (unfold is_int, INT_MIN, INT_MAX; lia). cbn [bind].
  rewrite int_result_Ok by (unfold is_int, INT_MIN, INT_MAX; lia). cbn [bind].
  rewrite !u64_small by lia. f_equal.
  destruct (Z.geb_spec (stofs S + width_px S * 16) (Z.of_nat (length (data S)) - 16));
    destruct (Z.ltb_spec (stofs S + width_px S * 16) (Z.of_nat (length (data S)) - 16));
    try reflexivity; lia.
Qed.

(** On a buffer of fewer than 16 bytes [size - 16] wraps around as a
    [size_t] and the test never blocks. *)
Lemma scroll_blocked_small (S : ViewerState) :
  Z.of_nat (length (data S)) < 16 ->
  0 <= stofs S ->
  0 <= width_px S ->
  stofs S + width_px S * 16 <= INT_MAX ->
  scroll_blocked S = Ok false.
Proof.
  unfold INT_MAX. intros Hlen Hofs Hw Hfit. unfold scroll_blocked, int_mul, int_add.
  rewrite int_result_Ok by (unfold is_int, INT_MIN, INT_MAX; lia). cbn [bind].
  rewrite int_result_Ok by (unfold is_int, INT_MIN, INT_MAX; lia). cbn [bind].
  rewrite (u64_small (stofs S + width_px S * 16)) by lia. f_equal.
  unfold u64. rewrite <- (Z.mod_add _ 1) by lia. rewrite Z.mod_small by lia.
  destruct (Z.geb_spec (stofs S + width_px S * 16)
              (Z.of_nat (length (data S)) - 16 + 1 * 2 ^ 64)); [lia|reflexivity].
Qed.

(** X9: on a buffer of at least 16 bytes the moves towards the end of the file
    add their step to the byte offset only while the offset sixteen rows
    ahead stays below [size - 16]; otherwise they leave the offset as it
    is.  Shift+Down steps by one row of [width_px] bytes, Shift+Right by
    one byte, Down by sixteen rows. *)
Theorem forward_moves_guarded KMOD_SHIFT KMOD_ALT (S : ViewerState) kmod win_h :
  16 <= Z.of_nat (length (data S)) < 2 ^ 64 ->
  0 <= stofs S ->
  1 <= width_px S ->
  stofs S + width_px S * 16 <= INT_MAX ->
  (Z.land kmod KMOD_SHIFT <> 0 ->
   key_down KMOD_SHIFT KMOD_ALT S SDLK_DOWN kmod win_h =
     Ok (set_stofs S
           (if stofs S + width_px S * 16 <? Z.of_nat (length (data S)) - 16
            then stofs S + width_px S else stofs S)) /\
   key_down KMOD_SHIFT KMOD_ALT S SDLK_RIGHT kmod win_h =
     Ok (set_stofs S
           (if stofs S + width_px S * 16 <? Z.of_nat (length (data S)) - 16
            then stofs S + 1 else stofs S))) /\
  (Z.land kmod KMOD_SHIFT = 0 -> Z.land kmod KMOD_ALT = 0 ->
   key_down KMOD_SHIFT KMOD_ALT S SDLK_DOWN kmod win_h =
     Ok (set_stofs S
           (if stofs S + width_px S * 16 <? Z.of_nat (length (data S)) - 16
            then stofs S + width_px S * 16 else stofs S))).
Proof.
  intros Hlen Hofs Hw Hfit.
  pose proof (scroll_blocked_large S Hlen Hofs ltac:(lia) Hfit) as Hb.
  unfold INT_MAX in Hfit.
  split; [intros Hs; split | intros Hs Ha]; key_branch; rewrite Hb; cbn [bind];
    destruct (Z.ltb_spec (stofs S + width_px S * 16)
                (Z.of_nat (length (data S)) - 16)); cbn [negb]; try reflexivity;
    unfold int_add, int_mul;
    repeat (rewrite int_result_Ok by (unfold is_int, INT_MIN, INT_MAX; lia);
            cbn [bind]);
    reflexivity.
Qed.

Lemma forward_moves_guarded_witness :
  key_down 3 768 (viewer_state (repeat 7 100) 10 4 8 0 true false) SDLK_DOWN 0 600 =
    Ok (set_stofs (viewer_state (repeat 7 100) 10 4 8 0 true false)
          (if 10 + 4 * 16 <? Z.of_nat (length (repeat 7 100%nat)) - 16
           then 10 + 4 * 16 else 10)).
Proof.
  destruct (forward_moves_guarded 3 768
              (viewer_state (repeat 7 100) 10 4 8 0 true false) 0 600)
    as [_ Hdown]; [by_evaluation .. |].
  apply Hdown; reflexivity.
Defined.

(** X10: on a buffer of fewer than 16 bytes, the empty buffer of a viewer with
    no file included, the same moves are never blocked: as long as the
    offset sixteen rows ahead, [stofs + 16 * width_px], fits an [int], the
    offset grows by the step whatever the buffer holds. *)
Theorem forward_moves_small_buffer KMOD_SHIFT KMOD_ALT (S : ViewerState) kmod win_h :
  Z.of_nat (length (data S)) < 16 ->
  0 <= stofs S ->
  1 <= width_px S ->
  stofs S + width_px S * 16 <= INT_MAX ->
  (Z.land kmod KMOD_SHIFT <> 0 ->
   key_down KMOD_SHIFT KMOD_ALT S SDLK_DOWN kmod win_h =
     Ok (set_stofs S (stofs S + width_px S)) /\
   key_down KMOD_SHIFT KMOD_ALT S SDLK_RIGHT kmod win_h =
     Ok (set_stofs S (stofs S + 1))) /\
  (Z.land kmod KMOD_SHIFT = 0 -> Z.land kmod KMOD_ALT = 0 ->
   key_down KMOD_SHIFT KMOD_ALT S SDLK_DOWN kmod win_h =
     Ok (set_stofs S (stofs S + width_px S * 16))).
Proof.
  intros Hlen Hofs Hw Hfit.
  pose proof (scroll_blocked_small S Hlen Hofs ltac:(lia) Hfit) as Hb.
  unfold INT_MAX in Hfit.
  split; [intros Hs; split | intros Hs Ha]; key_branch; rewrite Hb; cbn [bind];
    unfold int_add, int_mul;
    repeat (rewrite int_result_Ok by (unfold is_int, INT_MIN, INT_MAX; lia);
            cbn [bind]);
    reflexivity.
Qed.

Lemma forward_moves_small_buffer_witness :
  key_down 3 768 (viewer_state [1; 2; 3] 10 4 8 0 true false) SDLK_RIGHT 1 600 =
    Ok (set_stofs (viewer_state [1; 2; 3] 10 4 8 0 true false) (10 + 1)).
Proof.
  destruct (forward_moves_small_buffer 3 768
              (viewer_state [1; 2; 3] 10 4 8 0 true false) 1 600)
    as [Hshift _]; [by_evaluation .. |].
  destruct Hshift as [_ Hright]; [discriminate|].
  exact Hright.
Defined.

(** [page_bits] on a window whose visible bits, doubled, fit an [int]. *)
Lemma page_bits_Ok (S : ViewerState) win_h :
  1 <= width_px S ->
  1 <= bpp S ->
  width_px S * Z.max 1 win_h * bpp S * 2 <= INT_MAX ->
  page_bits S win_h = Ok (width_px S * Z.max 1 win_h * bpp S * 2 / 3) /\
  0 <= width_px S * Z.max 1 win_h * bpp S * 2 / 3 <= INT_MAX.
Proof.
  unfold INT_MAX. intros Hw Hbpp Hfit.
  assert (Hh : 1 <= Z.max 1 win_h) by lia.
  set (h := Z.max 1 win_h) in *.
  assert (H1 : 1 <= width_px S * h) by nia.
  assert (H2 : width_px S * h <= width_px S * h * bpp S) by nia.
  split.
  - unfold page_bits, int_mul. cbv zeta. fold h.
    rewrite int_result_Ok by (unfold is_int, INT_MIN, INT_MAX; lia). cbn [bind].
    rewrite int_result_Ok by (unfold is_int, INT_MIN, INT_MAX; lia). cbn [bind].
    rewrite int_result_Ok by (unfold is_int, INT_MIN, INT_MAX; lia). cbn [bind].
    rewrite Z.quot_div_nonneg by lia. reflexivity.
  - split; [apply Z.div_pos; lia|].
    apply Z.lt_succ_r. apply Z.div_lt_upper_bound; lia.
Qed.

(** X11: PageUp moves the start bit back by two thirds of the bits of the window
    and stops at bit 0; the new start is split into a byte offset and a bit
    alignment between 0 and 7. *)
Theorem page_up_start_bit KMOD_SHIFT KMOD_ALT (S : ViewerState) kmod win_h :
  Z.land kmod KMOD_SHIFT = 0 ->
  Z.land kmod KMOD_ALT = 0 ->
  1 <= width_px S ->
  1 <= bpp S ->
  width_px S * Z.max 1 win_h * bpp S * 2 <= INT_MAX ->
  0 <= stofs S ->
  0 <= bit_align S <= 7 ->
  start_bit_of S <= INT_MAX ->
  exists S',
    key_down KMOD_SHIFT KMOD_ALT S SDLK_PAGEUP kmod win_h = Ok S' /\
    S' = set_bit_align (set_stofs S (stofs S')) (bit_align S') /\
    start_bit_of S' =
      Z.max 0 (start_bit_of S - width_px S * Z.max 1 win_h * bpp S * 2 / 3) /\
    0 <= stofs S' /\
    0 <= bit_align S' <= 7.
Proof.
  intros Hs Ha Hw Hbpp Hfit Hofs Hal Hsb.
  destruct (page_bits_Ok S win_h Hw Hbpp Hfit) as [Hpb Hrange].
  unfold start_bit_of in *. unfold INT_MAX in *.
  set (pb := width_px S * Z.max 1 win_h * bpp S * 2 / 3) in *.
  key_branch. rewrite Hpb. cbn [bind]. unfold int_mul, int_add, int_sub.
  rewrite int_result_Ok by (unfold is_int, INT_MIN, INT_MAX; lia). cbn [bind].
  rewrite int_result_Ok by (unfold is_int, INT_MIN, INT_MAX; lia). cbn [bind].
  rewrite int_result_Ok by (unfold is_int, INT_MIN, INT_MAX; lia). cbn [bind].
  cbv zeta.
  set (nstart := if stofs S * 8 + bit_align S - pb <? 0 then 0
                 else stofs S * 8 + bit_align S - pb).
  assert (Hn : nstart = Z.max 0 (stofs S * 8 + bit_align S - pb)).
  { unfold nstart. destruct (Z.ltb_spec (stofs S * 8 + bit_align S - pb) 0); lia. }
  assert (Hpos : 0 <= nstart) by lia.
  eexists. split; [reflexivity|].
  cbn [stofs bit_align set_stofs set_bit_align].
  rewrite Z.quot_div_nonneg, Z.rem_mod_nonneg by lia.
  pose proof (Z.div_mod nstart 8 ltac:(lia)).
  pose proof (Z.mod_pos_bound nstart 8 ltac:(lia)).
  assert (0 <= nstart / 8) by (apply Z.div_pos; lia).
  repeat split; try lia.
Qed.

Lemma page_up_start_bit_witness :
  exists S',
    key_down 3 768 (viewer_state (repeat 7 100) 10 4 8 3 true false)
      SDLK_PAGEUP 0 2 = Ok S' /\
    start_bit_of S' =
      Z.max 0 (start_bit_of (viewer_state (repeat 7 100) 10 4 8 3 true false)
               - 4 * Z.max 1 2 * 8 * 2 / 3).
Proof.
  destruct (page_up_start_bit 3 768
              (viewer_state (repeat 7 100) 10 4 8 3 true false) 0 2)
    as (S' & Hrun & _ & Hstart & _); [by_evaluation .. |].
  exists S'. split; [exact Hrun | exact Hstart].
Defined.

(** X12: PageDown moves the start bit forward by two thirds of the bits of the
    window, but not past the last position that leaves one whole pixel,
    [total_bits - bpp] (0 when the buffer is shorter than a pixel); the new
    start is split into a byte offset and a bit alignment between 0 and
    7. *)
Theorem page_down_start_bit KMOD_SHIFT KMOD_ALT (S : ViewerState) kmod win_h :
  Z.land kmod KMOD_SHIFT = 0 ->
  Z.land kmod KMOD_ALT = 0 ->
  1 <= width_px S ->
  1 <= bpp S ->
  width_px S * Z.max 1 win_h * bpp S * 2 <= INT_MAX ->
  0 <= stofs S ->
  0 <= bit_align S <= 7 ->
  start_bit_of S + width_px S * Z.max 1 win_h * bpp S * 2 / 3 <= INT_MAX ->
  spec_total_bits (data S) < 2 ^ 62 ->
  exists S',
    key_down KMOD_SHIFT KMOD_ALT S SDLK_PAGEDOWN kmod win_h = Ok S' /\
    S' = set_bit_align (set_stofs S (stofs S')) (bit_align S') /\
    start_bit_of S' =
      Z.min (start_bit_of S + width_px S * Z.max 1 win_h * bpp S * 2 / 3)
            (Z.max 0 (spec_total_bits (data S) - bpp S)) /\
    0 <= stofs S' /\
    0 <= bit_align S' <= 7 /\
    (bpp S <= spec_total_bits (data S) ->
     start_bit_of S' + bpp S <= spec_total_bits (data S)).
Proof.
  intros Hs Ha Hw Hbpp Hfit Hofs Hal Hsb Hlen.
  destruct (page_bits_Ok S win_h Hw Hbpp Hfit) as [Hpb Hrange].
  unfold start_bit_of, spec_total_bits in *. unfold INT_MAX in *.
  set (pb := width_px S * Z.max 1 win_h * bpp S * 2 / 3) in *.
  set (len := Z.of_nat (length (data S))) in *.
  assert (Hlen0 : 0 <= len) by (unfold len; lia).
  key_branch. rewrite Hpb. cbn [bind]. unfold int_mul, int_add.
  rewrite int_result_Ok by (unfold is_int, INT_MIN, INT_MAX; lia). cbn [bind].
  rewrite int_result_Ok by (unfold is_int, INT_MIN, INT_MAX; lia). cbn [bind].
  rewrite int_result_Ok by (unfold is_int, INT_MIN, INT_MAX; lia). cbn [bind].
  fold len. rewrite (u64_small len) by lia.
  assert (Hs64 : s64 len = len).
  { unfold s64. rewrite Z.mod_small by lia. lia. }
  rewrite Hs64.
  assert (Hi64 : forall z, - 2 ^ 63 <= z <= 2 ^ 63 - 1 -> int64_result z = Ok z).
  { intros z Hz. unfold int64_result.
    destruct (Z.leb_spec (- 2 ^ 63) z); [|lia].
    destruct (Z.leb_spec z (2 ^ 63 - 1)); [reflexivity|lia]. }
  assert (Hbpp_int : bpp S <= 2 ^ 31) by nia.
  rewrite Hi64 by lia. cbn [bind]. rewrite Hi64 by lia. cbn [bind]. cbv zeta.
  set (moved := stofs S * 8 + bit_align S + pb) in *.
  set (nstart := if moved >? len * 8 - bpp S then Z.max 0 (len * 8 - bpp S) else moved).
  assert (Hn : nstart = Z.min moved (Z.max 0 (len * 8 - bpp S))).
  { unfold nstart. destruct (Z.gtb_spec moved (len * 8 - bpp S)); lia. }
  assert (Hpos : 0 <= nstart <= moved) by lia.
  eexists. split; [reflexivity|].
  cbn [stofs bit_align set_stofs set_bit_align].
  rewrite Z.quot_div_nonneg, Z.rem_mod_nonneg by lia.
  pose proof (Z.div_mod nstart 8 ltac:(lia)).
  pose proof (Z.mod_pos_bound nstart 8 ltac:(lia)).
  assert (0 <= nstart / 8) by (apply Z.div_pos; lia).
  rewrite (u8_small (nstart mod 8)) by lia.
  assert (Hs32 : s32 (nstart / 8) = nstart / 8).
  { unfold s32. rewrite Z.mod_small by lia. lia. }
  rewrite Hs32.
  repeat split; try lia.
Qed.

Lemma page_down_start_bit_witness :
  exists S',
    key_down 3 768 (viewer_state (repeat 7 100) 90 4 24 3 true false)
      SDLK_PAGEDOWN 0 50 = Ok S' /\
    start_bit_of S' + 24 <= spec_total_bits (repeat 7 100%nat).
Proof.
  destruct (page_down_start_bit 3 768
              (viewer_state (repeat 7 100) 90 4 24 3 true false) 0 50)
    as (S' & Hrun & _ & _ & _ & _ & Hlast); [by_evaluation .. |].
  exists S'. split; [exact Hrun|]. apply Hlast. by_evaluation.
Defined.

(** ** The bytes of the raster *)

Lemma scale_to_8_byte raw w v : scale_to_8 raw w = Ok v -> 0 <= v <= 255.
Proof.
  unfold scale_to_8. intros H.
  destruct (w =? 0); [inversion H; lia|].
  destruct (w >=? 8).
  - destruct (w =? 8).
    + inversion H. pose proof (u8_range (Z.land raw 255)). lia.
    + bind_inv H. inversion H. pose proof (u8_range (Z.land a 255)). lia.
  - bind_inv H. bind_inv H. inversion H. pose proof (u8_range a0). lia.
Qed.

Lemma assign_channel_bytes n v c :
  0 <= v <= 255 -> byte_channels c -> byte_channels (assign_channel n v c).
Proof.
  unfold byte_channels, assign_channel. intros Hv (Hr & Hg & Hb & Ha).
  repeat match goal with |- context [Ascii.eqb ?a ?b] => destruct (Ascii.eqb a b) end;
    cbn [red green blue alpha]; lia.
Qed.

Lemma decode_fields_bytes pixel_val fs :
  forall cur_shift px c,
    byte_channels px ->
    decode_fields pixel_val fs cur_shift px = Ok c ->
    byte_channels c.
Proof.
  induction fs as [|f fs IH]; intros cur_shift px c Hpx Hrun.
  - simpl in Hrun. inversion Hrun; subst; exact Hpx.
  - cbn [decode_fields] in Hrun. cbv zeta in Hrun.
    bind_inv Hrun. bind_inv Hrun. bind_inv Hrun.
    apply scale_to_8_byte in Ha1.
    eapply IH; [|exact Hrun]. now apply assign_channel_bytes.
Qed.

Lemma decode_pixel_bytes s preset total_bits bitpos c :
  decode_pixel s preset total_bits bitpos = Ok c -> byte_channels c.
Proof.
  unfold decode_pixel. intros H. bind_inv H. bind_inv H.
  eapply decode_fields_bytes; [|exact H].
  unfold byte_channels; cbn [red green blue alpha]; lia.
Qed.

Lemma update_Forall (P : Z -> Prop) v : forall i x,
  Forall P v -> P x -> Forall P (update v i x).
Proof.
  induction v as [|h t IH]; intros [|j] x Hv Hx; simpl; auto;
    inversion Hv; subst; constructor; auto.
Qed.

Lemma store_Forall (P : Z -> Prop) v i x v' :
  store v i x = Ok v' -> Forall P v -> P x -> Forall P v'.
Proof.
  intros H Hv Hx. apply store_inv in H as [_ ->]. now apply update_Forall.
Qed.

Lemma store_pixel_Forall (P : Z -> Prop) out idx c out' :
  store_pixel out idx c = Ok out' ->
  Forall P out -> P (red c) -> P (green c) -> P (blue c) -> P (alpha c) ->
  Forall P out'.
Proof.
  unfold store_pixel. intros H Hout Hr Hg Hb Ha.
  bind_inv H. bind_inv H. bind_inv H.
  eauto using store_Forall.
Qed.

Lemma clear_pixel_Forall (P : Z -> Prop) out idx out' :
  clear_pixel out idx = Ok out' -> Forall P out -> P 0 -> Forall P out'.
Proof.
  unfold clear_pixel. intros H Hout H0.
  bind_inv H. bind_inv H. bind_inv H.
  eauto using store_Forall.
Qed.

Lemma render_loop_bytes s preset total_bits pixels_available width n :
  forall p bitpos out out',
    Forall (fun b => 0 <= b <= 255) out ->
    render_loop s preset total_bits pixels_available width n p bitpos out = Ok out' ->
    Forall (fun b => 0 <= b <= 255) out'.
Proof.
  induction n as [|n IH]; intros p bitpos out out' Hout Hrun.
  - simpl in Hrun. inversion Hrun; subst; exact Hout.
  - cbn [render_loop] in Hrun. cbv zeta in Hrun. bind_inv Hrun.
    destruct (p >=? pixels_available).
    + bind_inv Hrun. eapply IH; [|exact Hrun].
      eapply clear_pixel_Forall; [exact Ha0 | exact Hout | lia].
    + bind_inv Hrun. bind_inv Hrun. eapply IH; [|exact Hrun].
      apply decode_pixel_bytes in Ha0. destruct Ha0 as (Hr & Hg & Hb & Hal).
      eapply store_pixel_Forall; [exact Ha1 | exact Hout | | | |]; assumption.
Qed.

(** Every byte of a raster that [render_viewport] returns lies between 0 and
    255, whatever the buffer, the preset and the decode parameters are. *)
Lemma render_viewport_bytes s preset rows px r :
  render_viewport s preset rows = Ok (px, r) ->
  Forall (fun b => 0 <= b <= 255) px.
Proof.
  unfold render_viewport. cbv zeta. intros H.
  bind_inv H. bind_inv H.
  match type of H with (if ?c then _ else _) = _ => destruct c end;
    [inversion H; constructor|].
  bind_inv H. bind_inv H.
  match type of H with (if ?c then _ else _) = _ => destruct c end;
    [inversion H; constructor|].
  bind_inv H. inversion H; subst.
  eapply render_loop_bytes; [|exact Ha3].
  apply Forall_forall. intros x Hx. apply repeat_spec in Hx. lia.
Qed.


(** ** Windows that the data fills, and the alpha channel *)

(** A call on a window that holds at least one pixel and fewer than [2^32]:
    the row count, and the run of the pixel loop that filled the raster. *)
Lemma render_viewport_run s preset rows px r :
  is_int (width_px s) ->
  1 <= bpp s <= 64 ->
  spec_total_bits (data s) < 2 ^ 63 ->
  0 <= start_bit_of s < spec_total_bits (data s) ->
  0 < pixels_available_of s < 2 ^ 32 ->
  0 <= rows ->
  render_viewport s preset rows = Ok (px, r) ->
  r = (Z.min (rows * width_of s) (pixels_available_of s) + width_of s - 1)
        / width_of s /\
  0 <= r * width_of s < 2 ^ 30 /\
  Z.of_nat (length px) = 4 * (r * width_of s) /\
  render_loop s preset (spec_total_bits (data s)) (pixels_available_of s)
    (width_of s) (Z.to_nat (r * width_of s)) 0 (start_bit_of s)
    (repeat 0 (Z.to_nat (4 * (r * width_of s)))) = Ok px.
Proof.
  intros Hwidth Hbpp Hlen Hstart Hpa Hrows Hrun.
  pose proof (width_of_range s Hwidth) as Hw.
  apply render_viewport_Ok_inv in Hrun; [|assumption].
  unfold pixels_available_of in *.
  set (total := spec_total_bits (data s)) in *.
  set (start := start_bit_of s) in *.
  set (w := width_of s) in *.
  rewrite (u64_small total), (u64_small start), (u64_small (bpp s)),
    (u64_small (total - start)) in Hrun by lia.
  set (pa := (total - start) / bpp s) in *.
  destruct Hrun as [(_ & _ & [Hexit|Hexit]) | (pa' & H)]; try lia.
  cbv zeta in H.
  destruct H as (_ & _ & Hptr & _ & -> & _ & Hr & Hcount & Hsize & Hloop).
  unfold is_int, INT_MIN, INT_MAX in Hptr.
  assert (0 <= rows * w) by nia.
  rewrite (u32_small (rows * w)), (u32_small pa) in Hr by lia.
  rewrite (u32_small (Z.min (rows * w) pa + w)),
    (u32_small (Z.min (rows * w) pa + w - 1)) in Hr by lia.
  auto.
Qed.

(** The pixels of the raster before [pixels_available], read off the run of
    the pixel loop. *)
Lemma render_viewport_pixel_at s preset rows px r :
  is_int (width_px s) ->
  1 <= bpp s <= 64 ->
  spec_total_bits (data s) < 2 ^ 63 ->
  0 <= start_bit_of s ->
  render_viewport s preset rows = Ok (px, r) ->
  forall p, 0 <= p < r * width_of s -> p < pixels_available_of s ->
    exists c,
      decode_pixel s preset (spec_total_bits (data s))
        (start_bit_of s + p * bpp s) = Ok c /\
      nth_error px (Z.to_nat (4 * p)) = Some (red c) /\
      nth_error px (Z.to_nat (4 * p + 1)) = Some (green c) /\
      nth_error px (Z.to_nat (4 * p + 2)) = Some (blue c) /\
      nth_error px (Z.to_nat (4 * p + 3)) = Some (alpha c).
Proof.
  intros Hwidth Hbpp Hlen Hstart Hrun p Hp Hav.
  pose proof (width_of_range s Hwidth) as Hw.
  assert (Htot : 0 <= spec_total_bits (data s)) by (unfold spec_total_bits; lia).
  apply render_viewport_Ok_inv in Hrun; [|assumption].
  destruct Hrun as [(_ & -> & _) | (pa & H)]; [lia|].
  cbv zeta in H.
  destruct H as (Hsb & Hin & _ & _ & -> & _ & _ & Hcount & _ & Hloop).
  unfold is_int, INT_MIN, INT_MAX in Hsb.
  rewrite (u64_small (spec_total_bits (data s))) in * by lia.
  rewrite (u64_small (start_bit_of s)) in * by lia.
  rewrite (u64_small (bpp s)) in * by lia.
  rewrite (u64_small (spec_total_bits (data s) - start_bit_of s)) in * by lia.
  fold (pixels_available_of s) in Hloop.
  destruct (render_loop_decoded s preset (spec_total_bits (data s))
              (pixels_available_of s) (width_of s) ltac:(lia)
              (Z.to_nat (r * width_of s)) 0 (start_bit_of s) _ px
              Hbpp ltac:(lia) ltac:(lia) Hstart ltac:(nia) Hloop p ltac:(lia) Hav)
    as (c & Hc & Hvals).
  exists c. split; [|exact Hvals].
  rewrite <- Hc. f_equal. lia.
Qed.

(** X13: when the requested window holds no more pixels than the data provides,
    [render_viewport] renders every requested row and every pixel of the
    raster is decoded from the data: none is left as padding. *)
Theorem render_viewport_full_window s preset rows px r :
  is_int (width_px s) ->
  1 <= bpp s <= 64 ->
  spec_total_bits (data s) < 2 ^ 63 ->
  0 <= start_bit_of s < spec_total_bits (data s) ->
  0 < pixels_available_of s < 2 ^ 32 ->
  0 <= rows ->
  rows * width_of s <= pixels_available_of s ->
  render_viewport s preset rows = Ok (px, r) ->
  r = rows /\
  Z.of_nat (length px) = 4 * (rows * width_of s) /\
  forall p, 0 <= p < rows * width_of s ->
    exists c,
      decode_pixel s preset (spec_total_bits (data s))
        (start_bit_of s + p * bpp s) = Ok c /\
      nth_error px (Z.to_nat (4 * p)) = Some (red c) /\
      nth_error px (Z.to_nat (4 * p + 1)) = Some (green c) /\
      nth_error px (Z.to_nat (4 * p + 2)) = Some (blue c) /\
      nth_error px (Z.to_nat (4 * p + 3)) = Some (alpha c).
Proof.
  intros Hwidth Hbpp Hlen Hstart Hpa Hrows Hfull Hrun.
  pose proof (width_of_range s Hwidth) as Hw.
  destruct (render_viewport_run s preset rows px r Hwidth Hbpp Hlen Hstart Hpa
              Hrows Hrun) as (Hr & _ & Hsize & _).
  rewrite Z.min_l in Hr by lia.
  assert (Hrows_r : r = rows).
  { rewrite Hr. symmetry. apply Z.div_unique with (r := width_of s - 1); lia. }
  clear Hr. subst r. split; [reflexivity|]. split; [exact Hsize|].
  intros p Hp.
  apply (render_viewport_pixel_at s preset rows px rows); auto; lia.
Qed.

Lemma render_viewport_full_window_witness :
  exists c,
    decode_pixel (viewer_state [18; 52; 86; 120] 0 2 16 0 true true) (preset_at 9)
      (spec_total_bits [18; 52; 86; 120]) (0 + 1 * 16) = Ok c /\
    nth_error [49; 130; 148; 255;  123; 8; 181; 255] (Z.to_nat (4 * 1 + 2)) =
      Some (blue c).
Proof.
  destruct (render_viewport_full_window
              (viewer_state [18; 52; 86; 120] 0 2 16 0 true true) (preset_at 9) 1
              [49; 130; 148; 255;  123; 8; 181; 255] 1)
    as (_ & _ & Hall); [by_evaluation .. |].
  destruct (Hall 1) as (c & Hc & _ & _ & Hblue & _); [by_evaluation|].
  exists c. split; [exact Hc | exact Hblue].
Defined.

Lemma assign_channel_alpha n v c :
  n <> "a"%char -> alpha (assign_channel n v c) = alpha c.
Proof.
  intros Hn. unfold assign_channel.
  destruct (Ascii.eqb_spec n "a"); [contradiction|].
  repeat match goal with |- context [Ascii.eqb ?a ?b] => destruct (Ascii.eqb a b) end;
    reflexivity.
Qed.

(** The field loop leaves alpha as it was when no field is named ['a']. *)
Lemma decode_fields_alpha pixel_val fs :
  Forall (fun f => name f <> "a"%char) fs ->
  forall cur_shift px c,
    decode_fields pixel_val fs cur_shift px = Ok c -> alpha c = alpha px.
Proof.
  induction 1 as [|f fs Hf Hfs IH]; intros cur_shift px c Hrun.
  - simpl in Hrun. inversion Hrun; reflexivity.
  - cbn [decode_fields] in Hrun. cbv zeta in Hrun.
    bind_inv Hrun. bind_inv Hrun. bind_inv Hrun.
    apply IH in Hrun. rewrite Hrun. now apply assign_channel_alpha.
Qed.

(** X14: with a preset that has no alpha field the alpha bytes of the raster
    tell the data from the padding: alpha is 255 on every pixel decoded from
    the data and 0 on every pixel past [pixels_available]. *)
Theorem render_viewport_alpha_mask s preset rows px r :
  is_int (width_px s) ->
  1 <= bpp s <= 64 ->
  spec_total_bits (data s) < 2 ^ 63 ->
  0 <= start_bit_of s ->
  Forall (fun f => name f <> "a"%char) (fields preset) ->
  render_viewport s preset rows = Ok (px, r) ->
  forall p, 0 <= p < r * width_of s ->
    nth_error px (Z.to_nat (4 * p + 3)) =
      Some (if p <? pixels_available_of s then 255 else 0).
Proof.
  intros Hwidth Hbpp Hlen Hstart Hnames Hrun p Hp.
  pose proof (width_of_range s Hwidth) as Hw.
  assert (Htot : 0 <= spec_total_bits (data s)) by (unfold spec_total_bits; lia).
  destruct (Z.ltb_spec p (pixels_available_of s)) as [Hav|Hpast].
  - destruct (render_viewport_pixel_at s preset rows px r Hwidth Hbpp Hlen Hstart
                Hrun p Hp Hav) as (c & Hc & _ & _ & _ & Ha).
    rewrite Ha. f_equal.
    unfold decode_pixel in Hc. bind_inv Hc. bind_inv Hc.
    apply (decode_fields_alpha _ _ Hnames) in Hc. exact Hc.
  - apply render_viewport_Ok_inv in Hrun; [|assumption].
    destruct Hrun as [(_ & -> & _) | (pa & H)]; [lia|].
    cbv zeta in H.
    destruct H as (Hsb & Hin & _ & _ & -> & _ & _ & Hcount & _ & Hloop).
    unfold is_int, INT_MIN, INT_MAX in Hsb.
    rewrite (u64_small (spec_total_bits (data s))) in * by lia.
    rewrite (u64_small (start_bit_of s)) in * by lia.
    rewrite (u64_small (bpp s)) in * by lia.
    rewrite (u64_small (spec_total_bits (data s) - start_bit_of s)) in * by lia.
    fold (pixels_available_of s) in Hloop.
    apply render_loop_tail in Hloop; try lia.
    destruct Hloop as [_ Htail]. apply Htail; lia.
Qed.

Lemma render_viewport_alpha_mask_witness :
  nth_error [1; 1; 1; 255;  2; 2; 2; 255;  3; 3; 3; 255;  0; 0; 0; 0]
    (Z.to_nat (4 * 3 + 3)) =
  Some (if 3 <? pixels_available_of (viewer_state [1; 2; 3] 0 4 8 0 true false)
        then 255 else 0).
Proof.
  apply (render_viewport_alpha_mask
           (viewer_state [1; 2; 3] 0 4 8 0 true false) (preset_at 3) 1
           [1; 1; 1; 255;  2; 2; 2; 255;  3; 3; 3; 255;  0; 0; 0; 0] 1);
    try by_evaluation.
  repeat constructor; discriminate.
Defined.

(** ** The controls of a frame *)

(** What [controls] leaves in the state: the width is at least 1 and the
    bit alignment between 0 and 7 whatever the widgets wrote, and the
    buffer is the one before. *)
Lemma controls_clamped ui (S : ViewerState) :
  1 <= width_px (controls ui S) /\
  0 <= bit_align (controls ui S) <= 7 /\
  data (controls ui S) = data S /\
  width_px (controls ui S) = Z.max 1 (input_width ui (width_px S)) /\
  stofs (controls ui S) = input_stofs ui (stofs S).
Proof.
  unfold controls. cbv zeta.
  destruct (button_1bpp ui), (button_4bpp ui), (button_8bpp ui), (button_16bpp ui);
    cbn [width_px bit_align data stofs set_width_px set_stofs set_bit_align set_bpp];
    destruct (Z.ltb_spec (input_width ui (width_px S)) 1);
    destruct (Z.ltb_spec (input_bit_align ui (bit_align S)) 0);
    repeat match goal with
           | |- context [?a >? 7] => destruct (Z.gtb_spec a 7)
           end;
    repeat split; lia.
Qed.

Lemma controls_bpp ui (S : ViewerState) :
  bpp (controls ui S) =
    if button_16bpp ui then 16
    else if button_8bpp ui then 8
    else if button_4bpp ui then 4
    else if button_1bpp ui then 1
    else input_bpp ui (bpp S).
Proof.
  unfold controls. cbv zeta.
  destruct (button_1bpp ui), (button_4bpp ui), (button_8bpp ui), (button_16bpp ui);
    reflexivity.
Qed.

(** X15: the "Bits per pixel" control has no clamp: when it is set to 0 and no
    BPP button is pressed, the frame's call of [render_viewport] on a start
    bit inside the buffer divides by zero. *)
Theorem controls_bpp_zero_divides ui (S : ViewerState) preset rows :
  input_bpp ui (bpp S) = 0 ->
  button_1bpp ui = false -> button_4bpp ui = false ->
  button_8bpp ui = false -> button_16bpp ui = false ->
  is_int (stofs (controls ui S) * 8) ->
  is_int (rows * width_of (controls ui S)) ->
  0 <= start_bit_of (controls ui S) < spec_total_bits (data S) ->
  spec_total_bits (data S) < 2 ^ 63 ->
  render_viewport (controls ui S) preset rows = Undefined DivisionByZero.
Proof.
  intros Hin H1 H4 H8 H16 Hofs Hptr Hstart Hlen.
  pose proof (controls_bpp ui S) as Hbpp.
  rewrite H1, H4, H8, H16, Hin in Hbpp.
  destruct (controls_clamped ui S) as (_ & Hal & Hdata & _).
  set (S' := controls ui S) in *.
  unfold render_viewport. cbv zeta.
  fold (spec_total_bits (data S')). fold (width_of S'). rewrite Hdata.
  unfold int_mul, int_add. rewrite int_result_Ok by exact Hofs. cbn [bind].
  fold (start_bit_of S').
  rewrite int_result_Ok by (unfold is_int, INT_MIN, INT_MAX in *;
                            unfold start_bit_of in *; lia).
  cbn [bind].
  rewrite (u64_small (spec_total_bits (data S))) by lia.
  rewrite (u64_small (start_bit_of S')) by lia.
  destruct (Z.geb_spec (start_bit_of S') (spec_total_bits (data S))); [lia|].
  rewrite int_result_Ok by exact Hptr. cbn [bind].
  rewrite Hbpp. reflexivity.
Qed.

Lemma controls_bpp_zero_divides_witness :
  render_viewport (controls (bpp_typed 0) (viewer_state [1; 2; 3] 0 4 8 0 true false))
    (preset_at 3) 5 = Undefined DivisionByZero.
Proof.
  apply controls_bpp_zero_divides; by_evaluation.
Defined.

(** ** Bit alignment keys *)

(** X16: Alt+Right raises the bit alignment by one up to 7.  Alt+Left lowers it
    by one, but its [max<uint8_t>(0, ...)] never clamps: from 0 the state is
    left with 255, which the clamp of the controls turns into 7 in the same
    frame unless the "Bit alignment" box is edited. *)
Theorem alt_left_right_bit_align KMOD_SHIFT KMOD_ALT (S : ViewerState) kmod win_h :
  Z.land kmod KMOD_SHIFT = 0 ->
  Z.land kmod KMOD_ALT <> 0 ->
  0 <= bit_align S <= 7 ->
  key_down KMOD_SHIFT KMOD_ALT S SDLK_RIGHT kmod win_h =
    Ok (set_bit_align S (Z.min 7 (bit_align S + 1))) /\
  key_down KMOD_SHIFT KMOD_ALT S SDLK_LEFT kmod win_h =
    Ok (set_bit_align S (if bit_align S =? 0 then 255 else bit_align S - 1)) /\
  (forall ui, input_bit_align ui 255 = 255 ->
     bit_align (controls ui (set_bit_align S 255)) = 7).
Proof.
  intros Hs Ha Hal. split; [|split].
  - key_branch. unfold int_add.
    rewrite int_result_Ok by (unfold is_int, INT_MIN, INT_MAX; lia). cbn [bind].
    rewrite !u8_small by lia. reflexivity.
  - key_branch. unfold int_sub.
    rewrite int_result_Ok by (unfold is_int, INT_MIN, INT_MAX; lia). cbn [bind].
    rewrite (u8_small 0) by lia.
    destruct (Z.eqb_spec (bit_align S) 0) as [E|E].
    + rewrite E. reflexivity.
    + rewrite u8_small by lia. do 2 f_equal. lia.
  - intros ui Hui. unfold controls. cbv zeta.
    destruct (button_1bpp ui), (button_4bpp ui), (button_8bpp ui), (button_16bpp ui);
      cbn [bit_align set_width_px set_stofs set_bit_align set_bpp];
      rewrite Hui; reflexivity.
Qed.

Lemma alt_left_right_bit_align_witness :
  key_down 3 768 (viewer_state [1; 2; 3] 0 4 8 0 true false) SDLK_LEFT 256 600 =
    Ok (set_bit_align (viewer_state [1; 2; 3] 0 4 8 0 true false)
          (if bit_align (viewer_state [1; 2; 3] 0 4 8 0 true false) =? 0
           then 255 else bit_align (viewer_state [1; 2; 3] 0 4 8 0 true false) - 1)).
Proof.
  destruct (alt_left_right_bit_align 3 768
              (viewer_state [1; 2; 3] 0 4 8 0 true false) 256 600)
    as (_ & Hleft & _); [by_evaluation .. |].
  exact Hleft.
Defined.

(** ** Preset selection *)

(** X17: clicking any preset of the built-in catalog sets [bpp] to the sum of the
    preset's field widths, which lies between 1 and 32, and leaves the rest
    of the state alone; the next [render_viewport] with that preset then
    returns under both bit orders and both byte orders for every call within
    the ranges of [in_range_call]. *)
Theorem select_preset_catalog (S : ViewerState) (i : nat) rows :
  (i < length build_presets)%nat ->
  in_range_call S rows ->
  exists S',
    select_preset build_presets S i = Ok S' /\
    S' = set_bpp (set_preset_idx S (Z.of_nat i))
           (fold_right Z.add 0 (map bits (fields (preset_at i)))) /\
    1 <= bpp S' <= 32 /\
    exists px r, render_viewport S' (preset_at i) rows = Ok (px, r).
Proof.
  intros Hi Hcall.
  exists (set_bpp (set_preset_idx S (Z.of_nat i))
            (fold_right Z.add 0 (map bits (fields (preset_at i))))).
  assert (Hsum : 1 <= fold_right Z.add 0 (map bits (fields (preset_at i))) <= 32 /\
                 Forall (fun f => 0 <= bits f <= 63) (fields (preset_at i)) /\
                 select_preset build_presets S i =
                   Ok (set_bpp (set_preset_idx S (Z.of_nat i))
                         (fold_right Z.add 0 (map bits (fields (preset_at i)))))).
  { do 21 (destruct i as [|i];
           [split; [vm_compute; split; discriminate|];
            split; [repeat constructor; vm_compute; discriminate | reflexivity]|]).
    simpl in Hi. lia. }
  destruct Hsum as (Hrange & Hfields & Hrun).
  split; [exact Hrun|]. split; [reflexivity|]. split; [exact Hrange|].
  apply render_viewport_defined.
  - cbn [bpp set_bpp]. lia.
  - exact Hcall.
  - unfold decodable. cbn [bpp set_bpp]. repeat split; try (right; lia).
    exact Hfields.
Qed.

Lemma select_preset_catalog_witness :
  exists S',
    select_preset build_presets (viewer_state [1; 2; 3] 0 4 8 0 false true) 12 = Ok S' /\
    bpp S' = 10.
Proof.
  destruct (select_preset_catalog (viewer_state [1; 2; 3] 0 4 8 0 false true) 12 5)
    as (S' & Hrun & HS & _).
  - vm_compute. lia.
  - repeat split; by_evaluation.
  - exists S'. split; [exact Hrun|]. rewrite HS. reflexivity.
Defined.

(** ** Loading a file *)

(** A regular file read in full becomes the buffer, and the offset and the
    bit alignment are reset. *)
Lemma load_regular_file (S : ViewerState) path bytes :
  path <> ""%string ->
  Z.of_nat (length bytes) < 2 ^ 63 ->
  load_file_into S path (Some (regular_file bytes)) =
    Ok ({| data := bytes; filename := path; stofs := 0;
           width_px := width_px S; bpp := bpp S; bit_align := 0;
           preset_idx := preset_idx S; bit_order_msb := bit_order_msb S;
           byte_order_le := byte_order_le S |}, true).
Proof.
  intros Hpath Hlen. unfold load_file_into.
  destruct path; [contradiction|]. cbn [String.length Nat.eqb].
  cbv zeta. cbn [regular_file tellg allocated delivered negb].
  rewrite u64_small by lia.
  destruct (Z.gtb_spec (Z.of_nat (length bytes)) (2 ^ 63 - 1)); [lia|].
  cbn [orb]. rewrite Nat2Z.id, firstn_all, Nat.sub_diag. cbn [repeat].
  rewrite app_nil_r. reflexivity.
Qed.

(** A path that opens but whose end position cannot be told, as for a
    directory, makes the vector constructor throw: the load does not
    return, and neither does the frame that performs it. *)
Lemma load_not_regular_throws (S : ViewerState) path f :
  path <> ""%string ->
  tellg f = -1 ->
  load_file_into S path (Some f) = Undefined UncaughtException.
Proof.
  intros Hpath Hsz. unfold load_file_into.
  destruct path; [contradiction|]. cbn [String.length Nat.eqb].
  cbv zeta. rewrite Hsz. reflexivity.
Qed.

(** X18: after a regular file that holds at least one pixel and fewer than
    [2^32] bits has been loaded, [render_viewport] shows it from its first
    bit whatever offset and bit alignment were in use before: for a width
    that is an [int] and at least one requested row, with fewer than
    [2^30] requested pixels, on a decodable configuration, at least one
    row is rendered and the first pixel of the raster is the one decoded
    at bit 0 of the new buffer. *)
Theorem load_then_render (S : ViewerState) path tmp preset rows :
  path <> ""%string ->
  1 <= bpp S <= 64 ->
  decodable S preset ->
  is_int (width_px S) ->
  1 <= rows ->
  rows * width_of S < 2 ^ 30 ->
  bpp S <= spec_total_bits tmp < 2 ^ 32 ->
  exists S' px r c,
    load_file_into S path (Some (regular_file tmp)) = Ok (S', true) /\
    (data S' = tmp /\ stofs S' = 0 /\ bit_align S' = 0) /\
    render_viewport S' preset rows = Ok (px, r) /\
    1 <= r /\
    decode_pixel S' preset (spec_total_bits tmp) 0 = Ok c /\
    nth_error px 0 = Some (red c) /\
    nth_error px 1 = Some (green c) /\
    nth_error px 2 = Some (blue c) /\
    nth_error px 3 = Some (alpha c).
Proof.
  intros Hpath Hbpp Hdec Hwidth Hrows Hsize Hlen.
  set (S' := {| data := tmp; filename := path; stofs := 0;
                width_px := width_px S; bpp := bpp S; bit_align := 0;
                preset_idx := preset_idx S; bit_order_msb := bit_order_msb S;
                byte_order_le := byte_order_le S |}).
  assert (Hload : load_file_into S path (Some (regular_file tmp)) = Ok (S', true)).
  { apply load_regular_file; [exact Hpath | unfold spec_total_bits in Hlen; lia]. }
  pose proof (width_of_range S Hwidth) as Hw.
  assert (Hcall : in_range_call S' rows).
  { unfold in_range_call, start_bit_of, width_of, is_int, INT_MIN, INT_MAX.
    cbn [S' data stofs width_px bit_align]. unfold width_of in *.
    unfold is_int, INT_MIN, INT_MAX in Hwidth. repeat split; lia. }
  destruct (render_viewport_defined S' preset rows Hbpp Hcall Hdec) as (px & r & Hrun).
  assert (Hpa : 1 <= pixels_available_of S' < 2 ^ 32).
  { unfold pixels_available_of, start_bit_of. cbn [S' data stofs bit_align bpp].
    replace (spec_total_bits tmp - (0 * 8 + 0)) with (spec_total_bits tmp) by lia.
    split.
    - apply Z.div_le_lower_bound; lia.
    - apply Z.div_lt_upper_bound; nia. }
  assert (Hstart : start_bit_of S' = 0) by reflexivity.
  destruct (render_viewport_run S' preset rows px r Hwidth Hbpp ltac:(cbn; lia)
              ltac:(rewrite Hstart; cbn [S' data]; lia) ltac:(lia) ltac:(lia) Hrun)
    as (Hr & _ & _ & _).
  change (width_of S') with (width_of S) in *.
  assert (Hr1 : 1 <= r).
  { rewrite Hr. apply Z.div_le_lower_bound; lia. }
  destruct (render_viewport_pixel_at S' preset rows px r Hwidth Hbpp
              ltac:(cbn; lia) ltac:(rewrite Hstart; lia) Hrun 0)
    as (c & Hc & H0 & H1 & H2 & H3).
  - change (width_of S') with (width_of S). nia.
  - lia.
  - exists S', px, r, c. rewrite Hstart in Hc.
    split; [exact Hload|]. split; [repeat split|].
    repeat split; assumption.
Qed.

Lemma load_then_render_witness :
  exists S' px r c,
    load_file_into (viewer_state [9; 9] 1 2 16 5 true true) "a.bin"
      (Some (regular_file [18; 52; 86; 120])) = Ok (S', true) /\
    render_viewport S' (preset_at 9) 1 = Ok (px, r) /\
    1 <= r /\
    decode_pixel S' (preset_at 9) (spec_total_bits [18; 52; 86; 120]) 0 = Ok c /\
    nth_error px 0 = Some (red c).
Proof.
  destruct (load_then_render (viewer_state [9; 9] 1 2 16 5 true true) "a.bin"
              [18; 52; 86; 120] (preset_at 9) 1)
    as (S' & px & r & c & Hload & _ & Hrun & Hr & Hc & H0 & _).
  - discriminate.
  - by_evaluation.
  - repeat split; [left; reflexivity | right; by_evaluation |].
    repeat constructor; by_evaluation.
  - by_evaluation.
  - by_evaluation.
  - by_evaluation.
  - by_evaluation.
  - exists S', px, r, c. repeat split; assumption.
Defined.

(** ** Reading a run of bits in two parts *)

Lemma spec_read_msb_app data n1 n2 :
  forall p,
    spec_read_msb data p (n1 + n2) =
    spec_read_msb data p n1 * 2 ^ Z.of_nat n2 +
    spec_read_msb data (p + Z.of_nat n1) n2.
Proof.
  induction n1 as [|n1 IH]; intros p.
  - cbn [Nat.add spec_read_msb Z.of_nat]. rewrite Z.add_0_r. lia.
  - cbn [Nat.add spec_read_msb]. rewrite IH.
    rewrite Nat2Z.inj_add, Z.pow_add_r by lia.
    replace (p + 1 + Z.of_nat n1) with (p + Z.of_nat (S n1)) by lia. ring.
Qed.

Lemma spec_read_lsb_app data n1 n2 :
  forall p,
    spec_read_lsb data p (n1 + n2) =
    spec_read_lsb data p n1 +
    2 ^ Z.of_nat n1 * spec_read_lsb data (p + Z.of_nat n1) n2.
Proof.
  induction n1 as [|n1 IH]; intros p.
  - cbn [Nat.add spec_read_lsb Z.of_nat]. change (2 ^ 0) with 1.
    rewrite Z.add_0_r. lia.
  - cbn [Nat.add spec_read_lsb]. rewrite IH.
    rewrite Nat2Z.inj_succ, Z.pow_succ_r by lia.
    replace (p + 1 + Z.of_nat n1) with (p + Z.succ (Z.of_nat n1)) by lia. ring.
Qed.

(** X19: a run of [n1 + n2] bits, at most 32, read in one call is the run of its
    first [n1] bits and the run of the [n2] bits after them put together:
    under MSB_FIRST the first part is the high part of the value, under
    LSB_FIRST it is the low part. *)
Theorem read_bits_concat (data : list Z) (bitpos n1 n2 : Z) :
  0 <= bitpos ->
  0 <= n1 ->
  0 <= n2 ->
  n1 + n2 <= 32 ->
  bitpos + n1 + n2 < 2 ^ 64 ->
  (exists a b,
      read_bits_msb data (spec_total_bits data) bitpos n1 = Ok a /\
      read_bits_msb data (spec_total_bits data) (bitpos + n1) n2 = Ok b /\
      0 <= b < 2 ^ n2 /\
      read_bits_msb data (spec_total_bits data) bitpos (n1 + n2) =
        Ok (a * 2 ^ n2 + b)) /\
  (exists a b,
      read_bits_lsb data (spec_total_bits data) bitpos n1 = Ok a /\
      read_bits_lsb data (spec_total_bits data) (bitpos + n1) n2 = Ok b /\
      0 <= a < 2 ^ n1 /\
      read_bits_lsb data (spec_total_bits data) bitpos (n1 + n2) =
        Ok (a + 2 ^ n1 * b)).
Proof.
  intros Hpos H1 H2 H32 Hend.
  assert (Hn : Z.to_nat (n1 + n2) = (Z.to_nat n1 + Z.to_nat n2)%nat) by lia.
  pose proof (spec_read_msb_range data (Z.to_nat n1) bitpos) as Ra.
  pose proof (spec_read_msb_range data (Z.to_nat n2) (bitpos + n1)) as Rb.
  pose proof (spec_read_msb_range data (Z.to_nat (n1 + n2)) bitpos) as Rab.
  pose proof (spec_read_lsb_range data (Z.to_nat n1) bitpos) as La.
  pose proof (spec_read_lsb_range data (Z.to_nat n2) (bitpos + n1)) as Lb.
  rewrite !Z2Nat.id in * by lia.
  pose proof (pow2_le_mono n1 32 ltac:(lia)) as P1.
  pose proof (pow2_le_mono n2 32 ltac:(lia)) as P2.
  pose proof (pow2_le_mono (n1 + n2) 32 ltac:(lia)) as P12.
  split.
  - exists (spec_read_msb data bitpos (Z.to_nat n1)),
           (spec_read_msb data (bitpos + n1) (Z.to_nat n2)).
    rewrite !read_bits_msb_low32 by lia.
    rewrite !u32_small by lia.
    repeat split; try lia.
    f_equal. rewrite Hn, spec_read_msb_app. rewrite !Z2Nat.id by lia. reflexivity.
  - exists (spec_read_lsb data bitpos (Z.to_nat n1)),
           (spec_read_lsb data (bitpos + n1) (Z.to_nat n2)).
    rewrite !read_bits_lsb_spec by lia.
    repeat split; try lia.
    f_equal. rewrite Hn, spec_read_lsb_app. rewrite !Z2Nat.id by lia. reflexivity.
Qed.

Lemma read_bits_concat_witness :
  exists a b,
    read_bits_msb [18; 52; 86] (spec_total_bits [18; 52; 86]) 3 5 = Ok a /\
    read_bits_msb [18; 52; 86] (spec_total_bits [18; 52; 86]) (3 + 5) 6 = Ok b /\
    0 <= b < 2 ^ 6 /\
    read_bits_msb [18; 52; 86] (spec_total_bits [18; 52; 86]) 3 (5 + 6) =
      Ok (a * 2 ^ 6 + b).
Proof.
  destruct (read_bits_concat [18; 52; 86] 3 5 6) as [Hmsb _]; [by_evaluation .. |].
  exact Hmsb.
Defined.

(** ** Reads at byte boundaries *)

Lemma land_shiftr_1_testbit b k :
  0 <= k -> Z.land (Z.shiftr b k) 1 = Z.b2z (Z.testbit b k).
Proof.
  intros Hk. rewrite Z.testbit_spec' by lia.
  change 1 with (Z.ones 1). rewrite Z.land_ones by lia.
  rewrite Z.shiftr_div_pow2 by lia. reflexivity.
Qed.

(** The bit of the stream at [p] is a bit of the byte at [p / 8], also past
    the end of the buffer, where the byte reads as 0. *)
Lemma spec_bit_lsb_testbit data p :
  0 <= p ->
  spec_bit_lsb data p =
  Z.b2z (Z.testbit (nth (Z.to_nat (p / 8)) data 0) (p mod 8)).
Proof.
  intros Hp. unfold spec_bit_lsb.
  pose proof (Z.mod_pos_bound p 8 ltac:(lia)).
  destruct (Z.ltb_spec p (spec_total_bits data)) as [Hin|Hout].
  - apply land_shiftr_1_testbit; lia.
  - rewrite nth_overflow; [now rewrite Z.testbit_0_l|].
    unfold spec_total_bits in Hout.
    assert (Z.of_nat (length data) <= p / 8) by (apply Z.div_le_lower_bound; lia).
    lia.
Qed.

Lemma spec_bit_msb_testbit data p :
  0 <= p ->
  spec_bit_msb data p =
  Z.b2z (Z.testbit (nth (Z.to_nat (p / 8)) data 0) (7 - p mod 8)).
Proof.
  intros Hp. unfold spec_bit_msb.
  pose proof (Z.mod_pos_bound p 8 ltac:(lia)).
  destruct (Z.ltb_spec p (spec_total_bits data)) as [Hin|Hout].
  - apply land_shiftr_1_testbit; lia.
  - rewrite nth_overflow; [now rewrite Z.testbit_0_l|].
    unfold spec_total_bits in Hout.
    assert (Z.of_nat (length data) <= p / 8) by (apply Z.div_le_lower_bound; lia).
    lia.
Qed.

Lemma b2z_inj a b : Z.b2z a = Z.b2z b -> a = b.
Proof. destruct a, b; simpl; congruence. Qed.

(** The bits of a run of [n] whole bytes that starts at byte [k]. *)
Lemma aligned_lsb_bits data k n m :
  0 <= k -> 0 <= m < 8 * n ->
  Z.testbit (spec_read_lsb data (8 * k) (Z.to_nat (8 * n))) m =
  Z.testbit (nth (Z.to_nat (k + m / 8)) data 0) (m mod 8).
Proof.
  intros Hk Hm. apply b2z_inj.
  rewrite spec_read_lsb_bit by lia.
  rewrite spec_bit_lsb_testbit by lia.
  replace (8 * k + m) with (m + k * 8) by lia.
  rewrite Z.div_add, Z.mod_add by lia.
  replace (m / 8 + k) with (k + m / 8) by lia. reflexivity.
Qed.

Lemma aligned_msb_bits data k n m :
  0 <= k -> 0 <= m < 8 * n ->
  Z.testbit (spec_read_msb data (8 * k) (Z.to_nat (8 * n))) m =
  Z.testbit (nth (Z.to_nat (k + (n - 1 - m / 8))) data 0) (m mod 8).
Proof.
  intros Hk Hm. apply b2z_inj.
  pose proof (Z.div_mod m 8 ltac:(lia)) as Hd.
  pose proof (Z.mod_pos_bound m 8 ltac:(lia)) as Hr.
  assert (Hq : 0 <= m / 8 < n).
  { split; [apply Z.div_pos; lia | apply Z.div_lt_upper_bound; lia]. }
  replace m with (Z.of_nat (Z.to_nat (8 * n)) - 1 - (8 * n - 1 - m)) at 1 by lia.
  rewrite spec_read_msb_bit by lia.
  rewrite spec_bit_msb_testbit by lia.
  replace (8 * k + (8 * n - 1 - m))
    with ((7 - m mod 8) + (k + (n - 1 - m / 8)) * 8) by lia.
  rewrite Z.div_add, Z.mod_add by lia.
  rewrite (Z.div_small (7 - m mod 8)), (Z.mod_small (7 - m mod 8)) by lia.
  replace (7 - (7 - m mod 8)) with (m mod 8) by lia.
  replace (0 + (k + (n - 1 - m / 8))) with (k + (n - 1 - m / 8)) by lia.
  reflexivity.
Qed.

Lemma testbit_above z n m :
  0 <= z < 2 ^ n -> 0 <= n <= m -> Z.testbit z m = false.
Proof.
  intros Hz Hm. rewrite <- (Z.mod_small z (2 ^ n)) by lia.
  apply Z.mod_pow2_bits_high; lia.
Qed.

(** One whole byte read at a byte boundary is the byte, in both orders. *)
Lemma aligned_byte data k :
  0 <= k ->
  0 <= nth (Z.to_nat k) data 0 < 256 ->
  spec_read_msb data (8 * k) 8 = nth (Z.to_nat k) data 0 /\
  spec_read_lsb data (8 * k) 8 = nth (Z.to_nat k) data 0.
Proof.
  intros Hk Hb.
  pose proof (spec_read_msb_range data 8 (8 * k)) as Rm.
  pose proof (spec_read_lsb_range data 8 (8 * k)) as Rl.
  change (Z.of_nat 8) with 8 in *.
  split; apply Z.bits_inj'; intros m Hm.
  - destruct (Z.lt_ge_cases m 8) as [Hlo|Hhi].
    + change 8%nat with (Z.to_nat (8 * 1)).
      rewrite aligned_msb_bits by lia.
      rewrite Z.div_small, Z.mod_small by lia.
      replace (k + (1 - 1 - 0)) with k by lia. reflexivity.
    + rewrite (testbit_above _ 8 m), (testbit_above (nth _ _ _) 8 m) by lia.
      reflexivity.
  - destruct (Z.lt_ge_cases m 8) as [Hlo|Hhi].
    + change 8%nat with (Z.to_nat (8 * 1)).
      rewrite aligned_lsb_bits by lia.
      rewrite Z.div_small, Z.mod_small by lia.
      replace (k + 0) with k by lia. reflexivity.
    + rewrite (testbit_above _ 8 m), (testbit_above (nth _ _ _) 8 m) by lia.
      reflexivity.
Qed.

Lemma skipn_nth_cons (l : list Z) : forall k,
  (k < length l)%nat -> skipn k l = nth k l 0 :: skipn (S k) l.
Proof.
  induction l as [|h t IH]; intros [|k] Hk; simpl in *; try lia; auto.
  apply IH; lia.
Qed.

Lemma aligned_bytes_values data :
  Forall (fun b => 0 <= b < 256) data ->
  forall n k,
    (k + n <= length data)%nat ->
    spec_read_msb data (8 * Z.of_nat k) (8 * n) = be_value (firstn n (skipn k data)) /\
    spec_read_lsb data (8 * Z.of_nat k) (8 * n) = le_value (firstn n (skipn k data)).
Proof.
  intros Hbytes. induction n as [|n IH]; intros k Hk.
  - split; reflexivity.
  - replace (8 * S n)%nat with (8 + 8 * n)%nat by lia.
    rewrite spec_read_msb_app, spec_read_lsb_app.
    rewrite skipn_nth_cons by lia. cbn [firstn be_value le_value].
    assert (Hb : 0 <= nth k data 0 < 256).
    { apply (proj1 (Forall_forall _ data) Hbytes). apply nth_In. lia. }
    destruct (aligned_byte data (Z.of_nat k) ltac:(lia)) as [Em El];
      [rewrite Nat2Z.id; exact Hb|].
    rewrite Nat2Z.id in Em, El. rewrite Em, El.
    replace (8 * Z.of_nat k + Z.of_nat 8) with (8 * Z.of_nat (S k)) by lia.
    destruct (IH (S k) ltac:(lia)) as [-> ->].
    rewrite length_firstn, length_skipn.
    replace (Nat.min n (length data - S k)) with n by lia.
    split.
    + f_equal. replace (Z.of_nat (8 * n)) with (8 * Z.of_nat n) by lia.
      rewrite Z.pow_mul_r by lia. reflexivity.
    + reflexivity.
Qed.

(** X20: a run of up to four whole bytes read at a byte boundary inside the
    buffer: [read_bits_msb] returns the bytes as a big-endian integer and
    [read_bits_lsb] returns them as a little-endian integer. *)
Theorem read_bits_aligned_bytes (data : list Z) (k n : nat) :
  Forall (fun b => 0 <= b < 256) data ->
  (k + n <= length data)%nat ->
  (n <= 4)%nat ->
  spec_total_bits data < 2 ^ 63 ->
  read_bits_msb data (spec_total_bits data) (8 * Z.of_nat k) (8 * Z.of_nat n) =
    Ok (be_value (firstn n (skipn k data))) /\
  read_bits_lsb data (spec_total_bits data) (8 * Z.of_nat k) (8 * Z.of_nat n) =
    Ok (le_value (firstn n (skipn k data))).
Proof.
  intros Hbytes Hk Hn Hlen. unfold spec_total_bits in Hlen.
  destruct (aligned_bytes_values data Hbytes n k Hk) as [Em El].
  pose proof (spec_read_msb_range data (8 * n) (8 * Z.of_nat k)) as Rm.
  pose proof (pow2_le_mono (Z.of_nat (8 * n)) 32 ltac:(lia)) as Hp.
  replace (Z.to_nat (8 * Z.of_nat n)) with (8 * n)%nat
    in * by lia.
  split.
  - rewrite read_bits_msb_low32 by lia.
    replace (Z.to_nat (8 * Z.of_nat n)) with (8 * n)%nat by lia.
    rewrite u32_small by lia. now rewrite Em.
  - rewrite read_bits_lsb_spec by lia.
    replace (Z.to_nat (8 * Z.of_nat n)) with (8 * n)%nat by lia.
    now rewrite El.
Qed.

Lemma read_bits_aligned_bytes_witness :
  read_bits_msb [18; 52; 86; 120] (spec_total_bits [18; 52; 86; 120])
    (8 * Z.of_nat 1) (8 * Z.of_nat 2) = Ok (be_value [52; 86]) /\
  read_bits_lsb [18; 52; 86; 120] (spec_total_bits [18; 52; 86; 120])
    (8 * Z.of_nat 1) (8 * Z.of_nat 2) = Ok (le_value [52; 86]).
Proof.
  apply (read_bits_aligned_bytes [18; 52; 86; 120] 1 2).
  - repeat constructor; by_evaluation.
  - simpl; lia.
  - lia.
  - by_evaluation.
Defined.

(** ** Bit order and byte order *)

(** Two configurations with the same [bpp] whose pixels decode alike
    wherever the loop reads them give the same run of the loop. *)
Lemma render_loop_agree s1 s2 preset total_bits pixels_available width n :
  bpp s1 = bpp s2 ->
  1 <= bpp s1 <= 64 ->
  forall p bitpos out,
    0 <= p ->
    p + Z.of_nat n < 2 ^ 32 ->
    0 <= bitpos ->
    (p < pixels_available -> bitpos + (pixels_available - p) * bpp s1 <= 2 ^ 63) ->
    (forall j, 0 <= j -> p + j < pixels_available ->
       decode_pixel s1 preset total_bits (bitpos + j * bpp s1) =
       decode_pixel s2 preset total_bits (bitpos + j * bpp s1)) ->
    render_loop s1 preset total_bits pixels_available width n p bitpos out =
    render_loop s2 preset total_bits pixels_available width n p bitpos out.
Proof.
  intros Hsame Hbpp.
  induction n as [|n IH]; intros p bitpos out Hp Hn Hpos Hcur Hagree; [reflexivity|].
  cbn [render_loop]. cbv zeta.
  destruct (load out _) as [x|]; cbn [bind]; [|reflexivity].
  rewrite (u32_small (p + 1)) by lia.
  destruct (Z.geb_spec p pixels_available) as [Hge|Hlt].
  - destruct (clear_pixel out _) as [out1|]; cbn [bind]; [|reflexivity].
    apply IH; lia.
  - pose proof (Hagree 0 ltac:(lia) ltac:(lia)) as H0.
    rewrite Z.mul_0_l, Z.add_0_r in H0. rewrite <- H0.
    destruct (decode_pixel s1 preset total_bits bitpos) as [c|]; cbn [bind];
      [|reflexivity].
    destruct (store_pixel out _ c) as [out1|]; cbn [bind]; [|reflexivity].
    rewrite <- Hsame.
    rewrite (u64_small (bpp s1)) by lia.
    rewrite (u64_small (bitpos + bpp s1)) by nia.
    apply IH; try lia; try nia.
    intros j Hj Hav.
    replace (bitpos + bpp s1 + j * bpp s1) with (bitpos + (j + 1) * bpp s1) by lia.
    apply Hagree; lia.
Qed.

(** [render_viewport] under two settings of the order checkboxes that
    decode every whole pixel of the window alike. *)
Lemma render_viewport_orders (S : ViewerState) preset rows m1 l1 m2 l2 :
  1 <= bpp S <= 64 ->
  spec_total_bits (data S) < 2 ^ 63 ->
  (forall j, 0 <= j ->
     u64 (start_bit_of S) + (j + 1) * bpp S <= spec_total_bits (data S) ->
     decode_pixel (set_orders S m1 l1) preset (spec_total_bits (data S))
       (u64 (start_bit_of S) + j * bpp S) =
     decode_pixel (set_orders S m2 l2) preset (spec_total_bits (data S))
       (u64 (start_bit_of S) + j * bpp S)) ->
  render_viewport (set_orders S m1 l1) preset rows =
  render_viewport (set_orders S m2 l2) preset rows.
Proof.
  intros Hbpp Hlen Hagree.
  assert (Htot : 0 <= spec_total_bits (data S)) by (unfold spec_total_bits; lia).
  unfold render_viewport. cbv zeta.
  cbn [data stofs bit_align width_px bpp set_orders].
  fold (spec_total_bits (data S)).
  destruct (int_mul (stofs S) 8) as [t|] eqn:Et; cbn [bind]; [|reflexivity].
  destruct (int_add t (bit_align S)) as [sb|] eqn:Esb; cbn [bind]; [|reflexivity].
  assert (Hsb : sb = start_bit_of S).
  { unfold int_mul in Et. apply int_result_inv in Et as [-> _].
    unfold int_add in Esb. apply int_result_inv in Esb as [-> _]. reflexivity. }
  subst sb.
  rewrite (u64_small (spec_total_bits (data S))) by lia.
  destruct (Z.geb_spec (u64 (start_bit_of S)) (spec_total_bits (data S)))
    as [Hpast|Hin]; [reflexivity|].
  destruct (int_mul rows _) as [ptr|]; cbn [bind]; [|reflexivity].
  rewrite (u64_small (bpp S)) by lia.
  rewrite u64_div_Ok by lia. cbn [bind].
  pose proof (Z.mod_pos_bound (start_bit_of S) (2 ^ 64) ltac:(lia)) as Hstart.
  fold (u64 (start_bit_of S)) in Hstart.
  set (start := u64 (start_bit_of S)) in *.
  rewrite (u64_small (spec_total_bits (data S) - start)) by lia.
  set (pa := (spec_total_bits (data S) - start) / bpp S).
  assert (Hpa : pa * bpp S <= spec_total_bits (data S) - start).
  { pose proof (Z.mul_div_le (spec_total_bits (data S) - start) (bpp S) ltac:(lia)).
    fold pa in H. lia. }
  destruct (pa =? 0); [reflexivity|].
  set (rn := u32 (u32 (Z.min (u32 ptr) (u32 pa) + u32 (Z.max 1 (width_px S))) - 1)
             / u32 (Z.max 1 (width_px S))).
  pose proof (u32_range (rn * u32 (Z.max 1 (width_px S)))) as Hcount.
  rewrite (render_loop_agree (set_orders S m1 l1) (set_orders S m2 l2) preset
             (spec_total_bits (data S)) pa (Z.max 1 (width_px S))
             (Z.to_nat (u32 (rn * u32 (Z.max 1 (width_px S)))))
             eq_refl Hbpp 0 start); try lia.
  - reflexivity.
  - cbn [bpp set_orders]. nia.
  - cbn [bpp set_orders]. intros j Hj Hav. apply Hagree; [lia|]. nia.
Qed.

Lemma render_loop_ext s1 s2 preset total_bits pixels_available width n :
  bpp s1 = bpp s2 ->
  (forall b, decode_pixel s1 preset total_bits b = decode_pixel s2 preset total_bits b) ->
  forall p bitpos out,
    render_loop s1 preset total_bits pixels_available width n p bitpos out =
    render_loop s2 preset total_bits pixels_available width n p bitpos out.
Proof.
  intros Hsame Hagree.
  induction n as [|n IH]; intros p bitpos out; [reflexivity|].
  cbn [render_loop]. cbv zeta.
  destruct (load out _) as [x|]; cbn [bind]; [|reflexivity].
  destruct (p >=? pixels_available).
  - destruct (clear_pixel out _) as [out1|]; cbn [bind]; [|reflexivity]. apply IH.
  - rewrite <- Hagree.
    destruct (decode_pixel s1 preset total_bits bitpos) as [c|]; cbn [bind];
      [|reflexivity].
    destruct (store_pixel out _ c) as [out1|]; cbn [bind]; [|reflexivity].
    rewrite <- Hsame. apply IH.
Qed.

(** X21: with 8 bits per pixel or fewer the "Byte-order LE" checkbox has no
    effect: [render_viewport] gives the same outcome, raster and row count
    or undefined step, with the box checked and unchecked. *)
Theorem byte_order_ignored_up_to_8 (S : ViewerState) preset rows (msb : bool) :
  bpp S <= 8 ->
  render_viewport (set_orders S msb true) preset rows =
  render_viewport (set_orders S msb false) preset rows.
Proof.
  intros Hbpp.
  assert (Hdec : forall b,
             decode_pixel (set_orders S msb true) preset
               (u64 (Z.of_nat (length (data S)) * 8)) b =
             decode_pixel (set_orders S msb false) preset
               (u64 (Z.of_nat (length (data S)) * 8)) b).
  { intros b. unfold decode_pixel.
    cbn [data bpp bit_order_msb byte_order_le set_orders].
    unfold adjust_endianness_pixel.
    destruct (Z.leb_spec (bpp S) 8); [|lia].
    cbn [negb orb]. reflexivity. }
  unfold render_viewport. cbv zeta.
  cbn [data stofs bit_align width_px bpp set_orders].
  destruct (int_mul (stofs S) 8) as [t|]; cbn [bind]; [|reflexivity].
  destruct (int_add t (bit_align S)) as [sb|]; cbn [bind]; [|reflexivity].
  destruct (_ >=? _); [reflexivity|].
  destruct (int_mul rows _) as [ptr|]; cbn [bind]; [|reflexivity].
  destruct (u64_div _ _) as [pa|]; cbn [bind]; [|reflexivity].
  destruct (pa =? 0); [reflexivity|].
  rewrite (render_loop_ext (set_orders S msb true) (set_orders S msb false) preset
             _ pa _ _ eq_refl Hdec).
  reflexivity.
Qed.

Lemma byte_order_ignored_up_to_8_witness :
  render_viewport (set_orders (viewer_state [180; 0] 0 4 4 0 true false) false true)
    (preset_at 1) 1 =
  render_viewport (set_orders (viewer_state [180; 0] 0 4 4 0 true false) false false)
    (preset_at 1) 1.
Proof. apply byte_order_ignored_up_to_8. by_evaluation. Defined.

(** A pixel of [n] whole bytes at a byte boundary decodes alike when it is
    read LSB_FIRST and byte-swapped and when it is read MSB_FIRST and left
    as it is. *)
Lemma adjust_aligned_orders data k n :
  1 <= n <= 4 -> 0 <= k ->
  adjust_endianness_pixel (spec_read_lsb data (8 * k) (Z.to_nat (8 * n))) (8 * n) true =
  adjust_endianness_pixel (spec_read_msb data (8 * k) (Z.to_nat (8 * n))) (8 * n) false.
Proof.
  intros Hn Hk.
  pose proof (spec_read_msb_range data (Z.to_nat (8 * n)) (8 * k)) as Rm.
  pose proof (spec_read_lsb_range data (Z.to_nat (8 * n)) (8 * k)) as Rl.
  rewrite Z2Nat.id in Rm, Rl by lia.
  set (vl := spec_read_lsb data (8 * k) (Z.to_nat (8 * n))) in *.
  set (vm := spec_read_msb data (8 * k) (Z.to_nat (8 * n))) in *.
  rewrite adjust_big_endian_mask by lia.
  rewrite Z.land_ones, (Z.mod_small vm) by lia.
  assert (Hbits : forall m, 0 <= m < 8 * n ->
             Z.testbit vl (8 * (n - 1 - m / 8) + m mod 8) = Z.testbit vm m).
  { intros m Hm.
    pose proof (Z.mod_pos_bound m 8 ltac:(lia)) as Hr.
    assert (Hq : 0 <= m / 8 < n).
    { split; [apply Z.div_pos; lia | apply Z.div_lt_upper_bound; lia]. }
    unfold vl, vm. rewrite aligned_lsb_bits, aligned_msb_bits by lia.
    replace (8 * (n - 1 - m / 8) + m mod 8)
      with (m mod 8 + (n - 1 - m / 8) * 8) by lia.
    rewrite Z.div_add, Z.mod_add by lia.
    rewrite Z.div_small, Z.mod_mod by lia.
    replace (k + (0 + (n - 1 - m / 8))) with (k + (n - 1 - m / 8)) by lia.
    reflexivity. }
  destruct (Z.eq_dec n 1) as [->|Hne].
  - unfold adjust_endianness_pixel. change (8 * 1) with 8 in *.
    change (negb true || (8 <=? 8)) with true. cbv iota.
    change (8 >=? 64) with false. cbv iota.
    rewrite low_mask_Ok by lia. cbn [bind]. f_equal.
    change (2 ^ 8 - 1) with (Z.ones 8).
    rewrite Z.land_ones, (Z.mod_small vl) by lia.
    apply Z.bits_inj'. intros m Hm0.
    destruct (Z.lt_ge_cases m 8) as [Hlo|Hhi].
    + rewrite <- Hbits by lia.
      rewrite Z.div_small, Z.mod_small by lia. f_equal.
    + rewrite (testbit_above vl 8 m), (testbit_above vm 8 m) by lia. reflexivity.
  - destruct (adjust_little_endian_bits vl (8 * n) ltac:(lia)) as (w & -> & Hw).
    f_equal. apply Z.bits_inj'. intros m Hm0. rewrite Hw by lia.
    destruct (Z.ltb_spec m (8 * n)) as [Hlo|Hhi]; cbn [andb].
    + replace ((8 * n + 7) / 8) with n.
      * apply Hbits; lia.
      * apply Z.div_unique with (r := 7); lia.
    + symmetry. apply (testbit_above vm (8 * n) m); lia.
Qed.

Lemma u64_multiple_of_8 z : u64 (z * 8) mod 8 = 0.
Proof.
  unfold u64. change (2 ^ 64) with (8 * 2 ^ 61).
  rewrite Z.mul_comm, Zmult_mod_distr_l. rewrite Z.mul_comm. apply Z.mod_mul. lia.
Qed.

(** X22: on a view that starts at a byte boundary with 8, 16, 24 or 32 bits per
    pixel, reading LSB_FIRST with the little-endian byte order gives the
    same outcome of [render_viewport] as reading MSB_FIRST with the
    big-endian one: for whole bytes the two settings name the same
    pixels. *)
Theorem lsb_little_endian_is_msb_big_endian (S : ViewerState) preset rows :
  bit_align S = 0 ->
  In (bpp S) [8; 16; 24; 32] ->
  spec_total_bits (data S) < 2 ^ 63 ->
  render_viewport (set_orders S false true) preset rows =
  render_viewport (set_orders S true false) preset rows.
Proof.
  intros Hal Hbpp Hlen.
  assert (Hn : exists n, 1 <= n <= 4 /\ bpp S = 8 * n).
  { simpl in Hbpp. destruct Hbpp as [H|[H|[H|[H|[]]]]];
      [exists 1 | exists 2 | exists 3 | exists 4]; lia. }
  destruct Hn as (n & Hn & Hb).
  apply render_viewport_orders; try lia.
  intros j Hj Hin.
  assert (Hstart : u64 (start_bit_of S) mod 8 = 0).
  { unfold start_bit_of. rewrite Hal, Z.add_0_r. apply u64_multiple_of_8. }
  pose proof (Z.mod_pos_bound (start_bit_of S) (2 ^ 64) ltac:(lia)) as Hrange.
  fold (u64 (start_bit_of S)) in Hrange.
  set (start := u64 (start_bit_of S)) in *.
  pose proof (Z.div_mod start 8 ltac:(lia)) as Hd.
  assert (Hk : 0 <= start / 8) by (apply Z.div_pos; lia).
  replace (start + j * bpp S) with (8 * (start / 8 + j * n)) by lia.
  unfold decode_pixel. cbn [data bpp bit_order_msb byte_order_le set_orders].
  rewrite read_bits_lsb_spec by nia.
  rewrite read_bits_msb_low32 by nia.
  cbn [bind]. rewrite Hb.
  pose proof (spec_read_msb_range (data S) (Z.to_nat (8 * n))
                (8 * (start / 8 + j * n))) as Rm.
  rewrite Z2Nat.id in Rm by lia.
  pose proof (pow2_le_mono (8 * n) 32 ltac:(lia)) as Hp.
  rewrite u32_small by lia.
  rewrite adjust_aligned_orders by nia.
  reflexivity.
Qed.

Lemma lsb_little_endian_is_msb_big_endian_witness :
  render_viewport
    (set_orders (viewer_state [18; 52; 86; 120; 154] 1 2 16 0 true false) false true)
    (preset_at 9) 3 =
  render_viewport
    (set_orders (viewer_state [18; 52; 86; 120; 154] 1 2 16 0 true false) true false)
    (preset_at 9) 3.
Proof.
  apply lsb_little_endian_is_msb_big_endian; [reflexivity | | by_evaluation].
  simpl; auto.
Defined.

(** ** Moving the window by whole pixels *)

(** [decode_pixel] reads the buffer, [bpp] and the two orders of the
    configuration, and nothing else of it. *)
Lemma decode_pixel_same_source s1 s2 preset total_bits bitpos :
  data s2 = data s1 ->
  bpp s2 = bpp s1 ->
  bit_order_msb s2 = bit_order_msb s1 ->
  byte_order_le s2 = byte_order_le s1 ->
  decode_pixel s2 preset total_bits bitpos = decode_pixel s1 preset total_bits bitpos.
Proof.
  intros Hd Hb Hm Hl. unfold decode_pixel. rewrite Hd, Hb, Hm, Hl. reflexivity.
Qed.

(** X23: two views of the same buffer with the same [bpp] and orders, the second
    starting [k] whole pixels after the first, whatever their widths and
    row counts are: pixel [p] of the second raster is pixel [p + k] of the
    first, byte for byte.  With [k = 0] this is a change of width alone,
    which only wraps the same pixel sequence into rows of another
    length. *)
Theorem render_viewport_shifted s1 s2 preset rows1 rows2 px1 r1 px2 r2 k :
  data s2 = data s1 ->
  bpp s2 = bpp s1 ->
  bit_order_msb s2 = bit_order_msb s1 ->
  byte_order_le s2 = byte_order_le s1 ->
  is_int (width_px s1) ->
  is_int (width_px s2) ->
  1 <= bpp s1 <= 64 ->
  spec_total_bits (data s1) < 2 ^ 63 ->
  0 <= start_bit_of s1 ->
  0 <= k ->
  start_bit_of s2 = start_bit_of s1 + k * bpp s1 ->
  render_viewport s1 preset rows1 = Ok (px1, r1) ->
  render_viewport s2 preset rows2 = Ok (px2, r2) ->
  forall p j,
    0 <= p < r2 * width_of s2 ->
    p < pixels_available_of s2 ->
    p + k < r1 * width_of s1 ->
    0 <= j < 4 ->
    nth_error px2 (Z.to_nat (4 * p + j)) = nth_error px1 (Z.to_nat (4 * (p + k) + j)).
Proof.
  intros Hd Hb Hm Hl Hw1 Hw2 Hbpp Hlen Hstart Hk Hshift Hrun1 Hrun2 p j Hp Hav Hpk Hj.
  assert (Hav1 : p + k < pixels_available_of s1).
  { unfold pixels_available_of in *. rewrite Hd, Hb, Hshift in Hav.
    replace (spec_total_bits (data s1) - (start_bit_of s1 + k * bpp s1))
      with (spec_total_bits (data s1) - start_bit_of s1 + (- k) * bpp s1) in Hav by lia.
    rewrite Z.div_add in Hav by lia. lia. }
  destruct (render_viewport_pixel_at s2 preset rows2 px2 r2 Hw2
              ltac:(rewrite Hb; exact Hbpp) ltac:(rewrite Hd; exact Hlen)
              ltac:(rewrite Hshift; nia) Hrun2 p Hp Hav)
    as (c2 & Hc2 & A0 & A1 & A2 & A3).
  destruct (render_viewport_pixel_at s1 preset rows1 px1 r1 Hw1 Hbpp Hlen Hstart
              Hrun1 (p + k) ltac:(lia) Hav1)
    as (c1 & Hc1 & B0 & B1 & B2 & B3).
  rewrite (decode_pixel_same_source s1 s2) in Hc2 by assumption.
  rewrite Hd, Hb, Hshift in Hc2.
  replace (start_bit_of s1 + k * bpp s1 + p * bpp s1)
    with (start_bit_of s1 + (p + k) * bpp s1) in Hc2 by lia.
  rewrite Hc1 in Hc2. inversion Hc2; subst c2.
  assert (Hcases : j = 0 \/ j = 1 \/ j = 2 \/ j = 3) by lia.
  destruct Hcases as [-> | [-> | [-> | ->]]].
  - rewrite !Z.add_0_r. congruence.
  - congruence.
  - congruence.
  - congruence.
Qed.

Lemma render_viewport_shifted_witness :
  nth_error [3; 3; 3; 255;  4; 4; 4; 255;  5; 5; 5; 255] (Z.to_nat (4 * 1 + 0)) =
  nth_error [1; 1; 1; 255;  2; 2; 2; 255;  3; 3; 3; 255;  4; 4; 4; 255]
    (Z.to_nat (4 * (1 + 2) + 0)).
Proof.
  apply (render_viewport_shifted
           (viewer_state [1; 2; 3; 4; 5] 0 2 8 0 true false)
           (viewer_state [1; 2; 3; 4; 5] 2 3 8 0 true false)
           (preset_at 3) 2 1
           [1; 1; 1; 255;  2; 2; 2; 255;  3; 3; 3; 255;  4; 4; 4; 255] 2
           [3; 3; 3; 255;  4; 4; 4; 255;  5; 5; 5; 255] 1 2);
    by_evaluation.
Defined.

(** ** Presets wider than the pixel *)

(** With no bit of the pixel left, every field sets its channel to 0. *)
Lemma decode_fields_exhausted pixel_val fs :
  Forall (fun f => 0 <= bits f) fs ->
  forall px,
    decode_fields pixel_val fs 0 px =
    Ok (fold_left (fun c f => assign_channel (name f) 0 c) fs px).
Proof.
  induction 1 as [|f fs Hf Hfs IH]; intros px; [reflexivity|].
  cbn [decode_fields fold_left]. cbv zeta.
  rewrite Z.min_r by lia. cbn [Z.ltb Z.compare andb bind].
  unfold int_sub. rewrite int_result_Ok by by_evaluation. cbn [bind].
  change (scale_to_8 0 (u8 0)) with (Ok (A := Z) 0). cbn [bind].
  apply IH.
Qed.

(** X24: when the first field of a preset is at least as wide as the pixel, it
    takes all the bits of the pixel, and every field after it sets its
    channel to 0 instead of leaving the default 255. *)
Theorem decode_fields_out_of_bits pixel_val f fs cur_shift px :
  1 <= cur_shift <= 63 ->
  cur_shift <= bits f ->
  Forall (fun g => 0 <= bits g) fs ->
  exists v,
    scale_to_8 (Z.land pixel_val (Z.ones cur_shift)) cur_shift = Ok v /\
    decode_fields pixel_val (f :: fs) cur_shift px =
      Ok (fold_left (fun c g => assign_channel (name g) 0 c) fs
            (assign_channel (name f) v px)).
Proof.
  intros Hcs Hwide Hfs.
  destruct (scale_to_8_defined (Z.land pixel_val (Z.ones cur_shift)) cur_shift
              ltac:(lia)) as (v & Hv).
  exists v. split; [exact Hv|].
  cbn [decode_fields]. cbv zeta.
  rewrite Z.min_r by lia.
  destruct (Z.ltb_spec 0 cur_shift); [|lia]. cbn [andb].
  unfold int_sub. rewrite Z.sub_diag.
  rewrite int_result_Ok by by_evaluation. cbn [bind].
  rewrite u64_shr_Ok by lia. cbn [bind]. rewrite Z.shiftr_0_r.
  rewrite low_mask_Ok by lia. cbn [bind].
  replace (2 ^ cur_shift - 1) with (Z.ones cur_shift)
    by (rewrite Z.ones_equiv; lia).
  rewrite u8_small by lia. rewrite Hv. cbn [bind].
  now apply decode_fields_exhausted.
Qed.

Lemma decode_fields_out_of_bits_witness :
  exists v,
    scale_to_8 (Z.land 200 (Z.ones 8)) 8 = Ok v /\
    decode_fields 200 (fields (preset_at 15)) 8
      {| red := 255; green := 255; blue := 255; alpha := 255 |} =
    Ok (fold_left (fun c g => assign_channel (name g) 0 c) [field "g" 8; field "b" 8]
          (assign_channel "r" v {| red := 255; green := 255; blue := 255; alpha := 255 |})).
Proof.
  apply (decode_fields_out_of_bits 200 (field "r" 8) [field "g" 8; field "b" 8] 8).
  - lia.
  - simpl; lia.
  - repeat constructor; simpl; lia.
Defined.

(** ** The state a frame renders *)

Lemma select_preset_frame presets (S : ViewerState) i S' :
  select_preset presets S i = Ok S' ->
  width_px S' = width_px S /\ bit_align S' = bit_align S /\
  preset_idx S' = Z.of_nat i.
Proof.
  unfold select_preset. cbv zeta. intros H. bind_inv H.
  destruct (a >? 0); inversion H; subst; repeat split.
Qed.

Lemma select_loop_frame presets clicked n :
  forall (S : ViewerState) i S',
    select_loop presets clicked S i n = Ok S' ->
    width_px S' = width_px S /\ bit_align S' = bit_align S /\
    (preset_idx S' = preset_idx S \/
     Z.of_nat i <= preset_idx S' < Z.of_nat (i + n)).
Proof.
  induction n as [|n IH]; intros S i S' H.
  - simpl in H. inversion H; subst. auto.
  - cbn [select_loop] in H. bind_inv H.
    apply IH in H. destruct H as (Hw & Hal & Hidx).
    destruct (clicked i).
    + apply select_preset_frame in Ha. destruct Ha as (Hw0 & Hal0 & Hi0).
      repeat split; try congruence. right. lia.
    + inversion Ha; subst a. repeat split; try assumption.
      destruct Hidx as [Hidx|Hidx]; [left; exact Hidx | right; lia].
Qed.

(** No key changes the preset index. *)
Lemma key_down_preset_idx KMOD_SHIFT KMOD_ALT (S : ViewerState) k kmod win_h S' :
  key_down KMOD_SHIFT KMOD_ALT S k kmod win_h = Ok S' ->
  preset_idx S' = preset_idx S.
Proof.
  unfold key_down. intros H.
  destruct (negb (Z.land kmod KMOD_SHIFT =? 0));
    [|destruct (negb (Z.land kmod KMOD_ALT =? 0))];
    destruct k; cbv zeta in H;
    repeat (first
      [ match type of H with Ok _ = Ok _ => inversion H; subst; reflexivity end
      | match type of H with
        | bind _ _ = Ok _ =>
            let a := fresh "a" in let Ha := fresh "Ha" in
            apply bind_Ok in H; destruct H as (a & Ha & H)
        | (if ?c then _ else _) = Ok _ => destruct c
        end ]).
Qed.

Lemma key_events_loop_preset_idx KMOD_SHIFT KMOD_ALT events win_h :
  forall (S S' : ViewerState),
    key_events_loop KMOD_SHIFT KMOD_ALT S events win_h = Ok S' ->
    preset_idx S' = preset_idx S.
Proof.
  induction events as [|[k kmod] rest IH]; intros S S' H.
  - simpl in H. inversion H; reflexivity.
  - cbn [key_events_loop] in H. bind_inv H.
    apply IH in H. apply key_down_preset_idx in Ha. congruence.
Qed.

Lemma controls_preset_idx ui (S : ViewerState) :
  preset_idx (controls ui S) = preset_idx S.
Proof.
  unfold controls. cbv zeta.
  destruct (button_1bpp ui), (button_4bpp ui), (button_8bpp ui), (button_16bpp ui);
    reflexivity.
Qed.

(** A frame that reaches the renderer ran the key handler, the controls
    and the preset loop; what follows them leaves the width, the preset
    index and [bpp] alone and can only reset the bit alignment to 0. *)
Lemma frame_state_inv KMOD_SHIFT KMOD_ALT presets f (S S' : ViewerState) :
  frame_state KMOD_SHIFT KMOD_ALT presets f S = Ok S' ->
  exists S1 S3,
    key_events_loop KMOD_SHIFT KMOD_ALT S (key_events f) (window_h f) = Ok S1 /\
    select_loop presets (preset_clicked f) (controls (widgets f) S1) 0
      (length presets) = Ok S3 /\
    width_px S' = width_px S3 /\
    (bit_align S' = bit_align S3 \/ bit_align S' = 0) /\
    preset_idx S' = preset_idx S3 /\
    bpp S' = bpp S3.
Proof.
  unfold frame_state. cbv zeta. intros H.
  bind_inv H. bind_inv H. exists a, a0.
  split; [exact Ha|]. split; [exact Ha0|].
  destruct (load_request f) as [[path file]|].
  - bind_inv H. inversion H; subst S'; clear H.
    unfold load_file_into in Ha1. cbv zeta in Ha1.
    destruct (String.length path =? 0)%nat;
      [|destruct file as [file|];
        [destruct ((u64 (tellg file) >? 2 ^ 63 - 1) || negb (allocated file));
         [discriminate|]|]];
      inversion Ha1; subst a1; clear Ha1;
      destruct (center_pressed f); cbn; auto.
  - inversion H; subst S'; clear H.
    destruct (center_pressed f); cbn; auto.
Qed.

(** A frame whose deferred load opens a path that is not a regular file
    does not reach the renderer: the exception of [load_file_into] leaves
    the main loop. *)
Lemma frame_load_not_regular KMOD_SHIFT KMOD_ALT presets f (S : ViewerState) path file :
  load_request f = Some (path, Some file) ->
  path <> ""%string ->
  tellg file = -1 ->
  forall out, frame_render KMOD_SHIFT KMOD_ALT presets f S <> Ok out.
Proof.
  intros Hreq Hpath Hsz out Hrun.
  unfold frame_render in Hrun. bind_inv Hrun.
  unfold frame_state in Ha. cbv zeta in Ha.
  bind_inv Ha. bind_inv Ha. rewrite Hreq in Ha.
  rewrite load_not_regular_throws in Ha by assumption.
  discriminate Ha.
Qed.

(** X25: whatever keys were pressed and whatever the widgets wrote, the state
    that a frame hands to [render_viewport] has a width of at least 1 and a
    bit alignment between 0 and 7, and its preset index is an index of the
    preset vector if it was one before the frame. *)
Theorem frame_state_invariants KMOD_SHIFT KMOD_ALT presets f (S S' : ViewerState) :
  frame_state KMOD_SHIFT KMOD_ALT presets f S = Ok S' ->
  1 <= width_px S' /\
  0 <= bit_align S' <= 7 /\
  (0 <= preset_idx S < Z.of_nat (length presets) ->
   0 <= preset_idx S' < Z.of_nat (length presets)).
Proof.
  intros H.
  apply frame_state_inv in H.
  destruct H as (S1 & S3 & Hkeys & Hsel & Hw & Hal & Hidx & _).
  apply key_events_loop_preset_idx in Hkeys.
  apply select_loop_frame in Hsel. destruct Hsel as (Hw3 & Hal3 & Hidx3).
  destruct (controls_clamped (widgets f) S1) as (Hw1 & Hal1 & _).
  rewrite controls_preset_idx, Hkeys in Hidx3.
  split; [lia|]. split; [lia|]. intros Hvalid. lia.
Qed.

Lemma frame_state_invariants_witness :
  1 <= width_px (controls untouched (viewer_state [1; 2; 3] 0 0 8 9 true false)) /\
  0 <= bit_align (controls untouched (viewer_state [1; 2; 3] 0 0 8 9 true false)) <= 7.
Proof.
  destruct (frame_state_invariants 3 768 build_presets (idle_frame 600)
              (viewer_state [1; 2; 3] 0 0 8 9 true false)
              (controls untouched (viewer_state [1; 2; 3] 0 0 8 9 true false)))
    as (Hw & Hal & _); [reflexivity|].
  split; [exact Hw | exact Hal].
Defined.

(** X26: the raster of a frame that rendered at least one row always passes the
    size test of [save_png] when it is saved with the state's width and the
    rendered row count, as the main loop does through [tex_w] and [tex_h]:
    [save_png] hands it to the PNG writer with a stride of [4 * width_px]
    bytes and reports the writer's outcome. *)
Theorem frame_raster_saved KMOD_SHIFT KMOD_ALT presets f (S S' : ViewerState)
    stbi_write_png file px r :
  frame_render KMOD_SHIFT KMOD_ALT presets f S = Ok (S', (px, r)) ->
  is_int (width_px S') ->
  0 < r ->
  r * width_px S' < 2 ^ 29 ->
  Z.of_nat (length px) = width_px S' * r * 4 /\
  save_png stbi_write_png file (width_px S') r px =
    Ok (negb (stbi_write_png file (width_px S') r 4 px (width_px S' * 4) =? 0)).
Proof.
  unfold frame_render. cbv zeta. intros Hrun Hwidth Hrows Hsmall.
  bind_inv Hrun. bind_inv Hrun. bind_inv Hrun. inversion Hrun; subst a a1; clear Hrun.
  assert (Hw1 : 1 <= width_px S').
  { apply frame_state_inv in Ha.
    destruct Ha as (S1 & S3 & _ & Hsel & Hw & _).
    apply select_loop_frame in Hsel. destruct Hsel as (Hw3 & _).
    destruct (controls_clamped (widgets f) S1) as (Hc & _). lia. }
  assert (Hwof : width_of S' = width_px S') by (unfold width_of; lia).
  pose proof (width_of_range S' Hwidth) as Hwr. rewrite Hwof in Hwr.
  apply render_viewport_Ok_inv in Ha1; [|assumption].
  assert (Hsize : Z.of_nat (length px) = 4 * (r * width_px S')).
  { destruct Ha1 as [(-> & -> & _) | (pa & H)]; [lia|].
    cbv zeta in H. rewrite Hwof in H.
    destruct H as (_ & _ & _ & _ & _ & _ & _ & _ & Hsize & _). exact Hsize. }
  split; [lia|].
  unfold save_png, int_mul.
  rewrite int_result_Ok by (unfold is_int, INT_MIN, INT_MAX; nia). cbn [bind].
  rewrite int_result_Ok by (unfold is_int, INT_MIN, INT_MAX; nia). cbn [bind].
  rewrite Hsize. rewrite u64_small by nia.
  assert (Hs32 : s32 (4 * (r * width_px S')) = 4 * (r * width_px S')).
  { unfold s32. rewrite Z.mod_small by nia. lia. }
  rewrite Hs32.
  destruct (Z.ltb_spec (4 * (r * width_px S')) (width_px S' * r * 4)); [lia|].
  rewrite int_result_Ok by (unfold is_int, INT_MIN, INT_MAX; nia). cbn [bind].
  reflexivity.
Qed.

Lemma frame_raster_saved_witness :
  save_png (fun _ _ _ _ _ _ => 1) "rawviewer000.png" 4 1
    [1; 1; 1; 255;  2; 2; 2; 255;  3; 3; 3; 255;  0; 0; 0; 0] =
  Ok (negb ((fun _ _ _ _ _ _ => 1) "rawviewer000.png"%string 4 1 4
              [1; 1; 1; 255;  2; 2; 2; 255;  3; 3; 3; 255;  0; 0; 0; 0] (4 * 4) =? 0)).
Proof.
  destruct (frame_raster_saved 3 768 build_presets (idle_frame 1)
              (viewer_state [1; 2; 3] 0 4 8 0 true false)
              (viewer_state [1; 2; 3] 0 4 8 0 true false)
              (fun _ _ _ _ _ _ => 1) "rawviewer000.png"
              [1; 1; 1; 255;  2; 2; 2; 255;  3; 3; 3; 255;  0; 0; 0; 0] 1)
    as [_ Hsave]; [by_evaluation .. |].
  exact Hsave.
Defined.

(** ** Saving under a fresh name *)

Lemma save_loop_step n file_exists save outc attempts :
  -1 <= outc < 999 ->
  save_loop (Datatypes.S n) file_exists save true outc attempts =
    if file_exists (png_name (outc + 1))
    then save_loop n file_exists save true (outc + 1) attempts
    else
      saved <- save (png_name (outc + 1)) ;;
      save_loop n file_exists save (negb saved) (outc + 1)
        (attempts ++ [png_name (outc + 1)]).
Proof.
  intros Hc. cbn [save_loop]. unfold int_add.
  rewrite int_result_Ok by (unfold is_int, INT_MIN, INT_MAX; lia). cbn [bind].
  destruct (Z.ltb_spec outc 999); [reflexivity | lia].
Qed.




Lemma save_loop_first file_exists save k :
  0 <= k <= 999 ->
  file_exists (png_name k) = false ->
  save (png_name k) = Ok true ->
  forall m j n attempts,
    k - j = Z.of_nat m ->
    0 <= j ->
    (m + 2 <= n)%nat ->
    (forall i, j <= i < k ->
       file_exists (png_name i) = true \/ save (png_name i) = Ok false) ->
    exists failed,
      save_loop n file_exists save true (j - 1) attempts =
        Ok (Some (false, attempts ++ failed ++ [png_name k])) /\
      Forall (fun name => file_exists name = false /\ save name = Ok false) failed.
Proof.
  intros Hk Hfree Hsave.
  induction m as [|m IH]; intros j n attempts Hm Hj Hn Hbusy.
  - assert (j = k) by lia. subst j.
    destruct n as [|[|n]]; try lia.
    rewrite save_loop_step by lia.
    replace (k - 1 + 1) with k by lia.
    rewrite Hfree, Hsave. cbn [bind negb save_loop].
    exists []. split; [reflexivity | constructor].
  - destruct n as [|n]; [lia|].
    rewrite save_loop_step by lia.
    replace (j - 1 + 1) with j by lia.
    destruct (file_exists (png_name j)) eqn:Hex.
    + destruct (IH (j + 1) n attempts ltac:(lia) ltac:(lia) ltac:(lia))
        as (failed & Hrun & Hall).
      { intros i Hi. apply Hbusy. lia. }
      replace (j + 1 - 1) with j in Hrun by lia.
      exists failed. split; [exact Hrun | exact Hall].
    + destruct (Hbusy j ltac:(lia)) as [Hc|Hfail]; [congruence|].
      rewrite Hfail. cbn [bind negb].
      destruct (IH (j + 1) n (attempts ++ [png_name j]) ltac:(lia) ltac:(lia)
                  ltac:(lia))
        as (failed & Hrun & Hall).
      { intros i Hi. apply Hbusy. lia. }
      replace (j + 1 - 1) with j in Hrun by lia.
      exists (png_name j :: failed). split.
      * rewrite Hrun. rewrite <- app_assoc. reflexivity.
      * constructor; auto.
Qed.

(** X28: a requested save of a frame that rendered at least one row writes the
    first of [rawviewer000.png] ... [rawviewer999.png] that does not exist
    and that the writer accepts: every earlier name exists already or was
    refused by the writer, and no later name is tried. *)
Theorem save_visible_first_free_name file_exists save rows_rendered k :
  0 < rows_rendered ->
  0 <= k <= 999 ->
  (forall i, 0 <= i < k ->
     file_exists (png_name i) = true \/ save (png_name i) = Ok false) ->
  file_exists (png_name k) = false ->
  save (png_name k) = Ok true ->
  exists failed,
    save_visible file_exists save true rows_rendered =
      Ok (Some (true, failed ++ [png_name k])) /\
    Forall (fun name => file_exists name = false /\ save name = Ok false) failed.
Proof.
  intros Hrows Hk Hbusy Hfree Hsave.
  destruct (save_loop_first file_exists save k Hk Hfree Hsave
              (Z.to_nat k) 0 1001 [] ltac:(lia) ltac:(lia) ltac:(lia) Hbusy)
    as (failed & Hrun & Hall).
  exists failed. split; [|exact Hall].
  unfold save_visible.
  destruct (Z.gtb_spec rows_rendered 0); [|lia]. cbn [andb].
  change (0 - 1) with (-1) in Hrun. rewrite Hrun. reflexivity.
Qed.

Lemma save_visible_first_free_name_witness :
  exists failed,
    save_visible
      (fun name => String.eqb name "rawviewer000.png" || String.eqb name "rawviewer001.png")
      (fun _ => Ok true) true 2 =
      Ok (Some (true, failed ++ [png_name 2])).
Proof.
  destruct (save_visible_first_free_name
              (fun name => String.eqb name "rawviewer000.png"
                           || String.eqb name "rawviewer001.png")
              (fun _ => Ok true) 2 2)
    as (failed & Hrun & _).
  - lia.
  - lia.
  - intros i Hi. left.
    assert (Hcases : i = 0 \/ i = 1) by lia.
    destruct Hcases as [-> | ->]; reflexivity.
  - reflexivity.
  - reflexivity.
  - exists failed. exact Hrun.
Defined.

(** ** Frames that leave the "Bits per pixel" box alone *)

Lemma cycle_bpp_range step b :
  step = 1 \/ step = 3 -> 1 <= cycle_bpp step b <= 32.
Proof.
  intros [-> | ->]; [rewrite cycle_bpp_up | rewrite cycle_bpp_down];
    repeat match goal with |- context [?x =? ?y] => destruct (x =? y) end; lia.
Qed.

(** A key either leaves [bpp] alone or sets it to one of the choices. *)
Lemma key_down_bpp KMOD_SHIFT KMOD_ALT (S : ViewerState) k kmod win_h S' :
  key_down KMOD_SHIFT KMOD_ALT S k kmod win_h = Ok S' ->
  1 <= bpp S <= 32 -> 1 <= bpp S' <= 32.
Proof.
  unfold key_down. intros H Hb.
  destruct (negb (Z.land kmod KMOD_SHIFT =? 0));
    [|destruct (negb (Z.land kmod KMOD_ALT =? 0))];
    destruct k; cbv zeta in H;
    repeat (first
      [ match type of H with
        | Ok (set_bpp _ (cycle_bpp _ _)) = Ok _ =>
            inversion H; subst; cbn [bpp set_bpp]; apply cycle_bpp_range; auto
        | Ok _ = Ok _ => inversion H; subst; exact Hb
        end
      | match type of H with
        | bind _ _ = Ok _ =>
            let a := fresh "a" in let Ha := fresh "Ha" in
            apply bind_Ok in H; destruct H as (a & Ha & H)
        | (if ?c then _ else _) = Ok _ => destruct c
        end ]).
Qed.

Lemma key_events_loop_bpp KMOD_SHIFT KMOD_ALT events win_h :
  forall (S S' : ViewerState),
    key_events_loop KMOD_SHIFT KMOD_ALT S events win_h = Ok S' ->
    1 <= bpp S <= 32 -> 1 <= bpp S' <= 32.
Proof.
  induction events as [|[k kmod] rest IH]; intros S S' H Hb.
  - simpl in H. inversion H; subst; exact Hb.
  - cbn [key_events_loop] in H. bind_inv H.
    apply key_down_bpp in Ha; [|exact Hb]. eapply IH; eauto.
Qed.

Lemma select_preset_bpp (S : ViewerState) i S' :
  select_preset build_presets S i = Ok S' ->
  1 <= bpp S <= 32 -> 1 <= bpp S' <= 32.
Proof.
  intros H Hb.
  destruct (Nat.lt_ge_cases i (length build_presets)) as [Hi|Hi].
  - assert (HS : S' = set_bpp (set_preset_idx S (Z.of_nat i))
                         (fold_right Z.add 0 (map bits (fields (preset_at i)))) /\
                 1 <= fold_right Z.add 0 (map bits (fields (preset_at i))) <= 32).
    { do 21 (destruct i as [|i];
             [split; [cbv in H; inversion H; reflexivity | vm_compute; split; discriminate]|]).
      simpl in Hi. lia. }
    destruct HS as [-> Hr]. exact Hr.
  - unfold select_preset in H. cbv zeta in H.
    rewrite nth_overflow in H by exact Hi. simpl in H. inversion H; subst. exact Hb.
Qed.

Lemma select_loop_bpp clicked n :
  forall (S : ViewerState) i S',
    select_loop build_presets clicked S i n = Ok S' ->
    1 <= bpp S <= 32 -> 1 <= bpp S' <= 32.
Proof.
  induction n as [|n IH]; intros S i S' H Hb.
  - simpl in H. inversion H; subst; exact Hb.
  - cbn [select_loop] in H. bind_inv H.
    eapply IH; [exact H|].
    destruct (clicked i).
    + eapply select_preset_bpp; eauto.
    + inversion Ha; subst; exact Hb.
Qed.

Lemma catalog_fields_narrow i :
  Forall (fun f => 0 <= bits f <= 63) (fields (preset_at i)).
Proof.
  do 21 (destruct i as [|i]; [repeat constructor; vm_compute; discriminate|]).
  unfold preset_at. rewrite nth_overflow by (simpl; lia). constructor.
Qed.

(** X29: as long as the "Bits per pixel" box is not edited, a frame that
    reaches the renderer (its key handler does not overflow and its
    deferred load, if any, does not throw) keeps [bpp] between 1 and 32,
    whatever keys, buttons and presets are used, and its call of
    [render_viewport] returns: no division by zero, no shift out of range
    and no access outside the buffer or the raster, for every offset and
    width within the integer ranges of [in_range_call]. *)
Theorem frame_render_defined KMOD_SHIFT KMOD_ALT f (S S' : ViewerState) :
  (forall v, input_bpp (widgets f) v = v) ->
  1 <= bpp S <= 32 ->
  0 <= preset_idx S < Z.of_nat (length build_presets) ->
  frame_state KMOD_SHIFT KMOD_ALT build_presets f S = Ok S' ->
  in_range_call S' (if avail_h f <? 1 then 64 else avail_h f) ->
  1 <= bpp S' <= 32 /\
  exists px r,
    frame_render KMOD_SHIFT KMOD_ALT build_presets f S = Ok (S', (px, r)).
Proof.
  intros Hbox Hb Hidx Hstate Hcall.
  destruct (frame_state_inv _ _ _ _ _ _ Hstate)
    as (S1 & S3 & Hkeys & Hsel & _ & _ & Hidx' & Hbpp').
  assert (Hbpp : 1 <= bpp S' <= 32).
  { rewrite Hbpp'. apply select_loop_bpp in Hsel; [exact Hsel|].
    rewrite controls_bpp, Hbox.
    pose proof (key_events_loop_bpp _ _ _ _ _ _ Hkeys Hb).
    destruct (button_16bpp (widgets f)), (button_8bpp (widgets f)),
      (button_4bpp (widgets f)), (button_1bpp (widgets f)); lia. }
  split; [exact Hbpp|].
  assert (Hi : 0 <= preset_idx S' < Z.of_nat (length build_presets)).
  { apply key_events_loop_preset_idx in Hkeys.
    apply select_loop_frame in Hsel. destruct Hsel as (_ & _ & Hidx3).
    rewrite controls_preset_idx, Hkeys in Hidx3. lia. }
  unfold frame_render. rewrite Hstate. cbn [bind]. cbv zeta.
  destruct (Z.leb_spec 0 (preset_idx S')); [|lia].
  destruct (Z.ltb_spec (preset_idx S') (Z.of_nat (length build_presets))); [|lia].
  cbn [andb bind].
  fold (preset_at (Z.to_nat (preset_idx S'))).
  destruct (render_viewport_defined S' (preset_at (Z.to_nat (preset_idx S')))
              (if avail_h f <? 1 then 64 else avail_h f))
    as (px & r & Hrun); [lia | exact Hcall | |].
  - unfold decodable. repeat split; try (right; lia).
    apply catalog_fields_narrow.
  - exists px, r. rewrite Hrun. reflexivity.
Qed.

Lemma frame_render_defined_witness :
  exists px r,
    frame_render 3 768 build_presets
      {| key_events := [(SDLK_UP, 256); (SDLK_PAGEDOWN, 0)]; window_h := 2;
         widgets := untouched; preset_clicked := fun i => Nat.eqb i 17;
         checkbox_msb := fun b => b; checkbox_le := fun _ => true;
         center_pressed := false; load_request := None; avail_h := 0 |}
      (viewer_state [18; 52; 86; 120; 154; 188; 222; 240; 1; 2] 0 2 8 0 true false) =
    Ok (set_orders
          (set_bpp
             (set_preset_idx
                (set_bit_align
                   (set_stofs
                      (viewer_state [18; 52; 86; 120; 154; 188; 222; 240; 1; 2] 0 2 16 0
                         true false) 5) 2) 17) 32) true true,
        (px, r)).
Proof.
  destruct (frame_render_defined 3 768
              {| key_events := [(SDLK_UP, 256); (SDLK_PAGEDOWN, 0)]; window_h := 2;
                 widgets := untouched; preset_clicked := fun i => Nat.eqb i 17;
                 checkbox_msb := fun b => b; checkbox_le := fun _ => true;
                 center_pressed := false; load_request := None; avail_h := 0 |}
              (viewer_state [18; 52; 86; 120; 154; 188; 222; 240; 1; 2] 0 2 8 0 true false)
              (set_orders
                 (set_bpp
                    (set_preset_idx
                       (set_bit_align
                          (set_stofs
                             (viewer_state [18; 52; 86; 120; 154; 188; 222; 240; 1; 2] 0 2 16 0
                                true false) 5) 2) 17) 32) true true))
    as (_ & px & r & Hrun).
  - reflexivity.
  - by_evaluation.
  - by_evaluation.
  - vm_compute. reflexivity.
  - repeat split; by_evaluation.
  - exists px, r. exact Hrun.
Defined.

(** ** The default view: one byte per pixel *)

(** One byte at a byte boundary decoded with the 8-bit grayscale preset is
    the byte on the three colour channels, under every setting of the two
    orders. *)
Lemma decode_pixel_byte_gray (s : ViewerState) k :
  bpp s = 8 ->
  0 <= k ->
  8 * k + 8 < 2 ^ 64 ->
  0 <= nth (Z.to_nat k) (data s) 0 < 256 ->
  decode_pixel s (preset_at 3) (spec_total_bits (data s)) (8 * k) =
    Ok {| red := nth (Z.to_nat k) (data s) 0;
          green := nth (Z.to_nat k) (data s) 0;
          blue := nth (Z.to_nat k) (data s) 0;
          alpha := 255 |}.
Proof.
  intros Hbpp Hk Hend Hb.
  destruct (aligned_byte (data s) k Hk Hb) as [Em El].
  set (b := nth (Z.to_nat k) (data s) 0) in *.
  assert (Hread : (if bit_order_msb s
                   then read_bits_msb (data s) (spec_total_bits (data s)) (8 * k) (bpp s)
                   else read_bits_lsb (data s) (spec_total_bits (data s)) (8 * k) (bpp s))
                  = Ok b).
  { rewrite Hbpp. destruct (bit_order_msb s).
    - rewrite read_bits_msb_low32 by lia.
      change (Z.to_nat 8) with 8%nat. rewrite Em. rewrite u32_small by lia.
      reflexivity.
    - rewrite read_bits_lsb_spec by lia.
      change (Z.to_nat 8) with 8%nat. rewrite El. reflexivity. }
  unfold decode_pixel. rewrite Hread. cbn [bind]. rewrite Hbpp.
  assert (Hadj : adjust_endianness_pixel b 8 (byte_order_le s) = Ok b).
  { unfold adjust_endianness_pixel. change (8 <=? 8) with true.
    rewrite orb_true_r. change (8 >=? 64) with false. cbv iota.
    rewrite low_mask_Ok by lia. cbn [bind]. f_equal.
    change (2 ^ 8 - 1) with (Z.ones 8). rewrite Z.land_ones by lia.
    apply Z.mod_small; lia. }
  rewrite Hadj. cbn [bind].
  change (fields (preset_at 3)) with [field "y" 8].
  cbn [decode_fields bits field]. cbv zeta.
  change (Z.min 8 8) with 8. change ((0 <? 8) && (0 <? 8)) with true. cbv iota.
  unfold int_sub. change (8 - 8) with 0.
  rewrite int_result_Ok by by_evaluation. cbn [bind].
  rewrite u64_shr_Ok by lia. cbn [bind]. rewrite Z.shiftr_0_r.
  rewrite low_mask_Ok by lia. cbn [bind].
  change (2 ^ 8 - 1) with (Z.ones 8). rewrite Z.land_ones by lia.
  rewrite (Z.mod_small b) by lia.
  change (u8 8) with 8. unfold scale_to_8.
  change (8 =? 0) with false. change (8 >=? 8) with true. change (8 =? 8) with true.
  cbv iota. cbn [bind].
  change 255 with (Z.ones 8) at 1. rewrite Z.land_ones by lia.
  rewrite (Z.mod_small b) by lia. rewrite u8_small by lia.
  reflexivity.
Qed.

(** X30: with 8 bits per pixel, no bit alignment and the 8-bit grayscale preset,
    the configuration the viewer starts with, the raster shows the bytes of
    the file themselves: pixel [p] is the byte at offset [stofs + p] on red,
    green and blue, with alpha 255, under every setting of the bit order
    and of the byte order. *)
Theorem render_bytes_as_gray (s : ViewerState) rows px r :
  bpp s = 8 ->
  bit_align s = 0 ->
  0 <= stofs s ->
  is_int (width_px s) ->
  Forall (fun b => 0 <= b < 256) (data s) ->
  spec_total_bits (data s) < 2 ^ 63 ->
  render_viewport s (preset_at 3) rows = Ok (px, r) ->
  forall p, 0 <= p < r * width_of s -> p < pixels_available_of s ->
    nth_error px (Z.to_nat (4 * p)) = Some (nth (Z.to_nat (stofs s + p)) (data s) 0) /\
    nth_error px (Z.to_nat (4 * p + 1)) = Some (nth (Z.to_nat (stofs s + p)) (data s) 0) /\
    nth_error px (Z.to_nat (4 * p + 2)) = Some (nth (Z.to_nat (stofs s + p)) (data s) 0) /\
    nth_error px (Z.to_nat (4 * p + 3)) = Some 255.
Proof.
  intros Hbpp Hal Hofs Hwidth Hbytes Hlen Hrun p Hp Hav.
  assert (Hstart : start_bit_of s = 8 * stofs s) by (unfold start_bit_of; lia).
  destruct (render_viewport_pixel_at s (preset_at 3) rows px r Hwidth
              ltac:(lia) Hlen ltac:(lia) Hrun p Hp Hav)
    as (c & Hc & H0 & H1 & H2 & H3).
  assert (Hin : stofs s + p < Z.of_nat (length (data s))).
  { unfold pixels_available_of in Hav. rewrite Hbpp, Hstart in Hav.
    unfold spec_total_bits in Hav.
    replace (Z.of_nat (length (data s)) * 8 - 8 * stofs s)
      with ((Z.of_nat (length (data s)) - stofs s) * 8) in Hav by lia.
    rewrite Z.div_mul in Hav by lia. lia. }
  rewrite Hstart, Hbpp in Hc.
  replace (8 * stofs s + p * 8) with (8 * (stofs s + p)) in Hc by lia.
  rewrite decode_pixel_byte_gray in Hc; try lia.
  - inversion Hc; subst c. cbn [red green blue alpha] in *. auto.
  - unfold spec_total_bits in Hlen. lia.
  - assert (Hb : 0 <= nth (Z.to_nat (stofs s + p)) (data s) 0 < 256).
    { apply (proj1 (Forall_forall _ (data s)) Hbytes). apply nth_In. lia. }
    lia.
Qed.

Lemma render_bytes_as_gray_witness :
  nth_error [3; 3; 3; 255;  4; 4; 4; 255;  5; 5; 5; 255] (Z.to_nat (4 * 1)) =
  Some (nth (Z.to_nat (stofs (viewer_state [1; 2; 3; 4; 5] 2 3 8 0 false true) + 1))
          (data (viewer_state [1; 2; 3; 4; 5] 2 3 8 0 false true)) 0).
Proof.
  destruct (render_bytes_as_gray (viewer_state [1; 2; 3; 4; 5] 2 3 8 0 false true) 1
              [3; 3; 3; 255;  4; 4; 4; 255;  5; 5; 5; 255] 1)
    with (p := 1) as (H0 & _).
  - reflexivity.
  - reflexivity.
  - by_evaluation.
  - by_evaluation.
  - repeat constructor; by_evaluation.
  - by_evaluation.
  - by_evaluation.
  - by_evaluation.
  - by_evaluation.
  - exact H0.
Defined.
